(** * dls-normsql: the sqlite store wrapper [Aiosqlite]

    A shallow embedding of [src/dls_normsql/aiosqlite.py] and the properties
    of its connection life cycle, revision migration, row insertion, query
    and backup/restore operations.

    The Python coroutines run in one flow of control; every [await] is a
    sequential step.  A coroutine becomes a function in a state-and-exception
    monad over the store object and the world around it (file system, clock,
    the opened engine connection, a trace of the external calls made). *)

From Stdlib Require Import Ascii.
From stdpp Require Import base option list gmap strings sorting pretty list_numbers.

Local Open Scope Z_scope.

(** ** Paths: the parts of [os.path] the module calls *)

Module Path.

(** [s.rfind(c)] as a split: the text before and after the last [c]. *)
Fixpoint split_last (c : ascii) (s : string) : option (string * string) :=
  match s with
  | EmptyString => None
  | String a s' =>
      match split_last c s' with
      | Some (b, t) => Some (String a b, t)
      | None => if Ascii.eqb a c then Some (EmptyString, s') else None
      end
  end.

Fixpoint all_char (c : ascii) (s : string) : bool :=
  match s with
  | EmptyString => true
  | String a s' => Ascii.eqb a c && all_char c s'
  end.

Fixpoint has_char (c : ascii) (s : string) : bool :=
  match s with
  | EmptyString => false
  | String a s' => Ascii.eqb a c || has_char c s'
  end.

(** [s.rstrip(c)] *)
Fixpoint rstrip (c : ascii) (s : string) : string :=
  match s with
  | EmptyString => EmptyString
  | String a s' =>
      match rstrip c s' with
      | EmptyString => if Ascii.eqb a c then EmptyString else String a EmptyString
      | r => String a r
      end
  end.

(** [posixpath.split]: head is everything up to the last slash, with its
    trailing slashes stripped unless it consists of slashes only. *)
Definition split (p : string) : string * string :=
  match split_last "/"%char p with
  | None => ("", p)
  | Some (b, t) =>
      let head := b +:+ "/" in
      (if all_char "/"%char head then head else rstrip "/"%char head, t)
  end.

Definition dirname (p : string) : string := fst (split p).
Definition basename (p : string) : string := snd (split p).

(** [posixpath.splitext] on a name: the extension starts at the last dot,
    unless only dots precede it. *)
Definition splitext (p : string) : string * string :=
  match split_last "/"%char p, split_last "."%char p with
  | _, None => (p, "")
  | None, Some (b, t) =>
      if all_char "."%char b then (p, "") else (b, String "." t)
  | Some (_, after_sep), Some (b, t) =>
      (* the last dot must come after the last slash, and a character
         other than a dot must stand between them *)
      match split_last "."%char after_sep with
      | None => (p, "")
      | Some (b', _) => if all_char "."%char b' then (p, "") else (b, String "." t)
      end
  end.

(** The ancestors of a directory path, nearest last: every proper prefix
    that ends just before a slash. *)
Fixpoint ancestors_from (seen : string) (rest : string) : list string :=
  match rest with
  | EmptyString => []
  | String a rest' =>
      (if Ascii.eqb a "/"%char && negb (all_char "/"%char seen) then [seen] else [])
        ++ ancestors_from (seen +:+ String a EmptyString) rest'
  end.
Definition ancestors (d : string) : list string := ancestors_from "" d.

(** Does [p] have the shape [prefix ++ x ++ suffix] with no slash in [x]?
    This is the match of the glob pattern [prefix*suffix] on one path
    component. *)
Fixpoint strip_prefix (pre s : string) : option string :=
  match pre, s with
  | EmptyString, _ => Some s
  | String a pre', String b s' =>
      if Ascii.eqb a b then strip_prefix pre' s' else None
  | _, _ => None
  end.

Definition strip_suffix (suf s : string) : option string :=
  String.rev <$> strip_prefix (String.rev suf) (String.rev s).

Definition star_match (pre suf p : string) : bool :=
  match strip_prefix pre p with
  | Some rest =>
      match strip_suffix suf rest with
      | Some x => negb (has_char "/"%char rest)
      | None => false
      end
  | None => false
  end.

End Path.

(** ** Python values, dictionaries and exceptions *)

(** The values the engine stores and returns: [None], [int], [str]. *)
Inductive value :=
| VNone
| VInt (n : Z)
| VStr (s : string).

Global Instance value_eq_dec : EqDecision value.
Proof. solve_decision. Defined.

(** A [dict] whose order of insertion matters ([OrderedDict], the [fields]
    of a table definition, the table registry): an association list in
    which a key occurs at most once; [d[k] = v] keeps the place of a key
    that is already there. *)
Fixpoint dict_set {V : Type} (k : string) (v : V) (d : list (string * V))
  : list (string * V) :=
  match d with
  | [] => [(k, v)]
  | (k', v') :: d' =>
      if String.eqb k' k then (k, v) :: d' else (k', v') :: dict_set k v d'
  end.

Fixpoint dict_get {V : Type} (k : string) (d : list (string * V)) : option V :=
  match d with
  | [] => None
  | (k', v') :: d' => if String.eqb k' k then Some v' else dict_get k d'
  end.

(** A row handed to [insert] or [update] is a plain [dict], on which only
    membership and lookup are used: a [gmap string value].  A row returned
    by [query] is an [OrderedDict]: a [list (string * value)]. *)

Inductive exn :=
| RuntimeError (msg : string)
| OperationalError (msg : string)      (* aiosqlite.OperationalError *)
| ProgrammingError (msg : string)      (* aiosqlite.ProgrammingError *)
| NotFound (msg : string)              (* raised by dls_utilpack.require *)
| AttributeError (msg : string)
| TypeError (msg : string)
| IndexError (msg : string)
| KeyError (msg : string)
| FileNotFoundError (path : string)
| FileExistsError (path : string)
| OSError (msg : string).

Global Instance exn_eq_dec : EqDecision exn.
Proof. solve_decision. Defined.

Inductive outcome (A : Type) :=
| Ok (a : A)
| Raise (e : exn).
Global Arguments Ok {A} a.
Global Arguments Raise {A} e.

(** ** Constants and table definitions *)

(** Modelled from the spec: [dls_normsql/constants.py] is not among the
    sources.  The bookkeeping table is named "revision" and has the columns
    [created_on] and [number]; the identity fields are the unique
    identifier and the autoincrement id. *)
Module CommonFieldnames.
Definition UUID : string := "uuid".
Definition AUTOID : string := "autoid".
Definition CREATED_ON : string := "created_on".
End CommonFieldnames.

Module RevisionFieldnames.
Definition CREATED_ON : string := CommonFieldnames.CREATED_ON.
Definition NUMBER : string := "number".
End RevisionFieldnames.

Module Tablenames.
Definition REVISION : string := "revision".
End Tablenames.

(** The value of [table.fields[field_name]]: [{"type": ..., "index": ...}];
    an absent ["index"] reads as [false] through [field.get("index")]. *)
Record FieldSpec := { f_type : string; f_index : bool }.

(** Modelled from the spec: [dls_normsql/table_definition.py] is not among
    the sources.  A definition is a name and an ordered mapping from field
    name to field specification, empty when constructed. *)
Record TableDefinition := { name : string; fields : list (string * FieldSpec) }.

Definition TableDefinition_init (n : string) : TableDefinition :=
  {| name := n; fields := [] |}.

Definition set_field (k : string) (v : FieldSpec) (t : TableDefinition)
  : TableDefinition :=
  {| name := name t; fields := dict_set k v (fields t) |}.

(** [RevisionTableDefinition.__init__] *)
Definition RevisionTableDefinition : TableDefinition :=
  set_field RevisionFieldnames.NUMBER {| f_type := "INTEGER"; f_index := false |}
    (set_field RevisionFieldnames.CREATED_ON {| f_type := "TEXT"; f_index := true |}
       (TableDefinition_init "revision")).

(** ** The embedded engine

    The engine is outside the module; what follows is the part of its
    behaviour the module relies on.  A database is a finite map from table
    name to table; a table has its columns (name and declared type), the
    names of its indices and its rows, each row aligned with the columns.
    The statements are the ones the module builds; [sql_text] is the text
    the Python code formats for each. *)

Record table := Table {
  t_columns : list (string * string);
  t_indices : list string;
  t_rows : list (list value)
}.

Inductive where_clause :=
| Where_all                   (* "1 = 1" *)
| Where_eq (field : string).  (* "field = ?" *)

Inductive statement :=
| Drop_table_if_exists (table_name : string)
| Create_table (table_name : string) (fields_sql : list (string * string))
| Create_index (table_name field_name : string)
| Insert_into (table_name : string) (insertable_fields : list string)
| Update_set (table_name : string) (set_fields : list string) (where_ : where_clause)
| Select_from (columns : list string) (table_name : string).

(** [sep.join(l)] *)
Fixpoint join (sep : string) (l : list string) : string :=
  match l with
  | [] => ""
  | [x] => x
  | x :: l' => x +:+ sep +:+ join sep l'
  end.

Definition where_text (w : where_clause) : string :=
  match w with
  | Where_all => "1 = 1"
  | Where_eq f => f +:+ " = ?"
  end.

Definition sql_text (q : statement) : string :=
  match q with
  | Drop_table_if_exists t => "DROP TABLE IF EXISTS " +:+ t
  | Create_table t fs =>
      "CREATE TABLE " +:+ t +:+ "("
        +:+ join ", " ((λ f, f.1 +:+ " " +:+ f.2) <$> fs) +:+ ")"
  | Create_index t f =>
      "CREATE INDEX " +:+ t +:+ "_" +:+ f +:+ " ON " +:+ t +:+ "(" +:+ f +:+ ")"
  | Insert_into t fs =>
      "INSERT INTO " +:+ t +:+ " (" +:+ join ", " fs +:+ ") VALUES ("
        +:+ join ", " ((λ _, "?") <$> fs) +:+ ")"
  | Update_set t fs w =>
      "UPDATE " +:+ t +:+ " SET " +:+ join ", " ((λ f, f +:+ " = ?") <$> fs)
        +:+ " WHERE " +:+ where_text w
  | Select_from cs t => "SELECT " +:+ join ", " cs +:+ " FROM " +:+ t
  end.

(** Statements before which the Python binding opens a transaction. *)
Definition is_dml (q : statement) : bool :=
  match q with
  | Insert_into _ _ | Update_set _ _ _ => true
  | _ => false
  end.

Fixpoint index_of (c : string) (l : list string) : option nat :=
  match l with
  | [] => None
  | c' :: l' => if String.eqb c' c then Some 0%nat else S <$> index_of c l'
  end.

Definition has_key (c : string) (l : list string) : bool :=
  bool_decide (is_Some (index_of c l)).

(** The value a row holds in column [c], the row being aligned with [cols];
    NULL where there is none. *)
Definition cell (cols : list string) (r : list value) (c : string) : value :=
  match index_of c cols with
  | Some i => default VNone (r !! i)
  | None => VNone
  end.

Definition column_names (t : table) : list string := (t_columns t).*1.

(** What a cursor holds after a statement ran: the database as the
    statement leaves it, [description] (the result columns of a SELECT,
    [None] for other statements), the result rows and [rowcount]. *)
Record reply := Reply {
  r_db : gmap string table;
  r_description : option (list string);
  r_rows : list (list value);
  r_rowcount : Z
}.

Definition where_arity (w : where_clause) : nat :=
  match w with Where_all => 0%nat | Where_eq _ => 1%nat end.

Definition where_holds (w : where_clause) (cols : list string)
  (params : list value) (r : list value) : bool :=
  match w with
  | Where_all => true
  | Where_eq f =>
      match cell cols r f, params with
      | VNone, _ => false
      | v, [p] => bool_decide (v = p)
      | _, _ => false
      end
  end.

Definition first_missing (cs : list string) (cols : list string) : option string :=
  head (filter (λ c, has_key c cols = false) cs).

Definition engine_run (db : gmap string table) (q : statement)
  (params : list value) : outcome reply :=
  match q with
  | Drop_table_if_exists t => Ok (Reply (delete t db) None [] (-1))
  | Create_table t fs =>
      match db !! t with
      | Some _ => Raise (OperationalError ("table " +:+ t +:+ " already exists"))
      | None => Ok (Reply (<[t := Table fs [] []]> db) None [] (-1))
      end
  | Create_index t f =>
      match db !! t with
      | None => Raise (OperationalError ("no such table: main." +:+ t))
      | Some tb =>
          if has_key (t +:+ "_" +:+ f) (t_indices tb)
          then Raise (OperationalError
                        ("index " +:+ t +:+ "_" +:+ f +:+ " already exists"))
          else if has_key f (column_names tb)
          then Ok (Reply (<[t := Table (t_columns tb)
                                   (t_indices tb ++ [t +:+ "_" +:+ f])
                                   (t_rows tb)]> db) None [] (-1))
          else Raise (OperationalError
                        ("table " +:+ t +:+ " has no column named " +:+ f))
      end
  | Insert_into t fs =>
      match db !! t with
      | None => Raise (OperationalError ("no such table: " +:+ t))
      | Some tb =>
          match first_missing fs (column_names tb) with
          | Some c => Raise (OperationalError
                        ("table " +:+ t +:+ " has no column named " +:+ c))
          | None =>
              if bool_decide (length params = length fs)
              then Ok (Reply (<[t := Table (t_columns tb) (t_indices tb)
                                       (t_rows tb ++ [cell fs params <$> column_names tb])]> db)
                         None [] 1)
              else Raise (ProgrammingError "Incorrect number of bindings supplied")
          end
      end
  | Update_set t fs w =>
      match db !! t with
      | None => Raise (OperationalError ("no such table: " +:+ t))
      | Some tb =>
          match first_missing fs (column_names tb) with
          | Some c => Raise (OperationalError ("no such column: " +:+ c))
          | None =>
              if bool_decide (length params = (length fs + where_arity w)%nat)
              then
                let cols := column_names tb in
                let hit := where_holds w cols (drop (length fs) params) in
                let upd r :=
                  if hit r
                  then (λ c, if has_key c fs then cell fs params c else cell cols r c) <$> cols
                  else r in
                Ok (Reply (<[t := Table (t_columns tb) (t_indices tb) (upd <$> t_rows tb)]> db)
                      None [] (Z.of_nat (length (filter (λ r, hit r = true) (t_rows tb)))))
              else Raise (ProgrammingError "Incorrect number of bindings supplied")
          end
      end
  | Select_from cs t =>
      match db !! t with
      | None => Raise (OperationalError ("no such table: " +:+ t))
      | Some tb =>
          match first_missing cs (column_names tb) with
          | Some c => Raise (OperationalError ("no such column: " +:+ c))
          | None =>
              if bool_decide (params = [])
              then Ok (Reply db (Some cs)
                         ((λ r, cell (column_names tb) r <$> cs) <$> t_rows tb) (-1))
              else Raise (ProgrammingError "Incorrect number of bindings supplied")
          end
      end
  end.

(** ** The world and the store object *)

(** A file of the store's kind: the committed database and the permission
    bits. *)
Record file := File { f_data : gmap string table; f_mode : Z }.

(** The log records that tell the migration steps apart. *)
Inductive log_record :=
| Log_need_update (old_revision latest : Z)   (* connect, "need to update old revision ..." *)
| Log_updating_to_revision (revision : Z)     (* "updating to revision {revision}" *)
| Log_creating_table (table_name : string).   (* apply_revision, "creating ... table" *)

(** The calls made to the operating system and to the engine's connection,
    in the order they are made. *)
Inductive event :=
| Ev_makedirs (directory : string)
| Ev_chmod (path : string) (mode : Z)
| Ev_remove (path : string)
| Ev_copy2 (src dst : string)
| Ev_connect (path : string)
| Ev_close (path : string)
| Ev_cursor (id : nat)
| Ev_cursor_close (id : nat)
| Ev_log (r : log_record).

Global Instance log_record_eq_dec : EqDecision log_record.
Proof. solve_decision. Defined.
Global Instance event_eq_dec : EqDecision event.
Proof. solve_decision. Defined.

(** An open connection: the file it is on, the database as the connection
    sees it (with the changes not yet committed), whether a transaction is
    open, and the cursors not yet closed. *)
Record sqlite_connection := Connection {
  c_path : string;
  c_work : gmap string table;
  c_in_transaction : bool;
  c_row_factory : bool;
  c_functions : list (string * nat);
  c_cursors : list nat;
  c_cursor_seq : nat
}.

Record world := World {
  w_files : gmap string file;
  w_dirs : gmap string Z;        (* directory path to permission bits *)
  w_umask : Z;
  w_now : string;                (* datetime.now().strftime("%Y-%m-%d %H:%M:%S.%f") *)
  w_stamp : string;              (* isodatetime_filename() *)
  w_copy_fault : bool;           (* the next shutil.copy2 fails on input/output *)
  w_trace : list event
}.

(** The attributes of an [Aiosqlite] object. *)
Record Aiosqlite := {
  filename : string;
  backup_directory : string;
  connection : option sqlite_connection;
  tables : list (string * TableDefinition);
  LATEST_REVISION : Z;
  backup_restore_lock : bool;    (* is the lock held? *)
  last_restore : Z
}.

Record state := State { self : Aiosqlite; env : world }.

(** [Aiosqlite.__init__]: [backup_directory] is the specification's entry
    when there is one, else the directory of [filename]. *)
Definition init (filename_ : string) (backup_directory_ : option string) : Aiosqlite :=
  {| filename := filename_;
     backup_directory := default (Path.dirname filename_) backup_directory_;
     connection := None;
     tables := [];
     LATEST_REVISION := 1;
     backup_restore_lock := false;
     last_restore := 0 |}.

(** Field updates. *)
Definition set_connection (c : option sqlite_connection) (s : state) : state :=
  State {| filename := filename (self s); backup_directory := backup_directory (self s);
           connection := c; tables := tables (self s);
           LATEST_REVISION := LATEST_REVISION (self s);
           backup_restore_lock := backup_restore_lock (self s);
           last_restore := last_restore (self s) |} (env s).

Definition set_tables (t : list (string * TableDefinition)) (s : state) : state :=
  State {| filename := filename (self s); backup_directory := backup_directory (self s);
           connection := connection (self s); tables := t;
           LATEST_REVISION := LATEST_REVISION (self s);
           backup_restore_lock := backup_restore_lock (self s);
           last_restore := last_restore (self s) |} (env s).

Definition set_lock (b : bool) (s : state) : state :=
  State {| filename := filename (self s); backup_directory := backup_directory (self s);
           connection := connection (self s); tables := tables (self s);
           LATEST_REVISION := LATEST_REVISION (self s);
           backup_restore_lock := b;
           last_restore := last_restore (self s) |} (env s).

Definition set_last_restore (n : Z) (s : state) : state :=
  State {| filename := filename (self s); backup_directory := backup_directory (self s);
           connection := connection (self s); tables := tables (self s);
           LATEST_REVISION := LATEST_REVISION (self s);
           backup_restore_lock := backup_restore_lock (self s);
           last_restore := n |} (env s).

Definition set_files (f : gmap string file) (s : state) : state :=
  State (self s)
    {| w_files := f; w_dirs := w_dirs (env s); w_umask := w_umask (env s);
       w_now := w_now (env s); w_stamp := w_stamp (env s);
       w_copy_fault := w_copy_fault (env s); w_trace := w_trace (env s) |}.

Definition set_dirs (d : gmap string Z) (s : state) : state :=
  State (self s)
    {| w_files := w_files (env s); w_dirs := d; w_umask := w_umask (env s);
       w_now := w_now (env s); w_stamp := w_stamp (env s);
       w_copy_fault := w_copy_fault (env s); w_trace := w_trace (env s) |}.

Definition set_umask (m : Z) (s : state) : state :=
  State (self s)
    {| w_files := w_files (env s); w_dirs := w_dirs (env s); w_umask := m;
       w_now := w_now (env s); w_stamp := w_stamp (env s);
       w_copy_fault := w_copy_fault (env s); w_trace := w_trace (env s) |}.

Definition record_event (e : event) (s : state) : state :=
  State (self s)
    {| w_files := w_files (env s); w_dirs := w_dirs (env s); w_umask := w_umask (env s);
       w_now := w_now (env s); w_stamp := w_stamp (env s);
       w_copy_fault := w_copy_fault (env s); w_trace := w_trace (env s) ++ [e] |}.

(** ** The monad of the coroutines: state and exceptions *)

Definition M (A : Type) : Type := state → outcome A * state.

Definition ret {A : Type} (a : A) : M A := λ s, (Ok a, s).

Definition bind {A B : Type} (m : M A) (f : A → M B) : M B := λ s,
  match m s with
  | (Ok a, s') => f a s'
  | (Raise e, s') => (Raise e, s')
  end.

Declare Scope M_scope.
Delimit Scope M_scope with M.
Notation "x ← y ; z" := (bind y (λ x, z))
  (at level 20, y at level 100, z at level 200, only parsing) : M_scope.
Notation "x ;; z" := (bind x (λ _, z))
  (at level 100, z at level 200, only parsing, right associativity) : M_scope.
Local Open Scope M_scope.

Definition raise {A : Type} (e : exn) : M A := λ s, (Raise e, s).
Definition gets {A : Type} (f : state → A) : M A := λ s, (Ok (f s), s).
Definition modify (f : state → state) : M unit := λ s, (Ok tt, f s).
Definition emit (e : event) : M unit := modify (record_event e).

(** [try: body except Exception as e: handler(e)] *)
Definition try_except {A : Type} (body : M A) (handler : exn → M A) : M A := λ s,
  match body s with
  | (Ok a, s') => (Ok a, s')
  | (Raise e, s') => handler e s'
  end.

(** [try: body finally: final]: [final] runs on every way out of [body];
    an exception of [final] replaces the outcome of [body]. *)
Definition try_finally {A : Type} (body : M A) (final : M unit) : M A := λ s,
  match body s with
  | (r, s') =>
      match final s' with
      | (Ok _, s'') => (r, s'')
      | (Raise e, s'') => (Raise e, s'')
      end
  end.

(** [for x in l: body(x)] *)
Fixpoint for_each {A : Type} (l : list A) (body : A → M unit) : M unit :=
  match l with
  | [] => ret tt
  | x :: l' => body x ;; for_each l' body
  end.

(** [l[i]] on a Python list, with the negative indices counting from the
    end; [None] stands for the [IndexError]. *)
Definition py_index {A : Type} (l : list A) (i : Z) : option A :=
  let n := Z.of_nat (length l) in
  if bool_decide (- n ≤ i)
  then l !! Z.to_nat (if bool_decide (0 ≤ i) then i else n + i)
  else None.

Definition getitem {A : Type} (l : list A) (i : Z) : M A :=
  match py_index l i with
  | Some x => ret x
  | None => raise (IndexError "list index out of range")
  end.

(** [async with self.__backup_restore_lock: body].  In one flow of control
    the lock is free on entry; it is released on every way out. *)
Definition with_lock {A : Type} (body : M A) : M A :=
  modify (set_lock true) ;; try_finally body (modify (set_lock false)).

(** ** The operating system calls *)

Definition os_path_isfile (p : string) : M bool :=
  gets (λ s, bool_decide (is_Some (w_files (env s) !! p))).

Definition os_path_exists (p : string) : M bool :=
  gets (λ s, bool_decide (is_Some (w_files (env s) !! p))
             || bool_decide (is_Some (w_dirs (env s) !! p))).

(** [os.umask(mask)] sets the mask and returns the one before. *)
Definition os_umask (mask : Z) : M Z := λ s, (Ok (w_umask (env s)), set_umask mask s).

(** [os.makedirs(d)]: creates [d] and the ancestors it lacks, with the bits
    [0o777] less the mask; the empty path and a path that exists are
    errors. *)
Definition os_makedirs (d : string) : M unit :=
  emit (Ev_makedirs d) ;;
  there ← os_path_exists d;
  if bool_decide (d = "") then raise (FileNotFoundError d)
  else if there then raise (FileExistsError d)
  else
    modify (λ s,
      set_dirs (foldr (λ a dirs, match dirs !! a with
                                 | Some _ => dirs
                                 | None => <[a := Z.ldiff 511 (w_umask (env s))]> dirs
                                 end)
                  (w_dirs (env s)) (d :: Path.ancestors d)) s).

Definition os_chmod (p : string) (mode : Z) : M unit :=
  emit (Ev_chmod p mode) ;;
  s ← gets id;
  match w_files (env s) !! p with
  | Some f => modify (set_files (<[p := File (f_data f) mode]> (w_files (env s))))
  | None =>
      match w_dirs (env s) !! p with
      | Some _ => modify (set_dirs (<[p := mode]> (w_dirs (env s))))
      | None => raise (FileNotFoundError p)
      end
  end.

Definition os_remove (p : string) : M unit :=
  emit (Ev_remove p) ;;
  s ← gets id;
  match w_files (env s) !! p with
  | Some _ => modify (set_files (delete p (w_files (env s))))
  | None => raise (FileNotFoundError p)
  end.

(** Can a file be created or opened for writing at [p]?  Its directory must
    exist (the empty directory part stands for the current directory) and
    [p] must not be a directory. *)
Definition writable_place (w : world) (p : string) : bool :=
  negb (bool_decide (is_Some (w_dirs w !! p)))
  && (bool_decide (Path.dirname p = "")
      || bool_decide (is_Some (w_dirs w !! Path.dirname p))).

(** [shutil.copy2(src, dst)]: content and permission bits of [src] become
    those of [dst]. *)
Definition shutil_copy2 (src dst : string) : M unit :=
  emit (Ev_copy2 src dst) ;;
  s ← gets id;
  if w_copy_fault (env s) then raise (OSError "Input/output error")
  else
    match w_files (env s) !! src with
    | None => raise (FileNotFoundError src)
    | Some f =>
        if writable_place (env s) dst
        then modify (set_files (<[dst := f]> (w_files (env s))))
        else raise (FileNotFoundError dst)
    end.

(** The order of [filenames.sort(reverse=True)]: greatest name first. *)
Definition newest_first (a b : string) : Prop := String.le b a.

Global Instance newest_first_dec : RelDecision newest_first.
Proof. intros a b. unfold newest_first. apply _. Defined.

(** [glob.glob(f"{directory}/{basename}.*{suffix}")] over the files of the
    world, then [filenames.sort(reverse=True)]. *)
Definition glob_star (prefix suffix : string) (w : world) : list string :=
  filter (λ p, Path.star_match prefix suffix p = true) (elements (dom (w_files w))).

Definition sort_reverse (l : list string) : list string := merge_sort newest_first l.

(** ** The engine's connection and cursor *)

(** [aiosqlite.connect(p)]: opens the file, creating an empty one (bits
    [0o644] less the mask) where there is none. *)
Definition aiosqlite_connect (p : string) : M sqlite_connection :=
  emit (Ev_connect p) ;;
  s ← gets id;
  match w_files (env s) !! p with
  | Some f => ret (Connection p (f_data f) false false [] [] 0)
  | None =>
      if writable_place (env s) p
      then modify (set_files (<[p := File ∅ (Z.ldiff 420 (w_umask (env s)))]>
                                (w_files (env s)))) ;;
           ret (Connection p ∅ false false [] [] 0)
      else raise (OperationalError "unable to open database file")
  end.

(** [self.__connection], on which a method named [attr] is about to be
    called. *)
Definition the_connection (attr : string) : M sqlite_connection :=
  c ← gets (λ s, connection (self s));
  match c with
  | Some c => ret c
  | None => raise (AttributeError
                     ("'NoneType' object has no attribute '" +:+ attr +:+ "'"))
  end.

(** Writes the connection's view of the database to its file. *)
Definition flush (c : sqlite_connection) (s : state) : state :=
  set_files (<[c_path c :=
                 File (c_work c)
                   (default (Z.ldiff 420 (w_umask (env s)))
                      (f_mode <$> w_files (env s) !! c_path c))]> (w_files (env s))) s.

(** One statement run on the connection.  A data statement opens a
    transaction; outside a transaction a statement that writes takes effect
    on the file at once; a SELECT changes nothing. *)
Definition run_statement (attr : string) (q : statement) (params : list value) : M reply :=
  c ← the_connection attr;
  match engine_run (c_work c) q params with
  | Raise e => raise e
  | Ok r =>
      match q with
      | Select_from _ _ => ret r
      | _ =>
          let c' := Connection (c_path c) (r_db r) (c_in_transaction c || is_dml q)
                      (c_row_factory c) (c_functions c) (c_cursors c) (c_cursor_seq c) in
          modify (λ s, let s' := set_connection (Some c') s in
                       if c_in_transaction c' then s' else flush c' s') ;;
          ret r
      end
  end.

Definition connection_execute (q : statement) (params : list value) : M reply :=
  run_statement "execute" q params.

(** [connection.executemany(sql, rows)]: the statement once per row, in
    order, stopping at the first error. *)
Definition connection_executemany (q : statement) (rows : list (list value)) : M unit :=
  _ ← the_connection "executemany";
  if is_dml q
  then for_each rows (λ r, run_statement "executemany" q r ;; ret tt)
  else raise (ProgrammingError "executemany() can only execute DML statements.").

Definition connection_commit : M unit :=
  c ← the_connection "commit";
  let c' := Connection (c_path c) (c_work c) false
              (c_row_factory c) (c_functions c) (c_cursors c) (c_cursor_seq c) in
  modify (λ s, flush c' (set_connection (Some c') s)).

(** [connection.close()]: what was not committed is lost. *)
Definition connection_close : M unit :=
  c ← the_connection "close";
  emit (Ev_close (c_path c)).

Definition connection_create_function (fname : string) (arity : nat) : M unit :=
  c ← the_connection "create_function";
  modify (set_connection
            (Some (Connection (c_path c) (c_work c) (c_in_transaction c)
                     (c_row_factory c) ((fname, arity) :: c_functions c)
                     (c_cursors c) (c_cursor_seq c)))).

Definition set_row_factory : M unit :=
  c ← the_connection "row_factory";
  modify (set_connection
            (Some (Connection (c_path c) (c_work c) (c_in_transaction c)
                     true (c_functions c) (c_cursors c) (c_cursor_seq c)))).

(** [connection.cursor()]: a new open cursor. *)
Definition connection_cursor : M nat :=
  c ← the_connection "cursor";
  modify (set_connection
            (Some (Connection (c_path c) (c_work c) (c_in_transaction c)
                     (c_row_factory c) (c_functions c)
                     (c_cursors c ++ [c_cursor_seq c]) (S (c_cursor_seq c))))) ;;
  emit (Ev_cursor (c_cursor_seq c)) ;;
  ret (c_cursor_seq c).

Definition cursor_execute (q : statement) (params : list value) : M reply :=
  run_statement "execute" q params.

(** [cursor.close()] *)
Definition cursor_close (cursor : nat) : M unit :=
  c ← gets (λ s, connection (self s));
  match c with
  | Some c =>
      modify (set_connection
                (Some (Connection (c_path c) (c_work c) (c_in_transaction c)
                         (c_row_factory c) (c_functions c)
                         (filter (λ i, i ≠ cursor) (c_cursors c)) (c_cursor_seq c))))
  | None => ret tt
  end ;;
  emit (Ev_cursor_close cursor).

(** ** The clock and dls_utilpack *)

Definition datetime_now : M string := gets (λ s, w_now (env s)).

(** [dls_utilpack.explain(exception, activity)], the text that explains an
    exception caught during an activity.  The package is not part of this
    repository: the function is left open. *)
Class Explain := explain : exn → string → string.

(** Modelled from the spec: [dls_utilpack.require(what, dictionary, key)]
    returns [dictionary[key]] and raises a not-found error when the key is
    missing. *)
Definition require {V : Type} (what : string) (d : list (string * V)) (k : string) : M V :=
  match dict_get k d with
  | Some v => ret v
  | None => raise (NotFound (what +:+ " does not contain " +:+ k))
  end.

(** ** The methods of [Aiosqlite] *)

(** The [table] argument of the methods: a table name or a definition. *)
Inductive table_ref :=
| By_name (n : string)
| By_definition (t : TableDefinition).

(** "If table is a string, presume it's a table name." *)
Definition resolve_table (table : table_ref) : M TableDefinition :=
  match table with
  | By_name n => ts ← gets (λ s, tables (self s)); require "table definitions" ts n
  | By_definition t => ret t
  end.

Definition when (b : bool) (m : M unit) : M unit := if b then m else ret tt.

(** [Aiosqlite.__create_directory] *)
Definition create_directory (filename_ : string) : M unit :=
  let directory := (Path.split filename_).1 in
  there ← os_path_exists directory;
  if there then ret tt
  else
    umask ← os_umask 0;
    os_umask (Z.land umask (Z.lnot 511)) ;;
    os_makedirs directory ;;
    os_umask umask ;;
    ret tt.

(** [Aiosqlite.disconnect] *)
Definition disconnect : M unit :=
  c ← gets (λ s, connection (self s));
  match c with
  | Some _ => connection_close ;; modify (set_connection None)
  | None => ret tt
  end.

(** [Aiosqlite.add_table_definition] *)
Definition add_table_definition (table_definition : TableDefinition) : M unit :=
  modify (λ s, set_tables
                 (dict_set (name table_definition) table_definition (tables (self s))) s).

(** [Aiosqlite.add_table_definitions] *)
Definition add_table_definitions : M unit :=
  add_table_definition RevisionTableDefinition.

(** [Aiosqlite.create_table]: "Wipe and re-create the table in the
    database." *)
Definition create_table (table : table_ref) (should_commit : bool) : M unit :=
  table ← resolve_table table;
  connection_execute (Drop_table_if_exists (name table)) [] ;;
  let fields_sql := (λ f, (f.1, f_type f.2)) <$> fields table in
  let indices_sql :=
    (λ f, Create_index (name table) f.1)
      <$> filter (λ f, f_index f.2 = true) (fields table) in
  connection_execute (Create_table (name table) fields_sql) [] ;;
  for_each indices_sql (λ sql, connection_execute sql [] ;; ret tt) ;;
  when should_commit connection_commit.

(** [Aiosqlite.create_schemas] *)
Definition create_schemas (should_commit : bool) : M unit :=
  ts ← gets (λ s, tables (self s));
  for_each ts.*2 (λ table, create_table (By_definition table) false) ;;
  when should_commit connection_commit.

(** The text of the [RuntimeError] of [insert] and [update]. *)
Definition failed_to_execute (why : option string) (sql : statement) : string :=
  match why with
  | None => "failed to execute " +:+ sql_text sql
  | Some w => "failed to execute " +:+ w +:+ ": " +:+ sql_text sql
  end.

(** [except aiosqlite.OperationalError: raise RuntimeError(text)] *)
Definition on_operational_error {A : Type} (wrap : exn → string) (e : exn) : M A :=
  match e with
  | OperationalError _ => raise (RuntimeError (wrap e))
  | _ => raise e
  end.

(** The fields [insert] names in its statement: "The first row is expected
    to define the keys for all rows inserted." *)
Definition insertable_fields (table : TableDefinition) (row0 : gmap string value)
  : list string :=
  filter (λ field, is_Some (row0 !! field) ∨ field = CommonFieldnames.CREATED_ON)
    (fields table).*1.

(** The values [insert] binds for one row. *)
Definition values_row (table : TableDefinition) (now : string) (row : gmap string value)
  : list value :=
  omap (λ field,
          match row !! field with
          | Some v => Some v
          | None =>
              if bool_decide (field = CommonFieldnames.CREATED_ON)
              then Some (default (VStr now) (row !! field))
              else None
          end)
    (fields table).*1.

(** [Aiosqlite.insert] *)
Definition insert (table : table_ref) (rows : list (gmap string value))
  (why : option string) (should_commit : bool) : M unit :=
  match rows with
  | [] => ret tt
  | row0 :: _ =>
      table ← resolve_table table;
      now ← datetime_now;
      let values_rows := values_row table now <$> rows in
      let sql := Insert_into (name table) (insertable_fields table row0) in
      try_except
        (connection_executemany sql values_rows ;;
         when should_commit connection_commit)
        (on_operational_error (λ _, failed_to_execute why sql))
  end.

(** [Aiosqlite.update] *)
Definition update (table : table_ref) (row : gmap string value)
  (where_ : where_clause) (subs : option (list value)) (why : option string)
  (should_commit : bool) : M Z :=
  table ← resolve_table table;
  let set_fields :=
    filter (λ field, ¬ (field = CommonFieldnames.UUID ∨ field = CommonFieldnames.AUTOID)
                     ∧ is_Some (row !! field))
      (fields table).*1 in
  let values_row := omap (λ field, row !! field) set_fields in
  if bool_decide (length values_row = 0%nat)
  then raise (RuntimeError "no fields in record match database table")
  else
    let sql := Update_set (name table) set_fields where_ in
    let values_row := values_row ++ default [] subs in
    try_except
      (cursor ← connection_execute sql values_row;
       when should_commit connection_commit ;;
       ret (r_rowcount cursor))
      (on_operational_error (λ _, failed_to_execute why sql)).

(** One result row of [query] as an [OrderedDict]: [record[col] =
    row[index]] for the columns in order. *)
Fixpoint fill_record (cols : list string) (index : nat) (row : list value)
  (record : list (string * value)) : M (list (string * value)) :=
  match cols with
  | [] => ret record
  | col :: cols' =>
      v ← getitem row (Z.of_nat index);
      fill_record cols' (S index) row (dict_set col v record)
  end.

Fixpoint make_records (cols : list string) (rows : list (list value))
  : M (list (list (string * value))) :=
  match rows with
  | [] => ret []
  | row :: rows' =>
      record ← fill_record cols 0 row [];
      records ← make_records cols rows';
      ret (record :: records)
  end.

Definition executing (why : option string) (sql : statement) : string :=
  match why with
  | None => "executing " +:+ sql_text sql
  | Some w => "executing " +:+ w +:+ ": " +:+ sql_text sql
  end.

(** The listing both [backup] and [restore] start from: the names
    [{directory}/{basename}.*{suffix}], greatest first. *)
Definition snapshot_prefix (o : Aiosqlite) : string :=
  backup_directory o +:+ "/" +:+ (Path.splitext (Path.basename (filename o))).1 +:+ ".".
Definition snapshot_suffix (o : Aiosqlite) : string :=
  (Path.splitext (Path.basename (filename o))).2.

Definition listing (s : state) : list string :=
  sort_reverse (glob_star (snapshot_prefix (self s)) (snapshot_suffix (self s)) (env s)).

Definition snapshot_filenames : M (list string) := gets listing.

(** The text of the [RuntimeError] of a failed copy. *)
Definition copy_failed (src dst : string) : string :=
  "copy " +:+ src +:+ " to " +:+ dst +:+ " failed".

(** The text of the [RuntimeError] of [restore] on an index past the end. *)
Definition more_than_available (nth : Z) (available : nat) : string :=
  "restoration index " +:+ pretty nth +:+ " is more than available " +:+ pretty available.

Section Methods.
Context `{!Explain}.

(** The [except] clause of [query]. *)
Definition explained {A : Type} (why : option string) (sql : statement) : exn → M A :=
  on_operational_error (λ e, explain e (executing why sql)).

(** [Aiosqlite.query].  The local [cursor] is [None] until
    [connection.cursor()] has returned: an exception of that call goes
    through the [except] clause and finds nothing to close. *)
Definition query (sql : statement) (subs : list value) (why : option string)
  : M (list (list (string * value))) :=
  let handler {A : Type} := @explained A why sql in
  cursor ← try_except connection_cursor handler;
  try_finally
    (try_except
       (reply ← cursor_execute sql subs;
        match r_description reply with
        | None => raise (TypeError "'NoneType' object is not iterable")
        | Some cols => make_records cols (r_rows reply)
        end)
       handler)
    (cursor_close cursor).

(** [Aiosqlite.apply_revision] *)
Definition apply_revision (revision : Z) : M unit :=
  emit (Ev_log (Log_updating_to_revision revision)) ;;
  if bool_decide (revision = 1)
  then
    emit (Ev_log (Log_creating_table Tablenames.REVISION)) ;;
    create_table (By_name Tablenames.REVISION) true ;;
    insert (By_name Tablenames.REVISION) [{["revision" := VInt revision]}] None true
  else ret tt.

(** [Aiosqlite.connect], the branch of a file that was not there: the
    schemas, the revision record, the permission bits. *)
Definition connect_created (filename_ : string) : M unit :=
  create_schemas true ;;
  latest ← gets (λ s, LATEST_REVISION (self s));
  insert (By_name Tablenames.REVISION) [{["number" := VInt latest]}] None true ;;
  os_chmod filename_ 438.

(** [Aiosqlite.connect], the branch of a file that was there: the
    revision is read, 0 when that fails or finds no row, and the steps up
    to the latest revision are applied. *)
Definition connect_existing : M unit :=
  old_revision ←
    try_except
      (records ← query (Select_from ["number"] Tablenames.REVISION) []
                   (Some "get database revision");
       match records with
       | [] => ret (VInt 0)
       | record :: _ =>
           match dict_get "number" record with
           | Some v => ret v
           | None => raise (KeyError "number")
           end
       end)
      (λ _, ret (VInt 0));
  latest ← gets (λ s, LATEST_REVISION (self s));
  match old_revision with
  | VInt old =>
      if bool_decide (old < latest)
      then
        emit (Ev_log (Log_need_update old latest)) ;;
        for_each (seqZ old (latest - old))
          (λ revision,
             emit (Ev_log (Log_updating_to_revision (revision + 1))) ;;
             apply_revision (revision + 1)) ;;
        update (By_name Tablenames.REVISION) {["number" := VInt latest]}
          Where_all None (Some "update database revision") true ;;
        ret tt
      else ret tt
  | _ => raise (TypeError "'<' not supported between these instances")
  end.

(** [Aiosqlite.connect] *)
Definition connect : M unit :=
  filename_ ← gets (λ s, filename (self s));
  isfile ← os_path_isfile filename_;
  should_create_schemas ←
    (if isfile then ret false else create_directory filename_ ;; ret true);
  c ← aiosqlite_connect filename_;
  modify (set_connection (Some c)) ;;
  set_row_factory ;;
  connection_create_function "regexp" 2 ;;
  add_table_definitions ;;
  if should_create_schemas then connect_created filename_ else connect_existing.

(** [Aiosqlite.backup], first part: "Prune all the restores which were
    orphaned." *)
Definition backup_prune : M unit :=
  filenames ← snapshot_filenames;
  n ← gets (λ s, last_restore (self s));
  for_each (seqZ 0 n)
    (λ restore, f ← getitem filenames restore; os_remove f) ;;
  modify (set_last_restore 0).



(** [Aiosqlite.restore] *)
Definition restore (nth : Z) : M unit :=
  with_lock
    (filenames ← snapshot_filenames;
     if bool_decide (Z.of_nat (length filenames) ≤ nth)
     then raise (RuntimeError (more_than_available nth (length filenames)))
     else
       from_filename ← getitem filenames nth;
       filename_ ← gets (λ s, filename (self s));
       disconnect ;;
       try_finally
         (try_except
            (shutil_copy2 from_filename filename_)
            (λ _, raise (RuntimeError (copy_failed from_filename filename_))))
         connect ;;
       modify (set_last_restore nth)).

End Methods.

(** ** Notions the statements below use *)

Definition is_copy2 (e : event) : bool :=
  match e with Ev_copy2 _ _ => true | _ => false end.

(** The copies made so far, in order. *)
Definition copies (s : state) : list event :=
  filter (λ e, is_copy2 e = true) (w_trace (env s)).

(** The state [disconnect] leaves. *)
Definition disconnected (s : state) : state :=
  match connection (self s) with
  | Some c => set_connection None (record_event (Ev_close (c_path c)) s)
  | None => s
  end.

(** [shutil.copy2(src, dst)] raises in this world. *)
Definition copy_raises (w : world) (src dst : string) : Prop :=
  w_copy_fault w = true ∨ w_files w !! src = None ∨ writable_place w dst = false.


(** How [backup] and [restore] end once the copy has been tried and
    [connect] has run, whatever the copy did: [after] is what is left to do
    when both went well. *)
Definition finish_copy (after : state → state) (src dst : string)
  (copy : outcome unit) (reconnect : outcome unit * state) : outcome unit * state :=
  match reconnect.1, copy with
  | Raise e, _ => (Raise e, set_lock false reconnect.2)
  | Ok _, Raise _ => (Raise (RuntimeError (copy_failed src dst)), set_lock false reconnect.2)
  | Ok _, Ok _ => (Ok tt, set_lock false (after reconnect.2))
  end.

(** The state [backup] leaves when it has removed the files [l]. *)
Definition pruned (l : list string) (s : state) : state :=
  foldl (λ s f, set_files (delete f (w_files (env s))) (record_event (Ev_remove f) s)) s l.

(** The connection [c] with the database [db] in view. *)
Definition with_work (c : sqlite_connection) (db : gmap string table) (in_transaction : bool)
  : sqlite_connection :=
  Connection (c_path c) db in_transaction (c_row_factory c) (c_functions c)
    (c_cursors c) (c_cursor_seq c).

(** The state in which the connection [c] has the database [db] in view
    and on its file, no transaction open. *)
Definition commit_db (c : sqlite_connection) (db : gmap string table) (s : state) : state :=
  flush (with_work c db false) (set_connection (Some (with_work c db false)) s).

(** The table [create_table] makes of a definition: the columns, the index
    of every indexed field, no row. *)
Definition schema_of (t : TableDefinition) : table :=
  Table ((λ f, (f.1, f_type f.2)) <$> fields t)
    ((λ f, name t +:+ "_" +:+ f.1) <$> filter (λ f, f_index f.2 = true) (fields t))
    [].

(** The [OrderedDict] [query] makes of a result row. *)
Definition record_of (cols : list string) (row : list value) : list (string * value) :=
  foldl (λ record cv, dict_set cv.1 cv.2 record) [] (zip cols row).

(** An explanation function, for the examples. *)
Definition explain_plainly : Explain := λ e activity, activity.

(** ** Example states *)

(** A store at /data/main.sqlite with three snapshots, taken at t1, t2 and
    t3; the store and the snapshots are legacy stores with no table. *)
Definition example_world (copy_fault : bool) : world :=
  World
    {[ "/data/main.sqlite" := File ∅ 438;
       "/data/main.t1.sqlite" := File ∅ 438;
       "/data/main.t2.sqlite" := File ∅ 438;
       "/data/main.t3.sqlite" := File ∅ 438 ]}
    {[ "/data" := 493 ]} 18 "2024-05-01 10:00:00.000000" "t4" copy_fault [].

Definition example_store (last_restore_ : Z) : Aiosqlite :=
  {| filename := "/data/main.sqlite"; backup_directory := "/data";
     connection := None; tables := []; LATEST_REVISION := 1;
     backup_restore_lock := false; last_restore := last_restore_ |}.

Definition example_state (last_restore_ : Z) (copy_fault : bool) : state :=
  State (example_store last_restore_) (example_world copy_fault).

(** ** Notions used in the proofs *)

Definition keeps {B A : Type} (obs : state → B) (m : M A) : Prop :=
  ∀ s r s', m s = (r, s') → obs s' = obs s.

Definition raises {A : Type} (P : exn → Prop) (m : M A) : Prop :=
  ∀ s e s', m s = (Raise e, s') → P e.

(** The permission bits a flush leaves on the file at [p]. *)
Definition mode_at (s : state) (p : string) : Z :=
  default (Z.ldiff 420 (w_umask (env s))) (f_mode <$> w_files (env s) !! p).

(** The state [connection.cursor()] leaves, and the one [cursor.close()]
    leaves. *)
Definition cursor_opened (c : sqlite_connection) (s : state) : state :=
  record_event (Ev_cursor (c_cursor_seq c))
    (set_connection
       (Some (Connection (c_path c) (c_work c) (c_in_transaction c) (c_row_factory c)
                (c_functions c) (c_cursors c ++ [c_cursor_seq c]) (S (c_cursor_seq c))))
       s).

Definition cursor_closed (cursor : nat) (s : state) : state :=
  record_event (Ev_cursor_close cursor)
    match connection (self s) with
    | Some c =>
        set_connection
          (Some (Connection (c_path c) (c_work c) (c_in_transaction c) (c_row_factory c)
                   (c_functions c) (filter (λ i, i ≠ cursor) (c_cursors c))
                   (c_cursor_seq c))) s
    | None => s
    end.

(** What [query] ends with, by what the engine answers. *)
Definition query_outcome `{!Explain} (sql : statement) (why : option string)
  (answer : outcome reply) : outcome (list (list (string * value))) :=
  match answer with
  | Ok reply =>
      match r_description reply with
      | Some cols => Ok (record_of cols <$> r_rows reply)
      | None => Raise (TypeError "'NoneType' object is not iterable")
      end
  | Raise (OperationalError msg) =>
      Raise (RuntimeError (explain (OperationalError msg) (executing why sql)))
  | Raise e => Raise e
  end.

(** The revision table as [create_table] makes it, with the rows [rows]. *)
Definition revision_table (rows : list (list value)) : table :=
  Table [("created_on", "TEXT"); ("number", "INTEGER")] ["revision_created_on"] rows.



(** The connection [connect] has once the file is open, the row factory
    set and the pattern-match function registered. *)
Definition opened_connection (p : string) (db : gmap string table) : sqlite_connection :=
  Connection p db false true [("regexp", 2%nat)] [] 0.

(** The state [connect] is in when it comes to its two branches. *)
Definition opened (db : gmap string table) (s : state) : state :=
  set_tables (dict_set "revision" RevisionTableDefinition (tables (self s)))
    (set_connection (Some (opened_connection (filename (self s)) db))
       (record_event (Ev_connect (filename (self s))) s)).


(** The directories [os.makedirs(d)] leaves. *)
Definition made_dirs (mode : Z) (dirs : gmap string Z) (l : list string) : gmap string Z :=
  foldr (λ a dirs, match dirs !! a with
                   | Some _ => dirs
                   | None => <[a := mode]> dirs
                   end) dirs l.

(** The state [create_directory(p)] leaves: the directory of [p] is made,
    with all the permission bits, when nothing is there. *)
Definition with_directory (p : string) (s : state) : state :=
  let d := Path.dirname p in
  let missing := bool_decide (w_dirs (env s) !! d = None) in
  State (self s)
    (World (w_files (env s))
       (if missing then made_dirs 511 (w_dirs (env s)) (d :: Path.ancestors d)
        else w_dirs (env s))
       (w_umask (env s)) (w_now (env s)) (w_stamp (env s)) (w_copy_fault (env s))
       (w_trace (env s) ++ if missing then [Ev_makedirs d] else [])).

(** The table registry as a Python dict keeps it when it is filled through
    [add_table_definition]: each key once, each definition under its name;
    the fields of a definition are a dict too. *)
Definition registry_ok (ts : list (string * TableDefinition)) : Prop :=
  NoDup ts.*1 ∧ Forall (λ kt, kt.1 = name kt.2 ∧ NoDup (fields kt.2).*1) ts.

(** The database with the tables of the definitions [tds] created. *)
Definition created (tds : list TableDefinition) (db : gmap string table)
  : gmap string table :=
  foldl (λ db td, <[name td := schema_of td]> db) db tds.

(** A place where [connect] can create the store: nothing is at the path,
    the path names a file in a directory, and that directory is there or
    can be made. *)
Definition creatable (w : world) (p : string) : Prop :=
  w_files w !! p = None
  ∧ w_dirs w !! p = None
  ∧ Path.basename p ≠ ""
  ∧ Path.dirname p ≠ ""
  ∧ w_files w !! Path.dirname p = None.

(** The state [connect] is in when it comes to the branch of a file it has
    just created. *)
Definition opened_new (s : state) : state :=
  let s1 := with_directory (filename (self s)) s in
  set_tables (dict_set "revision" RevisionTableDefinition (tables (self s)))
    (set_connection (Some (opened_connection (filename (self s)) ∅))
       (set_files (<[filename (self s) := File ∅ (Z.ldiff 420 (w_umask (env s)))]>
                     (w_files (env s)))
          (record_event (Ev_connect (filename (self s))) s1))).

(** The example store connected, its revision table created and empty. *)
Definition example_open : state :=
  commit_db (opened_connection "/data/main.sqlite" ∅)
    {["revision" := revision_table []]}
    (opened ∅ (example_state 0 false)).

(** A world with the directory /data and no file. *)
Definition example_new : state :=
  State (init "/data/store/main.sqlite" None)
    (World ∅ {["/data" := 493]} 18 "2024-05-01 10:00:00.000000" "t1" false []).

(** ** Transactions and plain statements *)

(** [connection.in_transaction] *)
Definition connection_in_transaction : M bool :=
  c ← the_connection "in_transaction";
  ret (c_in_transaction c).

(** [connection.rollback()]: the changes not yet committed are dropped, and
    the connection sees the committed database again, the one on its file
    (a file removed under the open connection leaves the view as it is). *)
Definition connection_rollback : M unit :=
  c ← the_connection "rollback";
  modify (λ s,
    set_connection
      (Some (Connection (c_path c)
               (default (c_work c) (f_data <$> w_files (env s) !! c_path c))
               false (c_row_factory c) (c_functions c) (c_cursors c) (c_cursor_seq c)))
      s).

(** [Aiosqlite.commit]: "Commit transaction, if any outstanding." *)
Definition commit : M unit :=
  outstanding ← connection_in_transaction;
  when outstanding connection_commit.

(** [Aiosqlite.rollback]: "Roll back transaction, if any outstanding." *)
Definition rollback : M unit :=
  outstanding ← connection_in_transaction;
  when outstanding connection_rollback.

(** The [subs] argument of [execute]: nothing, the values of one statement,
    or a list of lists, "presumed the values for executemany". *)
Inductive subs_arg :=
| Subs_none
| Subs_values (values : list value)
| Subs_rows (rows : list (list value)).

(** [Aiosqlite.execute].  An empty list of rows is no list of lists: it goes
    to [connection.execute] as an empty list of values. *)
Definition execute (sql : statement) (subs : subs_arg) (why : option string)
  (should_commit : bool) : M unit :=
  try_except
    (match subs with
     | Subs_rows (row :: rows) => connection_executemany sql (row :: rows)
     | Subs_rows [] => connection_execute sql [] ;; ret tt
     | Subs_values values => connection_execute sql values ;; ret tt
     | Subs_none => connection_execute sql [] ;; ret tt
     end ;;
     when should_commit connection_commit)
    (on_operational_error (λ _, failed_to_execute why sql)).

(** The store is connected and nothing is pending: the connection's view of
    the database is the one on its file. *)
Definition in_step (s : state) (c : sqlite_connection) : Prop :=
  connection (self s) = Some c
  ∧ c_in_transaction c = false
  ∧ f_data <$> w_files (env s) !! c_path c = Some (c_work c).

(** The text of the [AttributeError] of a method called on [None]. *)
Definition no_attribute (attr : string) : exn :=
  AttributeError ("'NoneType' object has no attribute '" +:+ attr +:+ "'").

(** The fields [update] names in its statement: the fields of the table
    that are keys of the row, the identity fields left out. *)
Definition update_fields (table : TableDefinition) (row : gmap string value) : list string :=
  filter (λ field, ¬ (field = CommonFieldnames.UUID ∨ field = CommonFieldnames.AUTOID)
                   ∧ is_Some (row !! field))
    (fields table).*1.

(** The values [execute] hands to the first run of its statement. *)
Definition first_values (subs : subs_arg) : list value :=
  match subs with
  | Subs_none | Subs_rows [] => []
  | Subs_values values => values
  | Subs_rows (row :: _) => row
  end.


(** The table after the statement [INSERT INTO ... (fs) VALUES (?, ...)]
    has run once for each list of values: one more row for each, with the
    values under the columns [fs] and NULL under the others. *)
Definition inserted (fs : list string) (tb : table) (values : list (list value)) : table :=
  Table (t_columns tb) (t_indices tb)
    (t_rows tb ++ ((λ params, cell fs params <$> column_names tb) <$> values)).





(** The state [s1] is [s] with, at most, changes of the connection [c] of
    [s] that are not committed. *)
Definition pending (c : sqlite_connection) (s s1 : state) : Prop :=
  s1 = s ∨ ∃ db, s1 = set_connection (Some (with_work c db true)) s.

(** ** Notions on [connect] *)

(** The revision [connect] reads from a database: the number in the first
    row of the revision table; 0 when the table, its number column or the
    row is not there. *)
Definition stored_revision (db : gmap string table) : value :=
  match db !! "revision" with
  | Some tb =>
      if has_key "number" (column_names tb)
      then match t_rows tb with
           | [] => VInt 0
           | row :: _ => cell (column_names tb) row "number"
           end
      else VInt 0
  | None => VInt 0
  end.

(** The state [connect] leaves on a file that needs no migration: the
    connection opened on the database [db], and the cursor of the revision
    query opened and closed. *)
Definition opened_settled (db : gmap string table) (s : state) : state :=
  cursor_closed 0 (cursor_opened (opened_connection (filename (self s)) db) (opened db s)).

(** The example store at revision 1, not connected: its file holds the
    revision table with one row; the three snapshots are legacy stores. *)
Definition example_current : state :=
  State (example_store 0)
    (World
       (<["/data/main.sqlite" :=
            File {["revision" :=
                     revision_table [[VStr "2024-04-01 09:00:00.000000"; VInt 1]]]} 438]>
          (w_files (example_world false)))
       {[ "/data" := 493 ]} 18 "2024-05-01 10:00:00.000000" "t4" false []).

(** ** Notions on [backup] and [restore] *)




(** A store file that needs no migration. *)
Definition settled (latest : Z) (f : file) : Prop :=
  ∃ n, stored_revision (f_data f) = VInt n ∧ latest ≤ n.

(** The state [s2] is [s1] but for the live file, whose content may have
    changed, and for the connection, the lock and the trace. *)
Definition live_changed (s1 s2 : state) : Prop :=
  filename (self s2) = filename (self s1)
  ∧ backup_directory (self s2) = backup_directory (self s1)
  ∧ LATEST_REVISION (self s2) = LATEST_REVISION (self s1)
  ∧ (∀ p, p ≠ filename (self s1) → w_files (env s2) !! p = w_files (env s1) !! p)
  ∧ w_dirs (env s2) = w_dirs (env s1)
  ∧ w_copy_fault (env s2) = w_copy_fault (env s1).

(** A store file at revision 1 whose revision row was created at
    [created]. *)
Definition example_file (created : string) : file :=
  File {["revision" := revision_table [[VStr created; VInt 1]]]} 438.

(** The example store with its file and its three snapshots at revision 1,
    not connected. *)
Definition example_archive (last_restore_ : Z) : state :=
  State (example_store last_restore_)
    (World
       {[ "/data/main.sqlite" := example_file "live";
          "/data/main.t1.sqlite" := example_file "first";
          "/data/main.t2.sqlite" := example_file "second";
          "/data/main.t3.sqlite" := example_file "third" ]}
       {[ "/data" := 493 ]} 18 "2024-05-01 10:00:00.000000" "t4" false []).

(** ** What the data operations leave alone *)

(** The connection of the store, when there is one, is on the store's
    file. *)
Definition on_own_file (s : state) : Prop :=
  ∀ c, connection (self s) = Some c → c_path c = filename (self s).

(** From [s] to [s'] nothing has changed but the content of the store's
    file, the connection, which is still on that file when it was, and
    the trace. *)
Definition stays (s s' : state) : Prop :=
  on_own_file s →
  on_own_file s'
  ∧ filename (self s') = filename (self s)
  ∧ backup_directory (self s') = backup_directory (self s)
  ∧ LATEST_REVISION (self s') = LATEST_REVISION (self s)
  ∧ last_restore (self s') = last_restore (self s)
  ∧ backup_restore_lock (self s') = backup_restore_lock (self s)
  ∧ tables (self s') = tables (self s)
  ∧ (∀ p, p ≠ filename (self s) → w_files (env s') !! p = w_files (env s) !! p)
  ∧ w_dirs (env s') = w_dirs (env s)
  ∧ w_umask (env s') = w_umask (env s)
  ∧ w_copy_fault (env s') = w_copy_fault (env s)
  ∧ w_stamp (env s') = w_stamp (env s).

(** An operation that, however it ends, leaves all that alone. *)
Definition quiet {A : Type} (m : M A) : Prop :=
  ∀ s r s', m s = (r, s') → stays s s'.

(** * Properties *)

(** ** Paths, on examples *)

Example split_ex1 : Path.split "/data/store/main.sqlite" = ("/data/store", "main.sqlite").
Proof. reflexivity. Qed.
Example split_ex2 : Path.split "main.sqlite" = ("", "main.sqlite").
Proof. reflexivity. Qed.
Example split_ex3 : Path.split "/main.sqlite" = ("/", "main.sqlite").
Proof. reflexivity. Qed.
Example splitext_ex1 : Path.splitext "main.sqlite" = ("main", ".sqlite").
Proof. reflexivity. Qed.
Example splitext_ex2 : Path.splitext ".hidden" = (".hidden", "").
Proof. reflexivity. Qed.
Example splitext_ex3 : Path.splitext "a.b.c" = ("a.b", ".c").
Proof. reflexivity. Qed.
Example ancestors_ex : Path.ancestors "/a/b/c" = ["/a"; "/a/b"].
Proof. reflexivity. Qed.
Example star_match_ex1 :
  Path.star_match "/d/main." ".sqlite" "/d/main.2024.sqlite" = true.
Proof. reflexivity. Qed.
Example star_match_ex2 :
  Path.star_match "/d/main." ".sqlite" "/d/main.sqlite" = false.
Proof. reflexivity. Qed.

(** ** The monad *)

Lemma bind_ok {A B : Type} (m : M A) (f : A → M B) s a s' :
  m s = (Ok a, s') → bind m f s = f a s'.
Proof. intros H. unfold bind. by rewrite H. Qed.

Lemma bind_raise {A B : Type} (m : M A) (f : A → M B) s e s' :
  m s = (Raise e, s') → bind m f s = (Raise e, s').
Proof. intros H. unfold bind. by rewrite H. Qed.

Lemma for_each_app {A : Type} (l1 l2 : list A) (body : A → M unit) s :
  for_each (l1 ++ l2) body s = (for_each l1 body ;; for_each l2 body) s.
Proof.
  revert s. induction l1 as [|x l1 IH]; intros s; simpl; [done|].
  unfold bind in *. destruct (body x s) as [[[]|e] s1]; [|done].
  apply IH.
Qed.

(** ** Strings *)

Lemma eqb_eq_dec (a b : string) : String.eqb a b = bool_decide (a = b).
Proof.
  destruct (String.eqb_spec a b);
    [by rewrite bool_decide_eq_true_2|by rewrite bool_decide_eq_false_2].
Qed.

(** ** Ordered dictionaries *)

Lemma dict_get_set_eq {V : Type} k (v : V) d : dict_get k (dict_set k v d) = Some v.
Proof.
  induction d as [|[k' v'] d IH]; simpl.
  - by rewrite String.eqb_refl.
  - destruct (String.eqb k' k) eqn:E; simpl.
    + by rewrite String.eqb_refl.
    + by rewrite E.
Qed.

Lemma dict_get_set_ne {V : Type} k k' (v : V) d :
  k ≠ k' → dict_get k' (dict_set k v d) = dict_get k' d.
Proof.
  intros Hne. induction d as [|[k0 v0] d IH]; simpl.
  - destruct (String.eqb_spec k k'); congruence.
  - destruct (String.eqb_spec k0 k) as [->|]; simpl.
    + destruct (String.eqb_spec k k'); congruence.
    + by rewrite IH.
Qed.

(** ** insert *)

Lemma insertable_fields_spec table row0 field :
  field ∈ insertable_fields table row0 ↔
  field ∈ (fields table).*1
  ∧ (is_Some (row0 !! field) ∨ field = CommonFieldnames.CREATED_ON).
Proof. unfold insertable_fields. rewrite list_elem_of_filter. tauto. Qed.

Lemma values_row_insertable table now row :
  values_row table now row
  = (λ field, default (VStr now) (row !! field)) <$> insertable_fields table row.
Proof.
  unfold values_row, insertable_fields.
  induction ((fields table).*1) as [|f l IH]; [done|].
  simpl. rewrite filter_cons.
  destruct (row !! f) as [v|] eqn:E.
  - rewrite decide_True by eauto. simpl. rewrite E. simpl. f_equal. exact IH.
  - case_bool_decide as Hf.
    + rewrite decide_True by eauto. simpl. rewrite E. simpl. f_equal. exact IH.
    + rewrite decide_False; [exact IH|]. intros [[? ?]|?]; done.
Qed.

Lemma insertable_fields_ignore table row k v :
  k ∉ (fields table).*1 →
  insertable_fields table (<[k := v]> row) = insertable_fields table row.
Proof.
  unfold insertable_fields. intros Hk.
  induction ((fields table).*1) as [|f l IH]; [done|].
  apply not_elem_of_cons in Hk as [Hkf Hk].
  rewrite !filter_cons, lookup_insert_ne, IH by done. done.
Qed.

Lemma values_row_ignore table now row k v :
  k ∉ (fields table).*1 →
  values_row table now (<[k := v]> row) = values_row table now row.
Proof.
  unfold values_row. intros Hk.
  induction ((fields table).*1) as [|f l IH]; [done|].
  apply not_elem_of_cons in Hk as [Hkf Hk].
  simpl. rewrite lookup_insert_ne by done. destruct (row !! f); [f_equal|]; auto.
  case_bool_decide; [f_equal|]; auto.
Qed.

(** ** What an operation leaves unchanged

    [keeps obs m]: whatever way [m] ends, the observation [obs] of the state
    is the one before. *)

Section keeps_rules.
Context {B : Type} (obs : state → B).

Lemma keeps_ret {A} (a : A) : keeps obs (ret a).
Proof. intros s r s' [= <- <-]. done. Qed.

Lemma keeps_raise {A} e : keeps obs (@raise A e).
Proof. intros s r s' [= <- <-]. done. Qed.

Lemma keeps_gets {A} (f : state → A) : keeps obs (gets f).
Proof. intros s r s' [= <- <-]. done. Qed.

Lemma keeps_modify f : (∀ s, obs (f s) = obs s) → keeps obs (modify f).
Proof. intros Hf s r s' [= <- <-]. apply Hf. Qed.

Lemma keeps_bind {A C} (m : M A) (f : A → M C) :
  keeps obs m → (∀ a, keeps obs (f a)) → keeps obs (bind m f).
Proof.
  intros Hm Hf s r s'. unfold bind.
  destruct (m s) as [[a|e] s1] eqn:E.
  - intros Hfa. rewrite (Hf _ _ _ _ Hfa). eapply Hm, E.
  - intros [= <- <-]. eapply Hm, E.
Qed.

Lemma keeps_try_except {A} (body : M A) handler :
  keeps obs body → (∀ e, keeps obs (handler e)) → keeps obs (try_except body handler).
Proof.
  intros Hm Hf s r s'. unfold try_except.
  destruct (body s) as [[a|e] s1] eqn:E.
  - intros [= <- <-]. eapply Hm, E.
  - intros Hfa. rewrite (Hf _ _ _ _ Hfa). eapply Hm, E.
Qed.

Lemma keeps_try_finally {A} (body : M A) final :
  keeps obs body → keeps obs final → keeps obs (try_finally body final).
Proof.
  intros Hm Hf s r s'. unfold try_finally.
  destruct (body s) as [r1 s1] eqn:E.
  destruct (final s1) as [[[]|e] s2] eqn:E2; intros [= <- <-];
    rewrite (Hf _ _ _ E2); eapply Hm, E.
Qed.

Lemma keeps_for_each {A} (l : list A) body :
  (∀ x, keeps obs (body x)) → keeps obs (for_each l body).
Proof.
  intros Hb. induction l as [|x l IH]; simpl.
  - apply keeps_ret.
  - apply keeps_bind; auto.
Qed.

Lemma keeps_when b m : keeps obs m → keeps obs (when b m).
Proof. destruct b; simpl; auto using keeps_ret. Qed.

Lemma keeps_getitem {A} (l : list A) i : keeps obs (getitem l i).
Proof.
  unfold getitem. destruct (py_index l i); auto using keeps_ret, keeps_raise.
Qed.

Lemma keeps_require {V} what (d : list (string * V)) k : keeps obs (require what d k).
Proof. unfold require. destruct (dict_get k d); auto using keeps_ret, keeps_raise. Qed.

Lemma keeps_on_operational_error {A} wrap e :
  keeps obs (@on_operational_error A wrap e).
Proof. destruct e; simpl; apply keeps_raise. Qed.

Lemma keeps_fill_record cols index row record :
  keeps obs (fill_record cols index row record).
Proof.
  revert index record. induction cols as [|c cols IH]; intros; simpl.
  - apply keeps_ret.
  - apply keeps_bind; auto using keeps_getitem.
Qed.

Lemma keeps_make_records cols rows : keeps obs (make_records cols rows).
Proof.
  induction rows as [|r rows IH]; simpl.
  - apply keeps_ret.
  - apply keeps_bind; [apply keeps_fill_record|]. intros.
    apply keeps_bind; [apply IH|]. intros. apply keeps_ret.
Qed.
End keeps_rules.

Create HintDb keeps discriminated.
#[export] Hint Resolve keeps_ret keeps_raise keeps_gets keeps_bind keeps_try_except
  keeps_try_finally keeps_for_each keeps_when keeps_getitem keeps_require
  keeps_on_operational_error keeps_make_records : keeps.

(** Observations that the file system, the table registry, the lock, the
    events other than copies and the state of the open connection (all but
    the file it is on) cannot change: the row operations keep them. *)
Section keeps_rows.
Context `{!Explain} {B : Type} (obs : state → B).
Hypothesis obs_same_path :
  ∀ c c' s, connection (self s) = Some c → c_path c' = c_path c →
            obs (set_connection (Some c') s) = obs s.
Hypothesis obs_tables : ∀ t s, obs (set_tables t s) = obs s.
Hypothesis obs_files : ∀ f s, obs (set_files f s) = obs s.
Hypothesis obs_dirs : ∀ d s, obs (set_dirs d s) = obs s.
Hypothesis obs_umask : ∀ m s, obs (set_umask m s) = obs s.
Hypothesis obs_event :
  ∀ e s, (∀ a b, e ≠ Ev_copy2 a b) → obs (record_event e s) = obs s.

Local Hint Resolve keeps_modify : keeps.

Lemma keeps_emit e : (∀ a b, e ≠ Ev_copy2 a b) → keeps obs (emit e).
Proof. intros He. apply keeps_modify. intros s. by apply obs_event. Qed.

Ltac keeps_step :=
  lazymatch goal with
  | |- keeps _ (bind _ _) => apply keeps_bind; [|intros]
  | |- keeps _ (try_except _ _) => apply keeps_try_except; [|intros]
  | |- keeps _ (try_finally _ _) => apply keeps_try_finally
  | |- keeps _ (for_each _ _) => apply keeps_for_each; intros
  | |- keeps _ (when _ _) => apply keeps_when
  | |- keeps _ (emit _) => apply keeps_emit; done
  | |- keeps _ (modify _) => apply keeps_modify; intros; simpl; done
  | |- keeps _ _ => solve [eauto with keeps]
  end.
Ltac keeps_go := repeat keeps_step.

Lemma keeps_the_connection attr : keeps obs (the_connection attr).
Proof.
  unfold the_connection. keeps_go. destruct a; keeps_go.
Qed.
Local Hint Resolve keeps_the_connection : keeps.

Lemma obs_flush c s : obs (flush c s) = obs s.
Proof. unfold flush. apply obs_files. Qed.

(** An operation that reads the open connection and then puts one on the
    same file in its place. *)
Lemma keeps_on_connection {A} attr (k : sqlite_connection → M A) :
  (∀ c s r s', connection (self s) = Some c → k c s = (r, s') → obs s' = obs s) →
  keeps obs (c ← the_connection attr; k c).
Proof.
  intros Hk s r s'. unfold the_connection, bind, gets, ret, raise.
  destruct (connection (self s)) as [c|] eqn:Hc; simpl.
  - by apply Hk.
  - by intros [= <- <-].
Qed.

Lemma keeps_run_statement attr q params : keeps obs (run_statement attr q params).
Proof.
  apply keeps_on_connection. intros c s r s' Hc.
  destruct (engine_run _ _ _); [|by intros [= <- <-]].
  destruct q; unfold bind, modify, ret; simpl; intros [= <- <-]; try done;
    destruct (c_in_transaction c || _);
    rewrite ?obs_flush; by eapply obs_same_path.
Qed.
Local Hint Resolve keeps_run_statement : keeps.

Lemma keeps_connection_executemany q rows : keeps obs (connection_executemany q rows).
Proof. unfold connection_executemany. keeps_go. destruct (is_dml q); keeps_go. Qed.

Lemma keeps_connection_commit : keeps obs connection_commit.
Proof.
  apply keeps_on_connection. intros c s r s' Hc [= <- <-].
  rewrite obs_flush. by eapply obs_same_path.
Qed.

Lemma keeps_connection_cursor : keeps obs connection_cursor.
Proof.
  apply keeps_on_connection. intros c s r s' Hc.
  unfold bind, modify, emit, ret; simpl. intros [= <- <-].
  rewrite obs_event by done. by eapply obs_same_path.
Qed.

Lemma keeps_cursor_close cursor : keeps obs (cursor_close cursor).
Proof.
  intros s r s'. unfold cursor_close, bind, gets, modify, emit, ret; simpl.
  destruct (connection (self s)) as [c|] eqn:Hc; intros [= <- <-];
    rewrite obs_event by done; [by eapply obs_same_path|done].
Qed.

Lemma keeps_connection_create_function fname arity :
  keeps obs (connection_create_function fname arity).
Proof.
  apply keeps_on_connection. intros c s r s' Hc [= <- <-]. by eapply obs_same_path.
Qed.

Lemma keeps_set_row_factory : keeps obs set_row_factory.
Proof.
  apply keeps_on_connection. intros c s r s' Hc [= <- <-]. by eapply obs_same_path.
Qed.

Local Hint Resolve keeps_connection_executemany keeps_connection_commit
  keeps_connection_cursor keeps_cursor_close : keeps.
Local Hint Extern 1 (keeps _ (connection_execute _ _)) =>
  unfold connection_execute : keeps.
Local Hint Extern 1 (keeps _ (cursor_execute _ _)) =>
  unfold cursor_execute : keeps.

Lemma keeps_resolve_table table : keeps obs (resolve_table table).
Proof. destruct table; simpl; keeps_go. Qed.
Local Hint Resolve keeps_resolve_table : keeps.

Lemma keeps_create_table table should_commit :
  keeps obs (create_table table should_commit).
Proof. unfold create_table. keeps_go. Qed.
Local Hint Resolve keeps_create_table : keeps.

Lemma keeps_create_schemas should_commit : keeps obs (create_schemas should_commit).
Proof. unfold create_schemas. keeps_go. Qed.

Lemma keeps_insert table rows why should_commit :
  keeps obs (insert table rows why should_commit).
Proof. unfold insert. destruct rows; keeps_go. Qed.

Lemma keeps_update table row where_ subs why should_commit :
  keeps obs (update table row where_ subs why should_commit).
Proof. unfold update. keeps_go. case_bool_decide; keeps_go. Qed.

Lemma keeps_query sql subs why : keeps obs (query sql subs why).
Proof.
  unfold query, explained. keeps_go.
  destruct (r_description _); keeps_go.
Qed.
Local Hint Resolve keeps_create_schemas keeps_insert keeps_update keeps_query : keeps.

Lemma keeps_apply_revision revision : keeps obs (apply_revision revision).
Proof. unfold apply_revision. keeps_go. case_bool_decide; keeps_go. Qed.
Local Hint Resolve keeps_apply_revision : keeps.

Lemma keeps_os_path_exists p : keeps obs (os_path_exists p).
Proof. unfold os_path_exists. keeps_go. Qed.
Local Hint Resolve keeps_os_path_exists : keeps.

Lemma keeps_os_makedirs d : keeps obs (os_makedirs d).
Proof.
  unfold os_makedirs. keeps_go. case_bool_decide; keeps_go.
  destruct a0; keeps_go.
Qed.

Lemma keeps_os_umask m : keeps obs (os_umask m).
Proof. intros s r s' [= <- <-]. apply obs_umask. Qed.
Local Hint Resolve keeps_os_makedirs keeps_os_umask : keeps.

Lemma keeps_create_directory p : keeps obs (create_directory p).
Proof. unfold create_directory. keeps_go. destruct a; keeps_go. Qed.

Lemma keeps_os_chmod p mode : keeps obs (os_chmod p mode).
Proof.
  unfold os_chmod. keeps_go.
  destruct (w_files _ !! p); [keeps_go|]. destruct (w_dirs _ !! p); keeps_go.
Qed.

Lemma keeps_aiosqlite_connect p : keeps obs (aiosqlite_connect p).
Proof.
  unfold aiosqlite_connect. keeps_go.
  destruct (w_files _ !! p); [keeps_go|]. destruct (writable_place _ _); keeps_go.
Qed.
Local Hint Resolve keeps_create_directory keeps_os_chmod keeps_aiosqlite_connect : keeps.

Lemma keeps_connect_created filename_ : keeps obs (connect_created filename_).
Proof. unfold connect_created. keeps_go. Qed.

Lemma keeps_connect_existing : keeps obs connect_existing.
Proof.
  unfold connect_existing. keeps_go.
  - match goal with |- keeps _ (match ?l with [] => _ | _ => _ end) =>
      destruct l end; keeps_go.
    destruct (dict_get _ _); keeps_go.
  - match goal with |- keeps _ (match ?v with VInt _ => _ | _ => _ end) =>
      destruct v end; keeps_go.
    case_bool_decide; keeps_go.
Qed.

(** What follows the opening of the connection in [connect]. *)
Lemma keeps_connect_rest filename_ (should_create_schemas : bool) :
  keeps obs
    (set_row_factory ;;
     connection_create_function "regexp" 2 ;;
     add_table_definitions ;;
     if should_create_schemas then connect_created filename_ else connect_existing).
Proof.
  pose proof keeps_set_row_factory. pose proof keeps_connection_create_function.
  pose proof keeps_connect_created. pose proof keeps_connect_existing.
  unfold add_table_definitions, add_table_definition.
  keeps_go. destruct should_create_schemas; keeps_go.
Qed.
End keeps_rows.

(** Observations that, besides, do not depend on the connection at all:
    [connect] and [disconnect] keep them too. *)
Section keeps_methods.
Context `{!Explain} {B : Type} (obs : state → B).
Hypothesis obs_connection : ∀ c s, obs (set_connection c s) = obs s.
Hypothesis obs_tables : ∀ t s, obs (set_tables t s) = obs s.
Hypothesis obs_files : ∀ f s, obs (set_files f s) = obs s.
Hypothesis obs_dirs : ∀ d s, obs (set_dirs d s) = obs s.
Hypothesis obs_umask : ∀ m s, obs (set_umask m s) = obs s.
Hypothesis obs_event :
  ∀ e s, (∀ a b, e ≠ Ev_copy2 a b) → obs (record_event e s) = obs s.

Lemma keeps_disconnect : keeps obs disconnect.
Proof.
  intros s r s'. unfold disconnect, connection_close, the_connection, emit,
    bind, gets, modify, ret, raise; simpl.
  destruct (connection (self s)) as [c|] eqn:Hc; simpl; rewrite ?Hc; simpl;
    intros [= <- <-]; [|done].
  by rewrite obs_connection, obs_event.
Qed.

Lemma keeps_connect : keeps obs connect.
Proof.
  unfold connect, os_path_isfile.
  apply keeps_bind; [apply keeps_gets|intros filename_].
  apply keeps_bind; [apply keeps_gets|intros isfile].
  apply keeps_bind.
  { destruct isfile; [apply keeps_ret|].
    apply keeps_bind; [|intros; apply keeps_ret].
    by apply keeps_create_directory. }
  intros should_create_schemas.
  apply keeps_bind; [by apply keeps_aiosqlite_connect|intros c].
  apply keeps_bind; [by apply keeps_modify|intros _].
  apply keeps_connect_rest; auto.
Qed.
End keeps_methods.

#[global] Arguments writable_place : simpl never.
#[global] Arguments Path.split : simpl never.
#[global] Arguments Path.dirname : simpl never.
#[global] Arguments Path.basename : simpl never.
#[global] Arguments Path.splitext : simpl never.
#[global] Arguments Path.star_match : simpl never.
#[global] Arguments listing : simpl never.
#[global] Arguments glob_star : simpl never.
#[global] Arguments sort_reverse : simpl never.
#[global] Arguments snapshot_prefix : simpl never.
#[global] Arguments snapshot_suffix : simpl never.
#[global] Arguments engine_run : simpl never.
#[global] Arguments sql_text : simpl never.
#[global] Arguments copy_failed : simpl never.
#[global] Arguments more_than_available : simpl never.
#[global] Arguments failed_to_execute : simpl never.
#[global] Arguments executing : simpl never.

(** ** The snapshot listing *)

Global Instance newest_first_trans : Transitive newest_first.
Proof. intros a b c Hab Hbc. unfold newest_first in *. by etrans. Qed.

Global Instance newest_first_total : Total newest_first.
Proof. intros a b. unfold newest_first. destruct (total String.le b a); auto. Qed.

Lemma listing_sorted s : StronglySorted newest_first (listing s).
Proof. apply StronglySorted_merge_sort; apply _. Qed.

Lemma listing_perm s :
  listing s ≡ₚ glob_star (snapshot_prefix (self s)) (snapshot_suffix (self s)) (env s).
Proof. apply merge_sort_Permutation. Qed.

Lemma listing_NoDup s : NoDup (listing s).
Proof.
  rewrite listing_perm. unfold glob_star. apply NoDup_filter, NoDup_elements.
Qed.

Lemma listing_elem s f :
  f ∈ listing s ↔
  is_Some (w_files (env s) !! f)
  ∧ Path.star_match (snapshot_prefix (self s)) (snapshot_suffix (self s)) f = true.
Proof.
  rewrite listing_perm. unfold glob_star.
  rewrite list_elem_of_filter, elem_of_elements, elem_of_dom. tauto.
Qed.




Lemma listing_set_lock b s : listing (set_lock b s) = listing s.
Proof. done. Qed.

(** ** Indexing *)

Lemma py_index_nonneg {A} (l : list A) i :
  0 ≤ i → py_index l i = l !! Z.to_nat i.
Proof.
  intros Hi. unfold py_index. by rewrite !bool_decide_eq_true_2 by lia.
Qed.


Lemma py_index_elem {A} (l : list A) i x : py_index l i = Some x → x ∈ l.
Proof.
  unfold py_index. case_bool_decide; [|done]. apply list_elem_of_lookup_2.
Qed.

Lemma py_index_in_range {A} (l : list A) i :
  - Z.of_nat (length l) ≤ i < Z.of_nat (length l) → is_Some (py_index l i).
Proof.
  intros Hi. unfold py_index. rewrite bool_decide_eq_true_2 by lia.
  apply lookup_lt_is_Some. case_bool_decide; lia.
Qed.

Lemma getitem_eq {A} (l : list A) i x s :
  py_index l i = Some x → getitem l i s = (Ok x, s).
Proof. intros Hx. unfold getitem. by rewrite Hx. Qed.

(** ** disconnect and the copy *)

Lemma disconnect_eq s : disconnect s = (Ok tt, disconnected s).
Proof.
  unfold disconnect, disconnected, connection_close, the_connection, emit,
    bind, gets, modify, ret, raise; simpl.
  destruct (connection (self s)) as [c|] eqn:Hc; simpl; by rewrite ?Hc.
Qed.

Lemma disconnected_env s :
  w_files (env (disconnected s)) = w_files (env s)
  ∧ w_dirs (env (disconnected s)) = w_dirs (env s)
  ∧ w_copy_fault (env (disconnected s)) = w_copy_fault (env s).
Proof. unfold disconnected. by destruct (connection (self s)). Qed.

Lemma shutil_copy2_raises src dst s :
  copy_raises (env s) src dst →
  ∃ e, shutil_copy2 src dst s = (Raise e, record_event (Ev_copy2 src dst) s).
Proof.
  unfold copy_raises, shutil_copy2, emit, bind, gets, modify, ret, raise; simpl.
  change (writable_place _ dst) with (writable_place (env s) dst).
  intros [Hf|[Hs|Hw]].
  - rewrite Hf. eauto.
  - rewrite Hs. destruct (w_copy_fault (env s)); eauto.
  - rewrite Hw. destruct (w_copy_fault (env s)); [eauto|].
    destruct (w_files (env s) !! src); eauto.
Qed.

Lemma shutil_copy2_trace src dst s r s' :
  shutil_copy2 src dst s = (r, s') →
  copies s' = copies s ++ [Ev_copy2 src dst]
  ∧ self s' = self s.
Proof.
  unfold shutil_copy2, emit, bind, gets, modify, ret, raise; simpl.
  assert (copies (record_event (Ev_copy2 src dst) s) = copies s ++ [Ev_copy2 src dst])
    as Hc by (unfold copies; simpl; by rewrite filter_app).
  destruct (w_copy_fault (env s)); [by intros [= <- <-]|].
  destruct (w_files (env s) !! src); [|by intros [= <- <-]].
  destruct (writable_place _ _); by intros [= <- <-].
Qed.

Lemma with_lock_run {A} (body : M A) s r s1 :
  body (set_lock true s) = (r, s1) → with_lock body s = (r, set_lock false s1).
Proof.
  intros Hb. unfold with_lock, try_finally, bind, modify. simpl. by rewrite Hb.
Qed.

(** ** The exceptions an operation can end with

    [raises P m]: an exception [m] ends with satisfies [P]. *)

Section raises_rules.
Context (P : exn → Prop).

Lemma raises_ret {A} (a : A) : raises P (ret a).
Proof. by intros s e s' [=]. Qed.

Lemma raises_gets {A} (f : state → A) : raises P (gets f).
Proof. by intros s e s' [=]. Qed.

Lemma raises_modify f : raises P (modify f).
Proof. by intros s e s' [=]. Qed.

Lemma raises_emit ev : raises P (emit ev).
Proof. apply raises_modify. Qed.

Lemma raises_raise {A} e : P e → raises P (@raise A e).
Proof. by intros He s e' s' [= <- <-]. Qed.

Lemma raises_bind {A C} (m : M A) (f : A → M C) :
  raises P m → (∀ a, raises P (f a)) → raises P (bind m f).
Proof.
  intros Hm Hf s e s'. unfold bind.
  destruct (m s) as [[a|e1] s1] eqn:E.
  - apply Hf.
  - intros [= <- <-]. eapply Hm, E.
Qed.

Lemma raises_try_except {A} (body : M A) handler :
  (∀ e, raises P (handler e)) → raises P (try_except body handler).
Proof.
  intros Hf s e s'. unfold try_except.
  destruct (body s) as [[a|e1] s1] eqn:E; [done|]. apply Hf.
Qed.

(** [except aiosqlite.OperationalError: raise RuntimeError(text)] lets the
    other exceptions of the body through. *)
Lemma raises_try_operational {A} (body : M A) wrap :
  raises P body → (∀ e, P (RuntimeError (wrap e))) →
  raises P (try_except body (on_operational_error wrap)).
Proof.
  intros Hb Hw s e s'. unfold try_except.
  destruct (body s) as [[a|e1] s1] eqn:E; [done|].
  apply Hb in E. destruct e1; simpl; intros [= <- <-]; auto.
Qed.

Lemma raises_try_finally {A} (body : M A) final :
  raises P body → raises P final → raises P (try_finally body final).
Proof.
  intros Hm Hf s e s'. unfold try_finally.
  destruct (body s) as [r1 s1] eqn:E.
  destruct (final s1) as [[[]|e2] s2] eqn:E2; intros [= -> <-].
  - eapply Hm, E.
  - eapply Hf, E2.
Qed.

Lemma raises_for_each {A} (l : list A) body :
  (∀ x, raises P (body x)) → raises P (for_each l body).
Proof.
  intros Hb. induction l as [|x l IH]; simpl.
  - apply raises_ret.
  - apply raises_bind; auto.
Qed.

Lemma raises_when b m : raises P m → raises P (when b m).
Proof. destruct b; simpl; auto using raises_ret. Qed.
End raises_rules.

Lemma engine_run_exn db q params e :
  engine_run db q params = Raise e → ∀ msg, e ≠ RuntimeError msg.
Proof.
  unfold engine_run. intros He msg ->.
  repeat case_match; simplify_eq.
Qed.

(** [connect] ends with no [RuntimeError] but those of [insert] and
    [update]. *)
Section raises_methods.
Context `{!Explain} (P : exn → Prop).
Hypothesis P_other : ∀ e, (∀ msg, e ≠ RuntimeError msg) → P e.
Hypothesis P_failed : ∀ why sql, P (RuntimeError (failed_to_execute why sql)).
Hypothesis P_no_fields : P (RuntimeError "no fields in record match database table").

Ltac raises_step :=
  lazymatch goal with
  | |- raises _ (bind _ _) => apply raises_bind; [|intros]
  | |- raises _ (try_except _ (on_operational_error _)) =>
      apply raises_try_operational; [|intros; by apply P_failed]
  | |- raises _ (try_except _ _) => apply raises_try_except; intros
  | |- raises _ (try_finally _ _) => apply raises_try_finally
  | |- raises _ (for_each _ _) => apply raises_for_each; intros
  | |- raises _ (when _ _) => apply raises_when
  | |- raises _ (emit _) => apply raises_emit
  | |- raises _ (modify _) => apply raises_modify
  | |- raises _ (gets _) => apply raises_gets
  | |- raises _ (ret _) => apply raises_ret
  | |- raises _ (raise _) => apply raises_raise; first [done | by apply P_other]
  | |- raises _ (if ?b then _ else _) => destruct b
  | |- raises _ (match ?x with _ => _ end) => destruct x
  | |- raises _ _ => solve [eauto with raises]
  end.
Ltac raises_go := repeat raises_step.

Create HintDb raises discriminated.

Lemma raises_the_connection attr : raises P (the_connection attr).
Proof. unfold the_connection. raises_go. Qed.
Local Hint Resolve raises_the_connection : raises.

Lemma raises_run_statement attr q params : raises P (run_statement attr q params).
Proof.
  intros s e s'. unfold run_statement, the_connection, bind, gets, ret, raise, modify.
  destruct (connection (self s)) as [c|]; simpl;
    [|intros [= <- <-]; by apply P_other].
  destruct (engine_run _ _ _) eqn:E.
  - destruct q; by intros [=].
  - intros [= <- <-]. apply P_other. eapply engine_run_exn, E.
Qed.
Local Hint Resolve raises_run_statement : raises.
Local Hint Extern 1 (raises _ (connection_execute _ _)) =>
  unfold connection_execute : raises.
Local Hint Extern 1 (raises _ (cursor_execute _ _)) =>
  unfold cursor_execute : raises.

Lemma raises_connection_executemany q rows :
  raises P (connection_executemany q rows).
Proof. unfold connection_executemany. raises_go. Qed.
Local Hint Resolve raises_connection_executemany : raises.

Lemma raises_connection_commit : raises P connection_commit.
Proof. unfold connection_commit. raises_go. Qed.
Local Hint Resolve raises_connection_commit : raises.

Lemma raises_resolve_table table : raises P (resolve_table table).
Proof. unfold resolve_table, require. raises_go. Qed.
Local Hint Resolve raises_resolve_table : raises.

Lemma raises_create_table table should_commit :
  raises P (create_table table should_commit).
Proof. unfold create_table. raises_go. Qed.
Local Hint Resolve raises_create_table : raises.

Lemma raises_insert table rows why should_commit :
  raises P (insert table rows why should_commit).
Proof. unfold insert, datetime_now. raises_go. Qed.

Lemma raises_update table row where_ subs why should_commit :
  raises P (update table row where_ subs why should_commit).
Proof. unfold update. raises_go. Qed.
Local Hint Resolve raises_insert raises_update : raises.

Lemma raises_apply_revision revision : raises P (apply_revision revision).
Proof. unfold apply_revision. raises_go. Qed.
Local Hint Resolve raises_apply_revision : raises.

Lemma raises_os_umask mask : raises P (os_umask mask).
Proof. by intros s e s' [=]. Qed.
Local Hint Resolve raises_os_umask : raises.


End raises_methods.

(** ** restore *)

Section restore_steps.
Context `{!Explain}.

Lemma restore_out_of_range s nth :
  Z.of_nat (length (listing s)) ≤ nth →
  restore nth s
  = (Raise (RuntimeError (more_than_available nth (length (listing s)))),
     set_lock false s).
Proof.
  intros Hn. unfold restore.
  change (set_lock false s) with (set_lock false (set_lock true s)).
  apply with_lock_run.
  unfold snapshot_filenames, bind, gets, raise.
  rewrite listing_set_lock, bool_decide_eq_true_2 by done. done.
Qed.

Lemma restore_selected s nth src :
  nth < Z.of_nat (length (listing s)) →
  py_index (listing s) nth = Some src →
  let copy := shutil_copy2 src (filename (self s)) (disconnected (set_lock true s)) in
  restore nth s = finish_copy (set_last_restore nth) src (filename (self s)) copy.1 (connect copy.2).
Proof.
  intros Hn Hsrc copy.
  assert (∀ r s1,
    (from_filename ← getitem (listing s) nth;
     filename_ ← gets (λ s, filename (self s));
     disconnect ;;
     try_finally
       (try_except
          (shutil_copy2 from_filename filename_)
          (λ _, raise (RuntimeError (copy_failed from_filename filename_))))
       connect ;;
     modify (set_last_restore nth)) (set_lock true s) = (r, s1) →
    restore nth s = (r, set_lock false s1)) as Hrun.
  { intros r s1 Hb. unfold restore. apply with_lock_run.
    unfold snapshot_filenames, bind at 1, gets at 1.
    rewrite listing_set_lock, bool_decide_eq_false_2 by lia. done. }
  unfold finish_copy.
  destruct copy as [rc s2] eqn:Ec. simpl.
  destruct (connect s2) as [rk s3] eqn:Ek. simpl.
  assert (∀ r s1,
    (match rk, rc with
     | Raise e, _ => (Raise e, s3)
     | Ok _, Raise _ =>
         (Raise (RuntimeError (copy_failed src (filename (self s)))), s3)
     | Ok _, Ok _ => (Ok tt, set_last_restore nth s3)
     end) = (r, s1) → restore nth s = (r, set_lock false s1)) as Hrun'.
  { intros r s1 Hr. apply Hrun. rewrite <- Hr.
    unfold bind at 1. rewrite (getitem_eq _ _ _ _ Hsrc).
    unfold bind at 1, gets at 1. unfold bind at 1. rewrite disconnect_eq.
    change (filename (self (set_lock true s))) with (filename (self s)).
    unfold bind, try_finally, try_except, raise, modify.
    fold copy. rewrite Ec. destruct rc as [[]|e]; rewrite Ek;
      destruct rk as [[]|e']; reflexivity. }
  destruct rk as [[]|e'], rc as [[]|e]; by erewrite Hrun'.
Qed.




Lemma restore_index_error s nth :
  nth < Z.of_nat (length (listing s)) →
  py_index (listing s) nth = None →
  restore nth s = (Raise (IndexError "list index out of range"), set_lock false s).
Proof.
  intros Hn Hsrc. unfold restore.
  change (set_lock false s) with (set_lock false (set_lock true s)).
  apply with_lock_run.
  unfold snapshot_filenames, bind at 1, gets at 1.
  rewrite listing_set_lock, bool_decide_eq_false_2 by lia.
  unfold bind, getitem. by rewrite Hsrc.
Qed.

Lemma keeps_last_restore_connect : keeps (λ s, last_restore (self s)) connect.
Proof. by apply keeps_connect. Qed.


(** The stored index after [restore]: [nth] when it returns, the one
    before when it raises. *)
Lemma restore_last_restore s nth :
  last_restore (self (restore nth s).2)
  = match (restore nth s).1 with
    | Ok _ => nth
    | Raise _ => last_restore (self s)
    end.
Proof.
  destruct (decide (Z.of_nat (length (listing s)) ≤ nth)) as [Hn|Hn].
  { by rewrite restore_out_of_range. }
  destruct (py_index (listing s) nth) as [src|] eqn:Hsrc.
  2:{ by rewrite restore_index_error by (done || lia). }
  rewrite (restore_selected _ _ src) by (done || lia).
  destruct (shutil_copy2 _ _ _) as [rc s2] eqn:Ec. cbn [fst snd].
  destruct (connect s2) as [rk s3] eqn:Ek. cbn [fst snd].
  pose proof (keeps_last_restore_connect _ _ _ Ek) as Hk. simpl in Hk.
  apply shutil_copy2_trace in Ec as [_ Hs2].
  assert (last_restore (self s3) = last_restore (self s)) as Hs3.
  { rewrite Hk, Hs2. unfold disconnected. simpl. by destruct (connection (self s)). }
  unfold finish_copy. simpl. destruct rk as [[]|?], rc as [[]|?]; done.
Qed.

Lemma restore_copy_raises s nth src :
  nth < Z.of_nat (length (listing s)) →
  py_index (listing s) nth = Some src →
  copy_raises (env s) src (filename (self s)) →
  ∃ e, (restore nth s).1 = Raise e.
Proof.
  intros Hn Hsrc Hc. rewrite (restore_selected _ _ src) by done.
  destruct (shutil_copy2_raises src (filename (self s))
              (disconnected (set_lock true s))) as [e He].
  { destruct (disconnected_env (set_lock true s)) as (Hf & Hd & Hcf).
    unfold copy_raises, writable_place in *. by rewrite Hf, Hd, Hcf. }
  rewrite He. cbn [fst snd]. unfold finish_copy.
  destruct (connect _) as [[[]|e'] s3]; simpl; eauto.
Qed.


End restore_steps.

(** ** backup: the pruning *)

Lemma for_each_range {A} (l : list A) (k : nat) (body : A → M unit) s :
  (k ≤ length l)%nat →
  for_each (seqZ 0 (Z.of_nat k)) (λ i, x ← getitem l i; body x) s
  = for_each (take k l) body s.
Proof.
  unfold seqZ. rewrite Nat2Z.id. revert s.
  induction k as [|k IH]; intros s Hk; [done|].
  destruct (lookup_lt_is_Some_2 l k) as [x Hx]; [lia|].
  rewrite seq_S, fmap_app, for_each_app.
  rewrite (take_S_r _ _ _ Hx), for_each_app.
  pose proof (IH s ltac:(lia)) as IHs.
  destruct (for_each (take k l) body s) as [[[]|e] s1] eqn:E.
  - rewrite (bind_ok _ _ _ _ _ E), (bind_ok _ _ _ _ _ IHs). simpl.
    unfold bind. rewrite (getitem_eq _ _ x); [done|].
    rewrite py_index_nonneg by lia. by rewrite Z.add_0_r, Nat2Z.id.
  - by rewrite (bind_raise _ _ _ _ _ E), (bind_raise _ _ _ _ _ IHs).
Qed.

Lemma pruned_snoc l f s :
  pruned (l ++ [f]) s
  = set_files (delete f (w_files (env (pruned l s)))) (record_event (Ev_remove f) (pruned l s)).
Proof. unfold pruned. by rewrite foldl_app. Qed.



Lemma pruned_files l s f :
  w_files (env (pruned l s)) !! f
  = if bool_decide (f ∈ l) then None else w_files (env s) !! f.
Proof.
  induction l as [|g l IH] using rev_ind; [done|].
  rewrite pruned_snoc. simpl.
  destruct (decide (g = f)) as [->|Hne].
  - rewrite lookup_delete_eq, bool_decide_eq_true_2; [done|].
    apply elem_of_app. right. by apply list_elem_of_singleton.
  - rewrite lookup_delete_ne, IH by done.
    destruct (decide (f ∈ l)) as [Hin|Hin].
    + rewrite !bool_decide_eq_true_2; [done| |done]. apply elem_of_app. by left.
    + rewrite !bool_decide_eq_false_2; [done| |done].
      intros [?|?%list_elem_of_singleton]%elem_of_app; congruence.
Qed.


Lemma for_each_remove l s :
  NoDup l → (∀ f, f ∈ l → is_Some (w_files (env s) !! f)) →
  for_each l os_remove s = (Ok tt, pruned l s).
Proof.
  induction l as [|f l IH] using rev_ind; intros Hnd Hex; [done|].
  apply NoDup_app in Hnd as (Hnd & Hf & _).
  rewrite for_each_app. unfold bind at 1. rewrite IH; [|done|].
  2:{ intros g Hg. apply Hex, elem_of_app. by left. }
  simpl. unfold bind at 1.
  unfold os_remove, emit, bind, gets, modify, ret. simpl.
  destruct (Hex f) as [x Hx]; [apply elem_of_app; right; by apply list_elem_of_singleton|].
  rewrite pruned_files, bool_decide_eq_false_2, Hx.
  - by rewrite pruned_snoc.
  - intros Hfl. apply (Hf f Hfl). by apply list_elem_of_singleton.
Qed.

Section backup_steps.
Context `{!Explain}.

Lemma backup_prune_eq s :
  last_restore (self s) ≤ Z.of_nat (length (listing s)) →
  backup_prune s
  = (Ok tt, set_last_restore 0
              (pruned (take (Z.to_nat (last_restore (self s))) (listing s)) s)).
Proof.
  intros Hk. unfold backup_prune, snapshot_filenames.
  unfold bind at 1, gets at 1. unfold bind at 1, gets at 1. unfold bind at 1.
  assert (seqZ 0 (last_restore (self s))
          = seqZ 0 (Z.of_nat (Z.to_nat (last_restore (self s))))) as ->.
  { unfold seqZ. by rewrite Nat2Z.id. }
  rewrite for_each_range by lia.
  rewrite for_each_remove; [done| |].
  - pose proof (listing_NoDup s) as Hnd.
    rewrite <- (take_drop (Z.to_nat (last_restore (self s))) (listing s)) in Hnd.
    by apply NoDup_app in Hnd as [? _].
  - intros f Hf%subseteq_take. eapply listing_elem, Hf.
Qed.


End backup_steps.

Example example_listing :
  listing (example_state 0 false)
  = ["/data/main.t3.sqlite"; "/data/main.t2.sqlite"; "/data/main.t1.sqlite"].
Proof. vm_compute. reflexivity. Qed.

Section restore_statements.
Context `{!Explain}.


(** C9.  [restore(nth)] stores [nth] as the last-restore index only when
    it returns: when the copy raises, [restore] raises and the index is
    the one before, so the next [backup] prunes over the same range. *)
Theorem restore_failed_copy_keeps_index s nth src :
  nth < Z.of_nat (length (listing s)) →
  py_index (listing s) nth = Some src →
  copy_raises (env s) src (filename (self s)) →
  (∃ e, (restore nth s).1 = Raise e)
  ∧ last_restore (self (restore nth s).2) = last_restore (self s)
  ∧ seqZ 0 (last_restore (self (restore nth s).2)) = seqZ 0 (last_restore (self s))
  ∧ (∀ nth', (restore nth' s).1 = Ok tt →
             last_restore (self (restore nth' s).2) = nth').
Proof.
  intros Hn Hsrc Hc.
  destruct (restore_copy_raises s nth src Hn Hsrc Hc) as [e He].
  pose proof (restore_last_restore s nth) as Hl. rewrite He in Hl.
  split_and!; [eauto|done|by rewrite Hl|].
  intros nth' Hok. pose proof (restore_last_restore s nth') as Hl'.
  by rewrite Hok in Hl'.
Qed.

End restore_statements.


Lemma restore_failed_copy_keeps_index_witness :
  last_restore (self (restore (H := explain_plainly) 1 (example_state 0 true)).2) = 0.
Proof.
  apply (@restore_failed_copy_keeps_index explain_plainly (example_state 0 true) 1
           "/data/main.t2.sqlite").
  - by vm_compute.
  - by vm_compute.
  - left. reflexivity.
Defined.



Section backup_statements.
Context `{!Explain}.



End backup_statements.




#[global] Arguments commit_db : simpl never.
#[global] Arguments flush : simpl never.

(** ** Statements on the connection *)

Lemma the_connection_eq attr s c :
  connection (self s) = Some c → the_connection attr s = (Ok c, s).
Proof. intros Hc. unfold the_connection, bind, gets, ret. by rewrite Hc. Qed.

Lemma run_statement_raise attr q params s c e :
  connection (self s) = Some c →
  engine_run (c_work c) q params = Raise e →
  run_statement attr q params s = (Raise e, s).
Proof.
  intros Hc He. unfold run_statement.
  rewrite (bind_ok _ _ _ _ _ (the_connection_eq _ _ _ Hc)). by rewrite He.
Qed.

Lemma run_statement_select attr cs t params s c r :
  connection (self s) = Some c →
  engine_run (c_work c) (Select_from cs t) params = Ok r →
  run_statement attr (Select_from cs t) params s = (Ok r, s).
Proof.
  intros Hc He. unfold run_statement.
  rewrite (bind_ok _ _ _ _ _ (the_connection_eq _ _ _ Hc)). by rewrite He.
Qed.

(** A statement that writes, outside a transaction, when it is not a data
    statement: its effect is on the file at once. *)
Lemma run_statement_ddl attr q params s c r :
  connection (self s) = Some c →
  c_in_transaction c = false →
  is_dml q = false →
  (∀ cs t, q ≠ Select_from cs t) →
  engine_run (c_work c) q params = Ok r →
  run_statement attr q params s = (Ok r, commit_db c (r_db r) s).
Proof.
  intros Hc Htx Hq Hs He. unfold run_statement.
  rewrite (bind_ok _ _ _ _ _ (the_connection_eq _ _ _ Hc)). rewrite He.
  unfold commit_db, with_work. rewrite Htx.
  destruct q; try done; by exfalso; eapply Hs.
Qed.

(** A data statement: the change is in the connection's view, in a
    transaction. *)
Lemma run_statement_dml attr q params s c r :
  connection (self s) = Some c →
  is_dml q = true →
  engine_run (c_work c) q params = Ok r →
  run_statement attr q params s
  = (Ok r, set_connection (Some (with_work c (r_db r) true)) s).
Proof.
  intros Hc Hq He. unfold run_statement.
  rewrite (bind_ok _ _ _ _ _ (the_connection_eq _ _ _ Hc)). rewrite He.
  unfold with_work.
  destruct q; try done; unfold bind, modify, ret; simpl;
    by rewrite orb_true_r.
Qed.

Lemma connection_commit_eq s c :
  connection (self s) = Some c →
  connection_commit s = (Ok tt, commit_db c (c_work c) s).
Proof.
  intros Hc. unfold connection_commit.
  by rewrite (bind_ok _ _ _ _ _ (the_connection_eq _ _ _ Hc)).
Qed.

Lemma commit_db_unfold c db s :
  commit_db c db s
  = set_files (<[c_path c := File db (mode_at s (c_path c))]> (w_files (env s)))
      (set_connection (Some (with_work c db false)) s).
Proof. done. Qed.

Lemma commit_db_again c c' db db' s :
  c_path c' = c_path c →
  with_work c' db' false = with_work c db' false →
  commit_db c' db' (commit_db c db s) = commit_db c db' s.
Proof.
  intros Hp Hw. rewrite !commit_db_unfold, Hp, Hw.
  unfold set_files, set_connection, mode_at. simpl.
  rewrite lookup_insert_eq, insert_insert_eq. done.
Qed.

Lemma commit_db_with_work c db db' tx s :
  commit_db (with_work c db tx) db' s = commit_db c db' s.
Proof. done. Qed.

Lemma commit_db_connection c db s :
  connection (self (commit_db c db s)) = Some (with_work c db false).
Proof. done. Qed.

(** ** query *)

Lemma connection_cursor_eq s c :
  connection (self s) = Some c →
  connection_cursor s = (Ok (c_cursor_seq c), cursor_opened c s).
Proof.
  intros Hc. unfold connection_cursor.
  by rewrite (bind_ok _ _ _ _ _ (the_connection_eq _ _ _ Hc)).
Qed.

Lemma cursor_close_eq cursor s : cursor_close cursor s = (Ok tt, cursor_closed cursor s).
Proof.
  unfold cursor_close, cursor_closed, bind, gets, modify, emit, ret.
  by destruct (connection (self s)).
Qed.


Lemma fill_record_eq cols : ∀ index row record s,
  (index + length cols ≤ length row)%nat →
  fill_record cols index row record s
  = (Ok (foldl (λ record cv, dict_set cv.1 cv.2 record) record
           (zip cols (drop index row))), s).
Proof.
  induction cols as [|col cols IH]; intros index row record s Hlen; [done|].
  simpl in *. destruct (lookup_lt_is_Some_2 row index) as [v Hv]; [lia|].
  unfold bind. rewrite (getitem_eq _ _ v).
  2:{ rewrite py_index_nonneg by lia. by rewrite Nat2Z.id. }
  rewrite IH by lia. by rewrite (drop_S _ _ _ Hv).
Qed.

Lemma make_records_eq cols rows s :
  Forall (λ row, length row = length cols) rows →
  make_records cols rows s = (Ok (record_of cols <$> rows), s).
Proof.
  induction 1 as [|row rows Hrow Hrows IH]; [done|].
  simpl. unfold bind. rewrite fill_record_eq by (simpl; lia).
  by rewrite IH.
Qed.

(** The rows of a reply are aligned with its description. *)
Lemma engine_run_aligned db q params r cols :
  engine_run db q params = Ok r → r_description r = Some cols →
  Forall (λ row, length row = length cols) (r_rows r).
Proof.
  unfold engine_run. intros He Hd.
  repeat case_match; simplify_eq/=.
  apply Forall_fmap, Forall_forall. intros row _. simpl. by rewrite length_fmap.
Qed.


Section query_steps.
Context `{!Explain}.

Lemma query_run sql subs why s c :
  connection (self s) = Some c →
  query sql subs why s
  = (query_outcome sql why (engine_run (c_work c) sql subs),
     cursor_closed (c_cursor_seq c) (run_statement "execute" sql subs (cursor_opened c s)).2).
Proof.
  intros Hc. unfold query.
  assert (try_except connection_cursor (explained why sql) s
          = (Ok (c_cursor_seq c), cursor_opened c s)) as Hcur.
  { unfold try_except. by rewrite (connection_cursor_eq _ _ Hc). }
  rewrite (bind_ok _ _ _ _ _ Hcur).
  unfold try_finally, try_except, cursor_execute.
  set (s1 := cursor_opened c s).
  assert (connection (self s1)
          = Some (Connection (c_path c) (c_work c) (c_in_transaction c)
                    (c_row_factory c) (c_functions c)
                    (c_cursors c ++ [c_cursor_seq c]) (S (c_cursor_seq c)))) as Hc1
    by done.
  destruct (engine_run (c_work c) sql subs) as [reply|e] eqn:He.
  - assert (∃ s2, run_statement "execute" sql subs s1 = (Ok reply, s2)) as [s2 Hrun].
    { unfold run_statement.
      rewrite (bind_ok _ _ _ _ _ (the_connection_eq _ _ _ Hc1)). simpl. rewrite He.
      destruct sql; unfold bind, modify, ret; eauto. }
    rewrite (bind_ok _ _ _ _ _ Hrun), Hrun. simpl.
    destruct (r_description reply) as [cols|] eqn:Hd.
    + rewrite make_records_eq by (by eapply engine_run_aligned).
      first [by rewrite cursor_close_eq|done].
    + unfold raise, explained. simpl. first [by rewrite cursor_close_eq|done].
  - assert (run_statement "execute" sql subs s1 = (Raise e, s1)) as Hrun
      by (by apply run_statement_raise with
            (Connection (c_path c) (c_work c) (c_in_transaction c)
               (c_row_factory c) (c_functions c)
               (c_cursors c ++ [c_cursor_seq c]) (S (c_cursor_seq c)))).
    rewrite (bind_raise _ _ _ _ _ Hrun), Hrun. simpl.
    unfold explained. destruct e; simpl; unfold raise;
      first [by rewrite cursor_close_eq|done].
Qed.

End query_steps.

(** ** Tables: creation *)

Lemma index_of_is_Some c l : is_Some (index_of c l) ↔ c ∈ l.
Proof.
  induction l as [|c' l IH]; simpl.
  - split; [by intros [? ?]|by intros ?%elem_of_nil].
  - destruct (String.eqb_spec c' c) as [->|Hne].
    + split; [by left|eauto].
    + rewrite fmap_is_Some, IH. split; [by right|].
      by intros [?|?]%elem_of_cons.
Qed.

Lemma has_key_true c l : c ∈ l → has_key c l = true.
Proof. intros Hc. apply bool_decide_eq_true_2. by apply index_of_is_Some. Qed.

Lemma has_key_false c l : c ∉ l → has_key c l = false.
Proof. intros Hc. apply bool_decide_eq_false_2. by rewrite index_of_is_Some. Qed.


Lemma connection_execute_ddl q params s c r :
  connection (self s) = Some c →
  c_in_transaction c = false →
  is_dml q = false →
  (∀ cs t, q ≠ Select_from cs t) →
  engine_run (c_work c) q params = Ok r →
  connection_execute q params s = (Ok r, commit_db c (r_db r) s).
Proof. apply run_statement_ddl. Qed.

(** The indices, one statement each. *)
Lemma create_indices n cols rows : ∀ fs acc db c s,
  NoDup fs →
  (∀ f, f ∈ fs → f ∈ cols.*1) →
  (∀ f, f ∈ fs → n +:+ "_" +:+ f ∉ acc) →
  db !! n = Some (Table cols acc rows) →
  for_each (Create_index n <$> fs) (λ sql, connection_execute sql [] ;; ret tt)
    (commit_db c db s)
  = (Ok tt,
     commit_db c (<[n := Table cols (acc ++ ((λ f, n +:+ "_" +:+ f) <$> fs)) rows]> db) s).
Proof.
  induction fs as [|f fs IH]; intros acc db c s Hnd Hcols Hacc Hdb.
  - simpl. rewrite app_nil_r, insert_id by done. done.
  - apply NoDup_cons in Hnd as [Hf Hnd]. simpl.
    unfold bind at 1. unfold bind at 1.
    erewrite connection_execute_ddl; [|apply commit_db_connection|done|done|done|].
    2:{ unfold engine_run. simpl. rewrite Hdb. simpl.
        rewrite has_key_false by (apply Hacc; by left).
        rewrite has_key_true by (apply Hcols; by left). done. }
    unfold ret. simpl.
    rewrite commit_db_again by done.
    rewrite (IH (acc ++ [n +:+ "_" +:+ f])).
    + by rewrite insert_insert_eq, <- app_assoc.
    + done.
    + intros f' Hf'. apply Hcols. by right.
    + intros f' Hf'. rewrite elem_of_app, list_elem_of_singleton.
      intros [Hin|Heq].
      * revert Hin. apply Hacc. by right.
      * apply (inj (String.app n)), (inj (String.app "_")) in Heq. congruence.
    + by rewrite lookup_insert_eq.
Qed.

Lemma create_table_eq td should_commit s c :
  connection (self s) = Some c →
  c_in_transaction c = false →
  NoDup (fields td).*1 →
  create_table (By_definition td) should_commit s
  = (Ok tt, commit_db c (<[name td := schema_of td]> (c_work c)) s).
Proof.
  intros Hc Htx Hnd. unfold create_table, resolve_table.
  unfold bind at 1, ret at 1. unfold bind at 1.
  erewrite connection_execute_ddl; [|done..|reflexivity].
  cbn [r_db]. unfold bind at 1.
  erewrite connection_execute_ddl; [|apply commit_db_connection|done..|].
  2:{ unfold engine_run. simpl. by rewrite lookup_delete_eq. }
  cbn [r_db]. rewrite commit_db_again by done. rewrite insert_delete_eq.
  unfold bind at 1.
  assert (∀ l : list (string * FieldSpec),
            (λ f, Create_index (name td) f.1) <$> l = Create_index (name td) <$> l.*1)
    as -> by (intros l; by rewrite <- list_fmap_compose).
  erewrite (create_indices (name td)); [| | | |apply lookup_insert_eq].
  - rewrite insert_insert_eq.
    assert (commit_db c (<[name td := schema_of td]> (c_work c)) s
            = commit_db c
                (<[name td :=
                     Table ((λ f, (f.1, f_type f.2)) <$> fields td)
                       ([] ++ ((λ f, name td +:+ "_" +:+ f)
                                 <$> (filter (λ f, f_index f.2 = true) (fields td)).*1))
                       []]> (c_work c)) s) as <-.
    { unfold schema_of. simpl. by rewrite <- list_fmap_compose. }
    destruct should_commit; simpl; [|done].
    rewrite (connection_commit_eq _ _ (commit_db_connection _ _ _)). simpl.
    by rewrite commit_db_again.
  - clear -Hnd. induction (fields td) as [|[f spec] l IH]; [constructor|].
    simpl in Hnd. apply NoDup_cons in Hnd as [Hf Hnd].
    rewrite filter_cons. case_decide; [|auto].
    simpl. apply NoDup_cons. split; [|auto].
    intros Hin. apply Hf.
    apply list_elem_of_fmap in Hin as [x [-> Hx]].
    apply list_elem_of_filter in Hx as [_ Hx].
    apply list_elem_of_fmap. by exists x.
  - intros f Hf. rewrite <- list_fmap_compose. simpl.
    apply list_elem_of_fmap in Hf as [x [-> Hx]].
    apply list_elem_of_filter in Hx as [_ Hx].
    apply list_elem_of_fmap. by exists x.
  - intros f _. apply not_elem_of_nil.
Qed.

(** ** Rows: insert and update *)

Lemma resolve_by_name n td s :
  dict_get n (tables (self s)) = Some td → resolve_table (By_name n) s = (Ok td, s).
Proof. intros Hd. unfold resolve_table, require, bind, gets, ret. by rewrite Hd. Qed.

Lemma create_table_by_name n td should_commit s :
  dict_get n (tables (self s)) = Some td →
  create_table (By_name n) should_commit s
  = create_table (By_definition td) should_commit s.
Proof.
  intros Hd. unfold create_table.
  by rewrite (bind_ok _ _ _ _ _ (resolve_by_name _ _ _ Hd)).
Qed.

(** One row inserted and committed. *)
Lemma insert_one table td row why s c r :
  resolve_table table s = (Ok td, s) →
  connection (self s) = Some c →
  engine_run (c_work c) (Insert_into (name td) (insertable_fields td row))
    (values_row td (w_now (env s)) row) = Ok r →
  insert table [row] why true s = (Ok tt, commit_db c (r_db r) s).
Proof.
  intros Hres Hc He. unfold insert.
  rewrite (bind_ok _ _ _ _ _ Hres). unfold datetime_now.
  unfold bind at 1, gets at 1. unfold try_except.
  assert (connection_executemany (Insert_into (name td) (insertable_fields td row))
            (values_row td (w_now (env s)) <$> [row]) s
          = (Ok tt, set_connection (Some (with_work c (r_db r) true)) s)) as Hmany.
  { unfold connection_executemany.
    rewrite (bind_ok _ _ _ _ _ (the_connection_eq _ _ _ Hc)). simpl.
    unfold bind at 1. unfold bind at 1.
    by rewrite (run_statement_dml _ (Insert_into _ _) _ _ _ _ Hc eq_refl He). }
  rewrite (bind_ok _ _ _ _ _ Hmany). reflexivity.
Qed.


(** ** The revision table *)

Lemma RevisionTableDefinition_eq :
  RevisionTableDefinition
  = {| name := "revision";
       fields := [("created_on", {| f_type := "TEXT"; f_index := true |});
                  ("number", {| f_type := "INTEGER"; f_index := false |})] |}.
Proof. reflexivity. Qed.

Lemma schema_of_revision : schema_of RevisionTableDefinition = revision_table [].
Proof. reflexivity. Qed.

Lemma revision_fields_NoDup : NoDup (fields RevisionTableDefinition).*1.
Proof.
  rewrite RevisionTableDefinition_eq. simpl.
  apply NoDup_cons. split; [by intros ?%list_elem_of_singleton|apply NoDup_singleton].
Qed.

Lemma insertable_fields_number v :
  insertable_fields RevisionTableDefinition {["number" := v]} = ["created_on"; "number"].
Proof. by vm_compute. Qed.

Lemma values_row_number now v :
  values_row RevisionTableDefinition now {["number" := v]} = [VStr now; v].
Proof. by vm_compute. Qed.

Lemma insertable_fields_misnamed v :
  insertable_fields RevisionTableDefinition {["revision" := v]} = ["created_on"].
Proof. by vm_compute. Qed.

Lemma values_row_misnamed now v :
  values_row RevisionTableDefinition now {["revision" := v]} = [VStr now].
Proof. by vm_compute. Qed.

Lemma engine_insert_number db rows now v :
  db !! "revision" = Some (revision_table rows) →
  engine_run db (Insert_into "revision" ["created_on"; "number"]) [VStr now; v]
  = Ok (Reply (<["revision" := revision_table (rows ++ [[VStr now; v]])]> db) None [] 1).
Proof. intros Hdb. unfold engine_run. by rewrite Hdb. Qed.

Lemma engine_insert_misnamed db rows now :
  db !! "revision" = Some (revision_table rows) →
  engine_run db (Insert_into "revision" ["created_on"]) [VStr now]
  = Ok (Reply (<["revision" := revision_table (rows ++ [[VStr now; VNone]])]> db) None [] 1).
Proof. intros Hdb. unfold engine_run. by rewrite Hdb. Qed.



(** ** Migration *)



Section migration_steps.
Context `{!Explain}.

(** The first step on a store: the table is made anew and a row is
    inserted under the key "revision", which is no field of the table: the
    row has the time of creation and no number. *)
Lemma apply_revision_1 s c :
  connection (self s) = Some c →
  c_in_transaction c = false →
  dict_get "revision" (tables (self s)) = Some RevisionTableDefinition →
  apply_revision 1 s
  = (Ok tt,
     commit_db c
       (<["revision" := revision_table [[VStr (w_now (env s)); VNone]]]> (c_work c))
       (record_event (Ev_log (Log_creating_table "revision"))
          (record_event (Ev_log (Log_updating_to_revision 1)) s))).
Proof.
  intros Hc Htx Hd. unfold apply_revision.
  unfold bind at 1, emit at 1, modify at 1.
  rewrite bool_decide_eq_true_2 by done.
  unfold bind at 1, emit at 1, modify at 1.
  set (s1 := record_event _ (record_event _ s)).
  unfold bind at 1. unfold Tablenames.REVISION.
  rewrite (create_table_by_name _ RevisionTableDefinition) by done.
  rewrite (create_table_eq _ _ _ c) by (done || apply revision_fields_NoDup).
  rewrite schema_of_revision.
  erewrite (insert_one _ RevisionTableDefinition);
    [|by apply resolve_by_name|apply commit_db_connection|].
  2:{ rewrite insertable_fields_misnamed, values_row_misnamed.
      apply engine_insert_misnamed. simpl. apply lookup_insert_eq. }
  simpl. rewrite commit_db_again by done. by rewrite insert_insert_eq.
Qed.



End migration_steps.

(** ** connect *)


Section connect_existing_store.
Context `{!Explain}.

Lemma connect_existing_file s f :
  w_files (env s) !! filename (self s) = Some f →
  connect s = connect_existing (opened (f_data f) s).
Proof.
  intros Hf. unfold connect.
  unfold bind at 1, gets at 1.
  unfold bind at 1, os_path_isfile at 1, gets at 1.
  rewrite bool_decide_eq_true_2 by (by rewrite Hf).
  unfold bind at 1, ret at 1.
  assert (aiosqlite_connect (filename (self s)) s
          = (Ok (Connection (filename (self s)) (f_data f) false false [] [] 0),
             record_event (Ev_connect (filename (self s))) s)) as Hopen.
  { unfold aiosqlite_connect, emit, bind, gets, modify, ret. simpl. by rewrite Hf. }
  rewrite (bind_ok _ _ _ _ _ Hopen).
  reflexivity.
Qed.


End connect_existing_store.


Lemma select_number db created number :
  db !! "revision" = Some (revision_table [[created; number]]) →
  engine_run db (Select_from ["number"] "revision") []
  = Ok (Reply db (Some ["number"]) [[number]] (-1)).
Proof. intros Hdb. unfold engine_run. by rewrite Hdb. Qed.

Section migration_statements.
Context `{!Explain}.

(** C2.  [apply_revision(1)] makes the revision table anew and inserts a
    row, but under the key "revision", which is no column of the table:
    the row has its time of creation and NULL for its number, not 1. *)
Theorem apply_revision_1_number_null s c :
  connection (self s) = Some c →
  c_in_transaction c = false →
  dict_get "revision" (tables (self s)) = Some RevisionTableDefinition →
  ∃ s' c',
    apply_revision 1 s = (Ok tt, s')
    ∧ connection (self s') = Some c'
    ∧ c_work c' !! "revision"
      = Some (revision_table [[VStr (w_now (env s)); VNone]])
    ∧ engine_run (c_work c') (Select_from ["number"] "revision") []
      = Ok (Reply (c_work c') (Some ["number"]) [[VNone]] (-1)).
Proof.
  intros Hc Htx Hd. eexists _, _. split; [by apply apply_revision_1|].
  split; [apply commit_db_connection|]. simpl.
  split; [apply lookup_insert_eq|].
  eapply select_number, lookup_insert_eq.
Qed.

End migration_statements.

(** ** Paths *)

Lemma length_app_string s1 s2 :
  String.length (s1 +:+ s2) = (String.length s1 + String.length s2)%nat.
Proof. induction s1 as [|a s1 IH]; simpl; [done|]. by rewrite IH. Qed.

Lemma split_last_length c s b t :
  Path.split_last c s = Some (b, t) →
  String.length s = (String.length b + 1 + String.length t)%nat.
Proof.
  revert b t. induction s as [|a s IH]; intros b t; simpl; [done|].
  destruct (Path.split_last c s) as [[b' t']|].
  - intros [= <- <-]. rewrite (IH b' t') by done. simpl. lia.
  - destruct (Ascii.eqb a c); [|done]. intros [= <- <-]. simpl. lia.
Qed.

Lemma length_rstrip c s : (String.length (Path.rstrip c s) ≤ String.length s)%nat.
Proof.
  induction s as [|a s IH]; simpl; [done|].
  destruct (Path.rstrip c s); simpl in *; [destruct (Ascii.eqb a c); simpl|]; lia.
Qed.

(** The directory part of a path that names a file is shorter than the
    path. *)
Lemma dirname_shorter p :
  Path.basename p ≠ "" → (String.length (Path.dirname p) < String.length p)%nat.
Proof.
  unfold Path.basename, Path.dirname, Path.split.
  destruct (Path.split_last "/" p) as [[b t]|] eqn:E; simpl.
  - intros Ht. rewrite (split_last_length _ _ _ _ E).
    assert (String.length t ≠ 0%nat) by (by destruct t).
    pose proof (length_rstrip "/" (b +:+ "/")).
    destruct (Path.all_char _ _); rewrite ?length_app_string in *; simpl in *; lia.
  - intros Hp. destruct p; [done|]. simpl. lia.
Qed.

Lemma ancestors_from_shorter rest : ∀ seen a,
  a ∈ Path.ancestors_from seen rest →
  (String.length a < String.length seen + String.length rest)%nat.
Proof.
  induction rest as [|x rest IH]; intros seen a; simpl; [by intros ?%elem_of_nil|].
  intros [Ha|Ha]%elem_of_app.
  - destruct (_ && _); [|by apply elem_of_nil in Ha].
    apply list_elem_of_singleton in Ha as ->. lia.
  - apply IH in Ha. rewrite length_app_string in Ha. simpl in Ha. lia.
Qed.

Lemma ancestors_shorter d a :
  a ∈ Path.ancestors d → (String.length a < String.length d)%nat.
Proof. intros Ha%ancestors_from_shorter. simpl in Ha. lia. Qed.

Lemma not_own_directory p a :
  Path.basename p ≠ "" → a ∈ Path.dirname p :: Path.ancestors (Path.dirname p) → a ≠ p.
Proof.
  intros Hp Ha ->. pose proof (dirname_shorter _ Hp).
  apply elem_of_cons in Ha as [Ha|Ha%ancestors_shorter]; [|lia].
  rewrite <- Ha in H. lia.
Qed.

(** ** The directory of the file *)

Lemma made_dirs_other mode dirs l x :
  x ∉ l → made_dirs mode dirs l !! x = dirs !! x.
Proof.
  induction l as [|a l IH]; simpl; [done|].
  intros [Hne Hx]%not_elem_of_cons.
  destruct (made_dirs mode dirs l !! a); [by apply IH|].
  rewrite lookup_insert_ne by done. by apply IH.
Qed.

Lemma made_dirs_new mode dirs l x :
  x ∈ l → dirs !! x = None → made_dirs mode dirs l !! x = Some mode.
Proof.
  intros Hx Hd. induction l as [|a l IH]; simpl; [by apply elem_of_nil in Hx|].
  destruct (decide (x = a)) as [->|Hne].
  - destruct (made_dirs mode dirs l !! a) as [m|] eqn:E.
    + destruct (decide (a ∈ l)) as [Hin|Hin]; [by rewrite <- IH, E|].
      rewrite made_dirs_other in E by done. congruence.
    + by rewrite lookup_insert_eq.
  - apply elem_of_cons in Hx as [?|Hx]; [done|].
    destruct (made_dirs mode dirs l !! a); [by apply IH|].
    rewrite lookup_insert_ne by done. by apply IH.
Qed.

Lemma ldiff_public u : Z.ldiff 511 (Z.land u (Z.lnot 511)) = 511.
Proof.
  apply Z.bits_inj'. intros n Hn.
  rewrite Z.ldiff_spec, Z.land_spec, Z.lnot_spec by done.
  destruct (Z.testbit 511 n); simpl; [|done]. by rewrite andb_false_r.
Qed.

Lemma os_makedirs_eq d s :
  d ≠ "" → w_files (env s) !! d = None → w_dirs (env s) !! d = None →
  os_makedirs d s
  = (Ok tt, set_dirs (made_dirs (Z.ldiff 511 (w_umask (env s))) (w_dirs (env s))
                        (d :: Path.ancestors d))
              (record_event (Ev_makedirs d) s)).
Proof.
  intros Hd Hf Hdir. unfold os_makedirs.
  unfold bind at 1, emit at 1, modify at 1.
  unfold bind at 1, os_path_exists at 1, gets at 1.
  change (w_files (env (record_event (Ev_makedirs d) s))) with (w_files (env s)).
  change (w_dirs (env (record_event (Ev_makedirs d) s))) with (w_dirs (env s)).
  rewrite Hf, Hdir. rewrite bool_decide_eq_false_2 by done.
  rewrite !bool_decide_eq_false_2 by (by intros [? ?]).
  reflexivity.
Qed.

Lemma create_directory_eq p s :
  Path.dirname p ≠ "" →
  w_files (env s) !! Path.dirname p = None →
  create_directory p s = (Ok tt, with_directory p s).
Proof.
  intros Hd Hf. unfold create_directory, with_directory.
  change (Path.split p).1 with (Path.dirname p).
  unfold bind at 1, os_path_exists at 1, gets at 1. rewrite Hf.
  destruct (w_dirs (env s) !! Path.dirname p) as [m|] eqn:Hdir.
  { rewrite bool_decide_eq_false_2 by (by intros [? ?]).
    rewrite bool_decide_eq_true_2 by done.
    rewrite bool_decide_eq_false_2 by done.
    destruct s as [o []]. simpl. by rewrite app_nil_r. }
  rewrite !bool_decide_eq_false_2 by (by intros [? ?]).
  rewrite bool_decide_eq_true_2 by done. cbn [orb].
  unfold bind at 1, os_umask at 1. unfold bind at 1, os_umask at 1.
  unfold bind at 1. rewrite os_makedirs_eq by done.
  unfold bind, os_umask, ret.
  change (w_umask (env (set_umask ?m ?s0))) with m.
  rewrite ldiff_public. reflexivity.
Qed.

(** ** The registry and the schemas *)

Lemma dict_set_keys {V} k (v : V) d :
  (dict_set k v d).*1 = if bool_decide (k ∈ d.*1) then d.*1 else d.*1 ++ [k].
Proof.
  induction d as [|[k' v'] d IH]; [done|].
  cbn [dict_set]. destruct (String.eqb_spec k' k) as [->|Hne]; rewrite !fmap_cons; cbn [fst].
  - rewrite bool_decide_eq_true_2; [done|by left].
  - rewrite IH. case_bool_decide as Hin.
    + rewrite bool_decide_eq_true_2; [done|by right].
    + rewrite bool_decide_eq_false_2; [done|].
      intros [?|?]%elem_of_cons; congruence.
Qed.

Lemma dict_set_elem {V} k (v : V) d kv :
  kv ∈ dict_set k v d → kv = (k, v) ∨ kv ∈ d.
Proof.
  induction d as [|[k' v'] d IH]; simpl.
  - intros ?%list_elem_of_singleton. by left.
  - destruct (String.eqb_spec k' k) as [->|Hne].
    + intros [->|?]%elem_of_cons; [by left|right; by right].
    + intros [->|Hin]%elem_of_cons; [right; by left|].
      destruct (IH Hin); [by left|right; by right].
Qed.

Lemma registry_ok_set td ts :
  NoDup (fields td).*1 → registry_ok ts → registry_ok (dict_set (name td) td ts).
Proof.
  intros Hf [Hnd Hall]. split.
  - rewrite dict_set_keys. case_bool_decide as Hin; [done|].
    apply NoDup_app. split_and!; [done| |apply NoDup_singleton].
    intros x Hx ->%list_elem_of_singleton. done.
  - apply Forall_forall. intros kt [->|Hkt]%dict_set_elem; [done|].
    rewrite Forall_forall in Hall. by apply Hall.
Qed.

Lemma created_other tds db n :
  n ∉ name <$> tds → created tds db !! n = db !! n.
Proof.
  revert db. induction tds as [|td tds IH]; intros db; simpl; [done|].
  intros [Hne Hn]%not_elem_of_cons. rewrite IH by done. by rewrite lookup_insert_ne.
Qed.

Lemma created_lookup tds db td :
  NoDup (name <$> tds) → td ∈ tds → created tds db !! name td = Some (schema_of td).
Proof.
  revert db. induction tds as [|td' tds IH]; intros db Hnd Hin; simpl.
  - by apply elem_of_nil in Hin.
  - simpl in Hnd. apply NoDup_cons in Hnd as [Hn Hnd].
    apply elem_of_cons in Hin as [->|Hin].
    + rewrite created_other by done. by rewrite lookup_insert_eq.
    + by apply IH.
Qed.

Lemma create_tables tds : ∀ c db s,
  Forall (λ td, NoDup (fields td).*1) tds →
  for_each tds (λ table, create_table (By_definition table) false) (commit_db c db s)
  = (Ok tt, commit_db c (created tds db) s).
Proof.
  induction tds as [|td tds IH]; intros c db s Hall; [done|].
  apply Forall_cons in Hall as [Htd Hall]. simpl.
  unfold bind at 1.
  rewrite (create_table_eq _ _ _ (with_work c db false)) by done.
  rewrite commit_db_again by done. simpl. by apply IH.
Qed.

Lemma create_schemas_eq s c :
  connection (self s) = Some c →
  c_in_transaction c = false →
  Forall (λ td, NoDup (fields td).*1) (tables (self s)).*2 →
  create_schemas true s
  = (Ok tt, commit_db c (created (tables (self s)).*2 (c_work c)) s).
Proof.
  intros Hc Htx Hall. unfold create_schemas.
  unfold bind at 1, gets at 1.
  destruct ((tables (self s)).*2) as [|td tds].
  - simpl. unfold bind, ret. by rewrite (connection_commit_eq _ _ Hc).
  - apply Forall_cons in Hall as [Htd Hall]. simpl.
    unfold bind at 1. unfold bind at 1.
    rewrite (create_table_eq _ _ _ c) by done.
    rewrite create_tables by done. simpl.
    rewrite (connection_commit_eq _ _ (commit_db_connection _ _ _)). simpl.
    by rewrite commit_db_again.
Qed.

#[global] Arguments made_dirs : simpl never.

Lemma with_directory_dirs p s :
  Path.basename p ≠ "" → w_dirs (env s) !! p = None →
  is_Some (w_dirs (env (with_directory p s)) !! Path.dirname p)
  ∧ w_dirs (env (with_directory p s)) !! p = None
  ∧ (w_dirs (env s) !! Path.dirname p = None →
     w_dirs (env (with_directory p s)) !! Path.dirname p = Some 511).
Proof.
  intros Hp Hnd. unfold with_directory. simpl.
  case_bool_decide as Hd.
  - split_and!.
    + rewrite made_dirs_new; [eauto|by left|done].
    + rewrite made_dirs_other; [done|].
      intros Hin. by eapply (not_own_directory p p).
    + intros _. rewrite made_dirs_new; [eauto|by left|done].
  - split_and!; [|done|done].
    by destruct (w_dirs (env s) !! Path.dirname p).
Qed.

Section connect_new_store.
Context `{!Explain}.

Lemma connect_new_file s :
  creatable (env s) (filename (self s)) →
  connect s = connect_created (filename (self s)) (opened_new s).
Proof.
  intros (Hf & Hnd & Hb & Hd & Hfd). unfold connect.
  unfold bind at 1, gets at 1.
  unfold bind at 1, os_path_isfile at 1, gets at 1.
  rewrite bool_decide_eq_false_2 by (rewrite Hf; by intros [? ?]).
  unfold bind at 1. unfold bind at 1. rewrite create_directory_eq by done.
  unfold ret at 1.
  destruct (with_directory_dirs (filename (self s)) s Hb Hnd) as (Hd1 & Hn1 & _).
  assert (aiosqlite_connect (filename (self s)) (with_directory (filename (self s)) s)
          = (Ok (Connection (filename (self s)) ∅ false false [] [] 0),
             set_files (<[filename (self s) := File ∅ (Z.ldiff 420 (w_umask (env s)))]>
                          (w_files (env s)))
               (record_event (Ev_connect (filename (self s)))
                  (with_directory (filename (self s)) s)))) as Hopen.
  { unfold aiosqlite_connect.
    unfold bind at 1, emit at 1, modify at 1. unfold bind at 1, gets at 1.
    cbn [id].
    change (env (record_event ?e ?s0)) with
      (World (w_files (env s0)) (w_dirs (env s0)) (w_umask (env s0)) (w_now (env s0))
         (w_stamp (env s0)) (w_copy_fault (env s0)) (w_trace (env s0) ++ [e])).
    cbn [w_files w_umask].
    change (w_files (env (with_directory (filename (self s)) s))) with (w_files (env s)).
    change (w_umask (env (with_directory (filename (self s)) s))) with (w_umask (env s)).
    rewrite Hf.
    unfold writable_place. cbn [w_dirs]. rewrite Hn1.
    rewrite (bool_decide_eq_true_2 _ Hd1).
    rewrite (bool_decide_eq_false_2 (is_Some None)) by (by intros [? ?]).
    rewrite orb_true_r. reflexivity. }
  rewrite (bind_ok _ _ _ _ _ Hopen).
  unfold opened_new. unfold bind at 1, modify at 1.
  unfold bind at 1, set_row_factory at 1. unfold bind at 1.
  erewrite the_connection_eq by reflexivity. unfold modify at 1.
  unfold bind at 1, connection_create_function at 1. unfold bind at 1.
  erewrite the_connection_eq by reflexivity. unfold modify at 1.
  unfold bind at 1, add_table_definitions, add_table_definition, modify.
  reflexivity.
Qed.
End connect_new_store.

Lemma registry_names ts :
  Forall (λ kt : string * TableDefinition, kt.1 = name kt.2 ∧ NoDup (fields kt.2).*1) ts →
  name <$> ts.*2 = ts.*1.
Proof.
  induction 1 as [|[k td] ts [Hk _] _ IH]; [done|].
  rewrite !fmap_cons. cbn [fst snd] in *. by rewrite IH, Hk.
Qed.

Section connect_statements.
Context `{!Explain}.

(** [connect] on a path with a directory part at which
    nothing is there, the directory being there or to be made: the
    directory is made when it is missing, the file is created, every
    registered table is created from its definition, the revision table
    gets one row whose number is the latest revision, and the file gets
    the permission bits 0o666. *)
Theorem connect_creates_store s :
  let fn := filename (self s) in
  let latest := LATEST_REVISION (self s) in
  let registry := dict_set "revision" RevisionTableDefinition (tables (self s)) in
  creatable (env s) fn →
  registry_ok (tables (self s)) →
  ∃ s' db,
    connect s = (Ok tt, s')
    ∧ is_Some (w_dirs (env s') !! Path.dirname fn)
    ∧ (w_dirs (env s) !! Path.dirname fn = None →
       w_dirs (env s') !! Path.dirname fn = Some 511)
    ∧ tables (self s') = registry
    ∧ w_files (env s') !! fn = Some (File db 438)
    ∧ (∀ td, td ∈ registry.*2 → name td ≠ "revision" →
             db !! name td = Some (schema_of td))
    ∧ db !! "revision" = Some (revision_table [[VStr (w_now (env s)); VInt latest]])
    ∧ (∃ c, connection (self s') = Some c ∧ c_path c = fn ∧ c_work c = db
            ∧ c_in_transaction c = false).
Proof.
  intros fn latest registry Hcr Hreg.
  assert (registry_ok registry) as [Hnd Hall].
  { apply (registry_ok_set RevisionTableDefinition); [apply revision_fields_NoDup|done]. }
  pose proof (registry_names _ Hall) as Hnames.
  assert (Forall (λ td, NoDup (fields td).*1) registry.*2) as Hfields.
  { apply Forall_fmap. eapply Forall_impl; [exact Hall|]. by intros kt [_ ?]. }
  assert (RevisionTableDefinition ∈ registry.*2) as Hrev.
  { apply list_elem_of_fmap. exists ("revision", RevisionTableDefinition).
    split; [done|]. unfold registry. clear.
    induction (tables (self s)) as [|[k v] l IH]; simpl; [by left|].
    destruct (String.eqb k "revision"); [by left|by right]. }
  destruct Hcr as (Hf & Hnodir & Hb & Hd & Hfd).
  rewrite connect_new_file by done.
  unfold connect_created. unfold bind at 1.
  rewrite (create_schemas_eq _ (opened_connection fn ∅)) by done.
  change (tables (self (opened_new s))) with registry.
  change (c_work (opened_connection fn ∅)) with (∅ : gmap string table).
  set (db0 := created registry.*2 ∅).
  assert (db0 !! "revision" = Some (revision_table [])) as Hdb0.
  { rewrite <- schema_of_revision.
    apply (created_lookup _ _ RevisionTableDefinition); [by rewrite Hnames|done]. }
  unfold bind at 1, gets at 1.
  change (LATEST_REVISION (self (commit_db _ db0 (opened_new s)))) with latest.
  unfold bind at 1. unfold Tablenames.REVISION.
  erewrite (insert_one _ RevisionTableDefinition);
    [|apply resolve_by_name, dict_get_set_eq|apply commit_db_connection|].
  2:{ rewrite insertable_fields_number, values_row_number.
      apply engine_insert_number. exact Hdb0. }
  cbn [r_db app]. rewrite commit_db_again by done.
  destruct (with_directory_dirs fn s Hb Hnodir) as (Hd1 & Hn1 & Hmade).
  change (w_now (env (commit_db _ db0 (opened_new s)))) with (w_now (env s)).
  change (c_work (with_work (opened_connection fn ∅) db0 false)) with db0.
  set (db := <["revision" := revision_table [[VStr (w_now (env s)); VInt latest]]]> db0).
  assert (w_files (env (commit_db (opened_connection fn ∅) db (opened_new s))) !! fn
          = Some (File db (mode_at (opened_new s) fn))) as Hfile.
  { rewrite commit_db_unfold. simpl. apply lookup_insert_eq. }
  unfold os_chmod. unfold bind at 1, emit at 1, modify at 1.
  unfold bind at 1, gets at 1. cbn [id].
  change (w_files (env (record_event ?e ?s0))) with (w_files (env s0)).
  fold fn. rewrite Hfile. unfold modify.
  exists (set_files
            (<[fn := File db 438]>
               (w_files (env (commit_db (opened_connection fn ∅) db (opened_new s)))))
            (record_event (Ev_chmod fn 438)
               (commit_db (opened_connection fn ∅) db (opened_new s)))), db.
  split; [done|]. rewrite commit_db_unfold. simpl.
  split_and!; try done.
  - apply lookup_insert_eq.
  - intros td Htd Hne. unfold db. rewrite lookup_insert_ne by done.
    apply created_lookup; [by rewrite Hnames|done].
  - unfold db. by rewrite lookup_insert_eq.
  - eexists. split; [done|]. done.
Qed.
End connect_statements.

(** C4.  At a path with no directory part and no file, and nothing else
    in the way, [connect] raises: [os.path.split] gives the empty
    directory name, [os.path.exists] answers no for it, and [os.makedirs]
    refuses it.  No file is created and no connection is opened, where
    the file was to be created in the current directory. *)
Theorem connect_bare_filename_raises :
  let s := State (init "main.sqlite" None)
             (World ∅ ∅ 18 "2024-05-01 10:00:00.000000" "t1" false []) in
  let r := connect (H := explain_plainly) s in
  w_files (env s) !! filename (self s) = None
  ∧ Path.split (filename (self s)) = ("", "main.sqlite")
  ∧ r.1 = Raise (FileNotFoundError "")
  ∧ w_files (env r.2) !! "main.sqlite" = None
  ∧ connection (self r.2) = None
  ∧ w_trace (env r.2) = [Ev_makedirs ""].
Proof. by vm_compute. Qed.

Section insert_statements.
Context `{!Explain}.

(** C7.  [insert] does nothing on an empty list of rows.  Otherwise the
    statement names the fields of the table that are keys of the first
    row, and the created-timestamp field of the table; each row gives its
    values for those of its keys that are fields, and the current instant
    for the created-timestamp where the row has none; a key that is no
    field of the table changes nothing.  Inserting [{"number": 1}] into
    the empty table with the fields created_on and number leaves one row,
    with the current instant and 1, committed to the file. *)
Theorem insert_fields_and_defaults :
  (∀ table why should_commit s, insert table [] why should_commit s = (Ok tt, s))
  ∧ (∀ table td row rows why should_commit s,
       resolve_table table s = (Ok td, s) →
       insert table (row :: rows) why should_commit s
       = try_except
           (connection_executemany
              (Insert_into (name td) (insertable_fields td row))
              (values_row td (w_now (env s)) <$> row :: rows) ;;
            when should_commit connection_commit)
           (on_operational_error
              (λ _, failed_to_execute why
                      (Insert_into (name td) (insertable_fields td row)))) s)
  ∧ (∀ td row field,
       field ∈ insertable_fields td row ↔
       field ∈ (fields td).*1
       ∧ (is_Some (row !! field) ∨ field = CommonFieldnames.CREATED_ON))
  ∧ (∀ td now row,
       values_row td now row
       = (λ field, default (VStr now) (row !! field)) <$> insertable_fields td row)
  ∧ (∀ td now row k v,
       k ∉ (fields td).*1 →
       insertable_fields td (<[k := v]> row) = insertable_fields td row
       ∧ values_row td now (<[k := v]> row) = values_row td now row)
  ∧ (∀ table why s c,
       resolve_table table s = (Ok RevisionTableDefinition, s) →
       connection (self s) = Some c →
       c_work c !! "revision" = Some (revision_table []) →
       ∃ s' c',
         insert table [{["number" := VInt 1]}] why true s = (Ok tt, s')
         ∧ connection (self s') = Some c'
         ∧ c_work c' !! "revision"
           = Some (revision_table [[VStr (w_now (env s)); VInt 1]])
         ∧ f_data <$> w_files (env s') !! c_path c = Some (c_work c')).
Proof.
  split_and!.
  - done.
  - intros table td row rows why should_commit s Hres. unfold insert.
    by rewrite (bind_ok _ _ _ _ _ Hres).
  - apply insertable_fields_spec.
  - apply values_row_insertable.
  - intros td now row k v Hk.
    split; [by apply insertable_fields_ignore|by apply values_row_ignore].
  - intros table why s c Hres Hc Hdb. eexists _, _.
    split.
    { eapply (insert_one _ RevisionTableDefinition); [done..|].
      rewrite insertable_fields_number, values_row_number.
      by apply engine_insert_number. }
    split; [apply commit_db_connection|].
    rewrite commit_db_unfold. simpl.
    split; [apply lookup_insert_eq|]. by rewrite lookup_insert_eq.
Qed.
End insert_statements.

Lemma insert_fields_and_defaults_witness :
  ∃ s' c',
    insert (By_name "revision") [{["number" := VInt 1]}] None true example_open = (Ok tt, s')
    ∧ connection (self s') = Some c'
    ∧ c_work c' !! "revision"
      = Some (revision_table [[VStr "2024-05-01 10:00:00.000000"; VInt 1]]).
Proof.
  destruct (proj2 (proj2 (proj2 (proj2 (proj2 insert_fields_and_defaults))))
              (By_name "revision") None example_open
              (with_work (opened_connection "/data/main.sqlite" ∅)
                 {["revision" := revision_table []]} false))
    as (s' & c' & Hs' & Hc' & Hdb & _).
  - reflexivity.
  - reflexivity.
  - reflexivity.
  - exists s', c'. split; [exact Hs'|]. split; [exact Hc'|exact Hdb].
Defined.


Lemma apply_revision_1_number_null_witness :
  ∃ s' c',
    apply_revision 1 (opened ∅ (example_state 0 false)) = (Ok tt, s')
    ∧ connection (self s') = Some c'
    ∧ c_work c' !! "revision"
      = Some (revision_table [[VStr "2024-05-01 10:00:00.000000"; VNone]]).
Proof.
  destruct (apply_revision_1_number_null
              (opened ∅ (example_state 0 false))
              (opened_connection "/data/main.sqlite" ∅))
    as (s' & c' & Hs' & Hc' & Hdb & _).
  - reflexivity.
  - reflexivity.
  - reflexivity.
  - exists s', c'. split; [exact Hs'|]. split; [exact Hc'|exact Hdb].
Defined.


Lemma connect_creates_store_witness :
  ∃ s' db, connect (H := explain_plainly) example_new = (Ok tt, s')
    ∧ w_files (env s') !! "/data/store/main.sqlite" = Some (File db 438)
    ∧ db !! "revision"
      = Some (revision_table [[VStr "2024-05-01 10:00:00.000000"; VInt 1]])
    ∧ w_dirs (env s') !! "/data/store" = Some 511.
Proof.
  destruct (@connect_creates_store explain_plainly example_new)
    as (s' & db & Hs' & _ & Hdir & _ & Hfile & _ & Hrev & _).
  - unfold creatable. split_and!; by vm_compute.
  - split; [constructor|constructor].
  - exists s', db. split; [exact Hs'|]. split; [exact Hfile|]. split; [exact Hrev|].
    apply Hdir. reflexivity.
Defined.

(** * Further properties *)

(** ** Methods called on a store that is not connected *)

Lemma the_connection_none attr s :
  connection (self s) = None → the_connection attr s = (Raise (no_attribute attr), s).
Proof. intros Hc. unfold the_connection, bind, gets, raise. by rewrite Hc. Qed.

Lemma run_statement_none attr q params s :
  connection (self s) = None →
  run_statement attr q params s = (Raise (no_attribute attr), s).
Proof.
  intros Hc. unfold run_statement.
  by rewrite (bind_raise _ _ _ _ _ (the_connection_none _ _ Hc)).
Qed.

Lemma connection_executemany_none q rows s :
  connection (self s) = None →
  connection_executemany q rows s = (Raise (no_attribute "executemany"), s).
Proof.
  intros Hc. unfold connection_executemany.
  by rewrite (bind_raise _ _ _ _ _ (the_connection_none _ _ Hc)).
Qed.

Lemma on_operational_error_other {A} wrap e s :
  (∀ msg, e ≠ OperationalError msg) →
  @on_operational_error A wrap e s = (Raise e, s).
Proof. intros He. destruct e; try done. by destruct (He msg). Qed.

Section not_connected.
Context `{!Explain}.

Lemma query_none sql subs why s :
  connection (self s) = None →
  query sql subs why s = (Raise (no_attribute "cursor"), s).
Proof.
  intros Hc. unfold query.
  assert (try_except connection_cursor (explained why sql) s
          = (Raise (no_attribute "cursor"), s)) as Hcur.
  { unfold try_except, connection_cursor.
    by rewrite (bind_raise _ _ _ _ _ (the_connection_none _ _ Hc)). }
  by rewrite (bind_raise _ _ _ _ _ Hcur).
Qed.

(** X1.  On a store that is not connected, every method that goes to the
    database raises the [AttributeError] of the first attribute it asks of
    [None] and changes nothing; [disconnect] returns and changes
    nothing. *)
Theorem not_connected_attribute_error s :
  connection (self s) = None →
  (∀ sql subs why, query sql subs why s = (Raise (no_attribute "cursor"), s))
  ∧ (∀ sql subs why should_commit,
       execute sql subs why should_commit s
       = (Raise (no_attribute match subs with
                              | Subs_rows (_ :: _) => "executemany"
                              | _ => "execute"
                              end), s))
  ∧ commit s = (Raise (no_attribute "in_transaction"), s)
  ∧ rollback s = (Raise (no_attribute "in_transaction"), s)
  ∧ (∀ table td row rows why should_commit,
       resolve_table table s = (Ok td, s) →
       insert table (row :: rows) why should_commit s
       = (Raise (no_attribute "executemany"), s))
  ∧ (∀ table td row where_ subs why should_commit field,
       resolve_table table s = (Ok td, s) →
       field ∈ (fields td).*1 → is_Some (row !! field) →
       field ≠ CommonFieldnames.UUID → field ≠ CommonFieldnames.AUTOID →
       update table row where_ subs why should_commit s
       = (Raise (no_attribute "execute"), s))
  ∧ (∀ table td should_commit,
       resolve_table table s = (Ok td, s) →
       create_table table should_commit s = (Raise (no_attribute "execute"), s))
  ∧ disconnect s = (Ok tt, s).
Proof.
  intros Hc. split_and!.
  - intros. by apply query_none.
  - intros sql subs why should_commit. unfold execute, try_except.
    destruct subs as [|values|[|row rows]]; unfold connection_execute;
      rewrite ?(bind_raise _ _ _ _ _ (bind_raise _ _ _ _ _ (run_statement_none _ _ _ _ Hc)));
      rewrite ?(bind_raise _ _ _ _ _ (connection_executemany_none _ _ _ Hc));
      done.
  - unfold commit, connection_in_transaction.
    by rewrite (bind_raise _ _ _ _ _ (bind_raise _ _ _ _ _ (the_connection_none _ _ Hc))).
  - unfold rollback, connection_in_transaction.
    by rewrite (bind_raise _ _ _ _ _ (bind_raise _ _ _ _ _ (the_connection_none _ _ Hc))).
  - intros table td row rows why should_commit Ht. unfold insert.
    rewrite (bind_ok _ _ _ _ _ Ht). unfold bind at 1, datetime_now, gets.
    unfold try_except.
    by rewrite (bind_raise _ _ _ _ _ (connection_executemany_none _ _ _ Hc)).
  - intros table td row where_ subs why should_commit field Ht Hf Hr Hu Ha.
    unfold update. rewrite (bind_ok _ _ _ _ _ Ht).
    rewrite bool_decide_eq_false_2.
    + unfold try_except, connection_execute.
      by rewrite (bind_raise _ _ _ _ _ (run_statement_none _ _ _ _ Hc)).
    + destruct Hr as [v Hv]. intros Hlen%length_zero_iff_nil.
      assert (v ∈ omap (λ field, row !! field)
                    (filter (λ field, ¬ (field = CommonFieldnames.UUID
                                         ∨ field = CommonFieldnames.AUTOID)
                                      ∧ is_Some (row !! field)) (fields td).*1)) as Hin.
      { apply list_elem_of_omap. exists field. split; [|done].
        apply list_elem_of_filter. split; [|done]. split; [tauto|by eexists]. }
      rewrite Hlen in Hin. by apply not_elem_of_nil in Hin.
  - intros table td should_commit Ht. unfold create_table.
    rewrite (bind_ok _ _ _ _ _ Ht). unfold connection_execute.
    by rewrite (bind_raise _ _ _ _ _ (run_statement_none _ _ _ _ Hc)).
  - unfold disconnect, bind, gets, ret. by rewrite Hc.
Qed.

End not_connected.

Lemma not_connected_attribute_error_witness :
  query (H := explain_plainly) (Select_from ["number"] "revision") [] None
    (example_state 0 false)
  = (Raise (no_attribute "cursor"), example_state 0 false).
Proof.
  apply (proj1 (@not_connected_attribute_error explain_plainly (example_state 0 false)
                  eq_refl)).
Defined.

(** ** restore and backup at the ends of the index range *)


Section index_range.
Context `{!Explain}.


End index_range.


Lemma seqZ_nonpos (m n : Z) : n ≤ 0 → seqZ m n = [].
Proof. intros Hn. unfold seqZ. replace (Z.to_nat n) with 0%nat by lia. done. Qed.

Lemma backup_prune_nothing s :
  last_restore (self s) ≤ 0 → backup_prune s = (Ok tt, set_last_restore 0 s).
Proof.
  intros Hk. unfold backup_prune, snapshot_filenames.
  unfold bind at 1, gets at 1. unfold bind at 1, gets at 1.
  by rewrite seqZ_nonpos by done.
Qed.

Lemma backup_prune_beyond_eq s :
  Z.of_nat (length (listing s)) < last_restore (self s) →
  backup_prune s = (Raise (IndexError "list index out of range"), pruned (listing s) s).
Proof.
  intros Hk. unfold backup_prune, snapshot_filenames.
  unfold bind at 1, gets at 1. unfold bind at 1, gets at 1.
  apply bind_raise.
  set (n := length (listing s)) in *.
  replace (last_restore (self s))
    with (Z.of_nat n + (last_restore (self s) - Z.of_nat n)) by lia.
  rewrite seqZ_app by lia. rewrite for_each_app.
  rewrite Z.add_0_l.
  erewrite bind_ok.
  2:{ rewrite for_each_range by done. unfold n. rewrite firstn_all.
      apply for_each_remove; [apply listing_NoDup|].
      intros f Hf. by apply listing_elem in Hf as [? _]. }
  rewrite seqZ_cons by lia. simpl.
  apply bind_raise. apply bind_raise.
  unfold getitem. rewrite py_index_nonneg by lia.
  rewrite lookup_ge_None_2; [done|]. unfold n. lia.
Qed.

Section pruning_edges.
Context `{!Explain}.

(** X3.  When [restore(nth)] returns for a negative [nth], the index it
    leaves is that negative number; the pruning of the next [backup] runs
    over [range(nth)], which is empty: no snapshot is removed, and the index
    goes back to 0. *)
Theorem backup_after_negative_restore s nth :
  nth < 0 →
  (restore nth s).1 = Ok tt →
  let s1 := (restore nth s).2 in
  last_restore (self s1) = nth
  ∧ backup_prune s1 = (Ok tt, set_last_restore 0 s1)
  ∧ listing (set_last_restore 0 s1) = listing s1.
Proof.
  intros Hn Hok s1.
  assert (last_restore (self s1) = nth) as Hl.
  { unfold s1. rewrite restore_last_restore. by rewrite Hok. }
  split; [done|]. split; [|done].
  apply backup_prune_nothing. lia.
Qed.


End pruning_edges.

Lemma backup_after_negative_restore_witness :
  let s1 := (restore (H := explain_plainly) (-1) (example_state 0 false)).2 in
  last_restore (self s1) = -1
  ∧ backup_prune s1 = (Ok tt, set_last_restore 0 s1).
Proof.
  destruct (@backup_after_negative_restore explain_plainly (example_state 0 false) (-1))
    as (Hl & Hp & _).
  - lia.
  - by vm_compute.
  - split; [exact Hl|exact Hp].
Defined.


(** ** update: the fields it sets *)

Lemma filter_ext_elem {A} (P Q : A → Prop) `{!∀ x, Decision (P x)} `{!∀ x, Decision (Q x)}
  (l : list A) :
  (∀ x, x ∈ l → P x ↔ Q x) → filter P l = filter Q l.
Proof.
  induction l as [|a l IH]; intros Hl; [done|].
  rewrite !filter_cons. rewrite IH by (intros x Hx; apply Hl; by right).
  destruct (decide (P a)) as [Hp|Hp], (decide (Q a)) as [Hq|Hq]; try done.
  - destruct Hq. apply Hl; [by left|done].
  - destruct Hp. apply Hl; [by left|done].
Qed.

(** The fields [update] names in its statement. *)
Lemma update_unfold table row where_ subs why should_commit s td :
  resolve_table table s = (Ok td, s) →
  update table row where_ subs why should_commit s
  = (let set_fields := update_fields td row in
     let values_row := omap (λ field, row !! field) set_fields in
     if bool_decide (length values_row = 0%nat)
     then raise (RuntimeError "no fields in record match database table")
     else
       let sql := Update_set (name td) set_fields where_ in
       let values_row := values_row ++ default [] subs in
       try_except
         (cursor ← connection_execute sql values_row;
          when should_commit connection_commit ;;
          ret (r_rowcount cursor))
         (on_operational_error (λ _, failed_to_execute why sql))) s.
Proof. intros Ht. unfold update. by rewrite (bind_ok _ _ _ _ _ Ht). Qed.

Lemma update_fields_spec td row field :
  field ∈ update_fields td row ↔
  field ∈ (fields td).*1 ∧ is_Some (row !! field)
  ∧ field ≠ CommonFieldnames.UUID ∧ field ≠ CommonFieldnames.AUTOID.
Proof. unfold update_fields. rewrite list_elem_of_filter. tauto. Qed.

Lemma update_fields_insert td row k v :
  k ∉ (fields td).*1 ∨ k = CommonFieldnames.UUID ∨ k = CommonFieldnames.AUTOID →
  update_fields td (<[k := v]> row) = update_fields td row.
Proof.
  intros Hk. unfold update_fields. apply filter_ext_elem. intros field Hf.
  destruct (decide (field = k)) as [->|Hne].
  - destruct Hk as [Hk|Hk]; [done|]. split; intros [Hn _]; destruct Hn; tauto.
  - by rewrite lookup_insert_ne.
Qed.

Lemma omap_ext_elem {A B} (f g : A → option B) (l : list A) :
  (∀ x, x ∈ l → f x = g x) → omap f l = omap g l.
Proof.
  induction l as [|a l IH]; intros Hl; [done|]. csimpl.
  rewrite (Hl a) by (by left). rewrite IH by (intros x Hx; apply Hl; by right). done.
Qed.

(** X5.  [update] sets the fields of the table that are keys of the row,
    never the identity fields: a row with no such key is refused with a
    [RuntimeError] before anything is executed, and a key that is no field
    of the table, or that names an identity field, changes nothing in what
    [update] does. *)
Theorem update_ignores_keys table td row where_ subs why should_commit s :
  resolve_table table s = (Ok td, s) →
  (update_fields td row = [] →
   update table row where_ subs why should_commit s
   = (Raise (RuntimeError "no fields in record match database table"), s))
  ∧ (∀ k v,
       k ∉ (fields td).*1 ∨ k = CommonFieldnames.UUID ∨ k = CommonFieldnames.AUTOID →
       update table (<[k := v]> row) where_ subs why should_commit s
       = update table row where_ subs why should_commit s).
Proof.
  intros Ht. split.
  - intros Hnone. rewrite (update_unfold _ _ _ _ _ _ _ _ Ht). cbv zeta.
    by rewrite Hnone.
  - intros k v Hk. rewrite !(update_unfold _ _ _ _ _ _ _ _ Ht). cbv zeta.
    rewrite (update_fields_insert _ _ _ _ Hk).
    rewrite (omap_ext_elem (λ field, <[k:=v]> row !! field) (λ field, row !! field)); [done|].
    intros field Hf. apply update_fields_spec in Hf as (Hin & _ & Hu & Ha).
    rewrite lookup_insert_ne; [done|]. intros ->. tauto.
Qed.

Lemma update_ignores_keys_witness :
  update (By_name "revision") {["uuid" := VStr "x"]} Where_all None None true example_open
  = (Raise (RuntimeError "no fields in record match database table"), example_open).
Proof.
  apply (proj1 (update_ignores_keys (By_name "revision") RevisionTableDefinition
                  {["uuid" := VStr "x"]} Where_all None None true example_open eq_refl)).
  reflexivity.
Defined.

(** ** Errors of the engine *)

Lemma connection_executemany_first q row rows s c e :
  connection (self s) = Some c →
  is_dml q = true →
  engine_run (c_work c) q row = Raise e →
  connection_executemany q (row :: rows) s = (Raise e, s).
Proof.
  intros Hc Hq He. unfold connection_executemany.
  rewrite (bind_ok _ _ _ _ _ (the_connection_eq _ _ _ Hc)). rewrite Hq. simpl.
  by rewrite (bind_raise _ _ _ _ _ (bind_raise _ _ _ _ _ (run_statement_raise _ _ _ _ _ _ Hc He))).
Qed.

(** X6.  An operational error of the engine on the statement of [insert],
    [update] or [execute] comes out as a [RuntimeError] whose text is
    "failed to execute", the reason when one was given, and the statement;
    the store is left as it was.  This is what happens when the table is
    not in the database. *)
Theorem engine_error_wrapped s c :
  connection (self s) = Some c →
  (∀ table td row rows why should_commit msg,
     resolve_table table s = (Ok td, s) →
     engine_run (c_work c) (Insert_into (name td) (insertable_fields td row))
       (values_row td (w_now (env s)) row) = Raise (OperationalError msg) →
     insert table (row :: rows) why should_commit s
     = (Raise (RuntimeError
                 (failed_to_execute why
                    (Insert_into (name td) (insertable_fields td row)))), s))
  ∧ (∀ table td row where_ subs why should_commit msg,
       resolve_table table s = (Ok td, s) →
       update_fields td row ≠ [] →
       engine_run (c_work c) (Update_set (name td) (update_fields td row) where_)
         (omap (λ field, row !! field) (update_fields td row) ++ default [] subs)
       = Raise (OperationalError msg) →
       update table row where_ subs why should_commit s
       = (Raise (RuntimeError
                   (failed_to_execute why
                      (Update_set (name td) (update_fields td row) where_))), s))
  ∧ (∀ sql subs why should_commit msg,
       (∀ row rows, subs = Subs_rows (row :: rows) → is_dml sql = true) →
       engine_run (c_work c) sql (first_values subs) = Raise (OperationalError msg) →
       execute sql subs why should_commit s
       = (Raise (RuntimeError (failed_to_execute why sql)), s))
  ∧ (∀ t fs w params,
       c_work c !! t = None →
       engine_run (c_work c) (Insert_into t fs) params
       = Raise (OperationalError ("no such table: " +:+ t))
       ∧ engine_run (c_work c) (Update_set t fs w) params
         = Raise (OperationalError ("no such table: " +:+ t))).
Proof.
  intros Hc. split_and!.
  - intros table td row rows why should_commit msg Ht He. unfold insert.
    rewrite (bind_ok _ _ _ _ _ Ht). unfold bind at 1, datetime_now, gets.
    unfold try_except. rewrite fmap_cons.
    by rewrite (bind_raise _ _ _ _ _
                  (connection_executemany_first (Insert_into _ _) _ _ _ _ _ Hc eq_refl He)).
  - intros table td row where_ subs why should_commit msg Ht Hne He.
    rewrite (update_unfold _ _ _ _ _ _ _ _ Ht). cbv zeta.
    rewrite bool_decide_eq_false_2.
    + unfold try_except, connection_execute.
      by rewrite (bind_raise _ _ _ _ _ (run_statement_raise _ _ _ _ _ _ Hc He)).
    + intros Hlen%length_zero_iff_nil.
      destruct (update_fields td row) as [|field l] eqn:Hfs; [done|].
      assert (field ∈ update_fields td row) as Hin by (rewrite Hfs; by left).
      apply update_fields_spec in Hin as (_ & [v Hv] & _).
      csimpl in Hlen. by rewrite Hv in Hlen.
  - intros sql subs why should_commit msg Hdml He. unfold execute, try_except.
    destruct subs as [|values|[|row rows]]; simpl in He; unfold connection_execute;
      rewrite ?(bind_raise _ _ _ _ _
                  (bind_raise _ _ _ _ _ (run_statement_raise _ _ _ _ _ _ Hc He)));
      try done.
    by rewrite (bind_raise _ _ _ _ _
                  (connection_executemany_first _ _ _ _ _ _ Hc (Hdml _ _ eq_refl) He)).
  - intros t fs w params Hnone. unfold engine_run. by rewrite Hnone.
Qed.

Lemma engine_error_wrapped_witness :
  insert (By_name "revision") [{["number" := VInt 1]}] (Some "first") true
    (opened ∅ (example_state 0 false))
  = (Raise (RuntimeError
              "failed to execute first: INSERT INTO revision (created_on, number) VALUES (?, ?)"),
     opened ∅ (example_state 0 false)).
Proof.
  rewrite (proj1 (engine_error_wrapped (opened ∅ (example_state 0 false))
                    (opened_connection "/data/main.sqlite" ∅) eq_refl)
             (By_name "revision") RevisionTableDefinition {["number" := VInt 1]} []
             (Some "first") true "no such table: revision").
  - by vm_compute.
  - reflexivity.
  - by vm_compute.
Defined.

(** ** Rows through [executemany] *)

Lemma inserted_nil fs tb : inserted fs tb [] = tb.
Proof. destruct tb. unfold inserted. simpl. by rewrite app_nil_r. Qed.


Lemma column_names_inserted fs tb vs : column_names (inserted fs tb vs) = column_names tb.
Proof. done. Qed.




(** ** What a row leaves in the table *)











Section insert_and_query.
Context `{!Explain}.



End insert_and_query.






(** ** Transactions *)

Lemma commit_eq s c :
  connection (self s) = Some c →
  commit s = (Ok tt, if c_in_transaction c then commit_db c (c_work c) s else s).
Proof.
  intros Hc. unfold commit, connection_in_transaction.
  rewrite (bind_ok _ _ _ (c_in_transaction c) s).
  2:{ by rewrite (bind_ok _ _ _ _ _ (the_connection_eq _ _ _ Hc)). }
  destruct (c_in_transaction c); [|done]. by apply connection_commit_eq.
Qed.

Lemma rollback_eq s c :
  connection (self s) = Some c →
  rollback s
  = (Ok tt,
     if c_in_transaction c
     then set_connection
            (Some (with_work c (default (c_work c)
                                  (f_data <$> w_files (env s) !! c_path c)) false)) s
     else s).
Proof.
  intros Hc. unfold rollback, connection_in_transaction.
  rewrite (bind_ok _ _ _ (c_in_transaction c) s).
  2:{ by rewrite (bind_ok _ _ _ _ _ (the_connection_eq _ _ _ Hc)). }
  destruct (c_in_transaction c); [|done].
  unfold when, connection_rollback.
  by rewrite (bind_ok _ _ _ _ _ (the_connection_eq _ _ _ Hc)).
Qed.

Lemma set_connection_same s c : connection (self s) = Some c → set_connection (Some c) s = s.
Proof. destruct s as [[] ?]. simpl. by intros ->. Qed.

Lemma with_work_same c : with_work c (c_work c) (c_in_transaction c) = c.
Proof. by destruct c. Qed.

Lemma pending_connection c s s1 :
  connection (self s) = Some c → pending c s s1 →
  ∃ db tx, connection (self s1) = Some (with_work c db tx)
           ∧ s1 = set_connection (Some (with_work c db tx)) s.
Proof.
  intros Hc [->|[db ->]].
  - exists (c_work c), (c_in_transaction c). rewrite with_work_same.
    split; [done|]. by rewrite set_connection_same.
  - by exists db, true.
Qed.

Lemma pending_files c s s1 :
  pending c s s1 → env s1 = env s.
Proof. by intros [->|[db ->]]. Qed.

(** A data statement leaves its changes pending. *)
Lemma run_statement_pending attr q params c s s1 r s2 :
  connection (self s) = Some c →
  is_dml q = true →
  pending c s s1 →
  run_statement attr q params s1 = (r, s2) →
  pending c s s2.
Proof.
  intros Hc Hq Hp Hrun.
  destruct (pending_connection _ _ _ Hc Hp) as (db & tx & Hc1 & Hs1).
  destruct (engine_run db q params) as [rep|e] eqn:He.
  - rewrite (run_statement_dml _ _ _ _ _ _ Hc1 Hq He) in Hrun.
    injection Hrun as _ <-. right. exists (r_db rep). by rewrite Hs1.
  - rewrite (run_statement_raise _ _ _ _ _ _ Hc1 He) in Hrun.
    by injection Hrun as _ <-.
Qed.

Lemma for_each_pending q c s rows : ∀ s1 r s2,
  connection (self s) = Some c →
  is_dml q = true →
  pending c s s1 →
  for_each rows (λ row, run_statement "executemany" q row ;; ret tt) s1 = (r, s2) →
  pending c s s2.
Proof.
  induction rows as [|row rows IH]; intros s1 r s2 Hc Hq Hp.
  - by intros [= _ <-].
  - simpl. unfold bind at 1. unfold bind at 1.
    destruct (run_statement _ _ _ s1) as [[rep|e] s1'] eqn:Hrun.
    + apply (run_statement_pending _ _ _ _ _ _ _ _ Hc Hq Hp) in Hrun. simpl. by apply IH.
    + apply (run_statement_pending _ _ _ _ _ _ _ _ Hc Hq Hp) in Hrun. by intros [= _ <-].
Qed.

Lemma connection_executemany_pending q c s rows r s1 :
  connection (self s) = Some c →
  is_dml q = true →
  connection_executemany q rows s = (r, s1) →
  pending c s s1.
Proof.
  intros Hc Hq. unfold connection_executemany.
  rewrite (bind_ok _ _ _ _ _ (the_connection_eq _ _ _ Hc)). rewrite Hq.
  apply for_each_pending; [done|done|by left].
Qed.

Lemma resolve_table_state table s : (resolve_table table s).2 = s.
Proof.
  destruct table as [n|td]; [|done]. unfold resolve_table, bind, gets, require.
  by destruct (dict_get n (tables (self s))).
Qed.

Lemma on_operational_error_state {A} wrap e s :
  ∃ e', @on_operational_error A wrap e s = (Raise e', s).
Proof. destruct e; by eexists. Qed.

(** Without commit, [insert], [update] and [execute] of a data statement
    leave their changes pending, however they end. *)
Lemma insert_pending table rows why c s r s1 :
  connection (self s) = Some c →
  insert table rows why false s = (r, s1) →
  pending c s s1.
Proof.
  intros Hc. unfold insert. destruct rows as [|row0 rest]; [by intros [= _ <-]; left|].
  unfold bind at 1. pose proof (resolve_table_state table s) as Hres.
  destruct (resolve_table table s) as [[td|e] s0]; simpl in Hres; subst s0;
    [|by intros [= _ <-]; left].
  unfold bind at 1, datetime_now, gets. unfold try_except, bind at 1.
  destruct (connection_executemany _ _ s) as [[[]|e] s2] eqn:Hrun;
    apply (connection_executemany_pending (Insert_into _ _) _ _ _ _ _ Hc eq_refl) in Hrun.
  - by intros [= _ <-].
  - destruct (on_operational_error_state (A := unit)
                (λ _, failed_to_execute why
                        (Insert_into (name td) (insertable_fields td row0))) e s2)
      as [e' ->].
    by intros [= _ <-].
Qed.

Lemma update_pending table row where_ subs why c s r s1 :
  connection (self s) = Some c →
  update table row where_ subs why false s = (r, s1) →
  pending c s s1.
Proof.
  intros Hc. unfold update.
  unfold bind at 1. pose proof (resolve_table_state table s) as Hres.
  destruct (resolve_table table s) as [[td|e] s0]; simpl in Hres; subst s0;
    [|by intros [= _ <-]; left].
  case_bool_decide; [by intros [= _ <-]; left|].
  unfold try_except, bind at 1, connection_execute.
  match goal with
  | |- context [run_statement ?a ?q ?p s] =>
      destruct (run_statement a q p s) as [[rep|e] s2] eqn:Hrun;
        apply (run_statement_pending _ (Update_set _ _ _) _ _ _ _ _ _ Hc eq_refl
                 (or_introl eq_refl)) in Hrun
  end.
  - by intros [= _ <-].
  - match goal with
    | |- context [on_operational_error ?w e s2] =>
        destruct (on_operational_error_state (A := Z) w e s2) as [e' ->]
    end.
    by intros [= _ <-].
Qed.

Lemma execute_pending sql subs why c s r s1 :
  connection (self s) = Some c →
  is_dml sql = true →
  execute sql subs why false s = (r, s1) →
  pending c s s1.
Proof.
  intros Hc Hq. unfold execute, try_except, bind at 1.
  assert (∀ values r2 s2,
            (connection_execute sql values ;; ret tt) s = (r2, s2) → pending c s s2)
    as Hone.
  { intros values r2 s2. unfold bind, connection_execute.
    destruct (run_statement _ _ _ s) as [[rep|e] s3] eqn:Hrun;
      apply (run_statement_pending _ _ _ _ _ _ _ _ Hc Hq (or_introl eq_refl)) in Hrun;
      by intros [= _ <-]. }
  match goal with
  | |- context [match ?m s with _ => _ end] =>
      destruct (m s) as [[[]|e] s2] eqn:Hrun
  end;
    (assert (pending c s s2) as Hp
       by (destruct subs as [|values|[|row rows]];
           first [by eapply Hone
                 |by eapply connection_executemany_pending])).
  - by intros [= _ <-].
  - destruct (on_operational_error_state (A := unit)
                (λ _, failed_to_execute why sql) e s2) as [e' ->].
    by intros [= _ <-].
Qed.

Lemma run_statement_ok_pending attr q params c s s1 rep s2 :
  connection (self s) = Some c →
  is_dml q = true →
  pending c s s1 →
  run_statement attr q params s1 = (Ok rep, s2) →
  ∃ db, s2 = set_connection (Some (with_work c db true)) s.
Proof.
  intros Hc Hq Hp Hrun.
  destruct (pending_connection _ _ _ Hc Hp) as (db & tx & Hc1 & Hs1).
  destruct (engine_run db q params) as [rep'|e] eqn:He.
  - rewrite (run_statement_dml _ _ _ _ _ _ Hc1 Hq He) in Hrun.
    injection Hrun as _ <-. exists (r_db rep'). by rewrite Hs1.
  - by rewrite (run_statement_raise _ _ _ _ _ _ Hc1 He) in Hrun.
Qed.

Lemma for_each_ok_pending q c s rows : ∀ s1 s2,
  connection (self s) = Some c →
  is_dml q = true →
  (∃ db, s1 = set_connection (Some (with_work c db true)) s) →
  for_each rows (λ row, run_statement "executemany" q row ;; ret tt) s1 = (Ok tt, s2) →
  ∃ db, s2 = set_connection (Some (with_work c db true)) s.
Proof.
  induction rows as [|row rows IH]; intros s1 s2 Hc Hq Hp.
  - by intros [= <-].
  - simpl. unfold bind at 1. unfold bind at 1.
    destruct (run_statement _ _ _ s1) as [[rep|e] s1'] eqn:Hrun; [|done].
    apply (run_statement_ok_pending _ _ _ _ _ _ _ _ Hc Hq (or_intror Hp)) in Hrun.
    simpl. by apply IH.
Qed.

Lemma connection_executemany_ok q c s row rows s1 :
  connection (self s) = Some c →
  is_dml q = true →
  connection_executemany q (row :: rows) s = (Ok tt, s1) →
  ∃ db, s1 = set_connection (Some (with_work c db true)) s.
Proof.
  intros Hc Hq. unfold connection_executemany.
  rewrite (bind_ok _ _ _ _ _ (the_connection_eq _ _ _ Hc)). rewrite Hq.
  simpl. unfold bind at 1. unfold bind at 1.
  destruct (run_statement _ _ _ s) as [[rep|e] s1'] eqn:Hrun; [|done].
  apply (run_statement_ok_pending _ _ _ _ _ _ _ _ Hc Hq (or_introl eq_refl)) in Hrun.
  simpl. by apply for_each_ok_pending.
Qed.

(** On changes that are pending, [commit] is the commit of the
    connection. *)
Lemma commit_pending c db s :
  commit (set_connection (Some (with_work c db true)) s)
  = connection_commit (set_connection (Some (with_work c db true)) s).
Proof.
  rewrite (commit_eq _ (with_work c db true)) by done.
  by rewrite (connection_commit_eq _ (with_work c db true)).
Qed.

Lemma rollback_pending c s s1 :
  in_step s c → pending c s s1 → rollback s1 = (Ok tt, s).
Proof.
  intros (Hc & Htx & Hfile) [->|[db ->]].
  - rewrite (rollback_eq _ _ Hc). by rewrite Htx.
  - rewrite (rollback_eq _ (with_work c db true)) by done. simpl.
    rewrite Hfile. simpl. f_equal.
    rewrite <- (set_connection_same s c) at 2 by done.
    unfold with_work. simpl. rewrite <- Htx. by destruct c.
Qed.

(** X10.  On a connected store with nothing pending, what [insert],
    [update], or [execute] of a data statement do without commit does not
    reach the file, and [rollback] afterwards puts the store back exactly
    as it was, whether the operation returned or raised part-way. *)
Theorem rollback_undoes_uncommitted s c :
  in_step s c →
  (∀ table rows why r s1,
     insert table rows why false s = (r, s1) →
     w_files (env s1) = w_files (env s) ∧ rollback s1 = (Ok tt, s))
  ∧ (∀ table row where_ subs why r s1,
       update table row where_ subs why false s = (r, s1) →
       w_files (env s1) = w_files (env s) ∧ rollback s1 = (Ok tt, s))
  ∧ (∀ sql subs why r s1,
       is_dml sql = true →
       execute sql subs why false s = (r, s1) →
       w_files (env s1) = w_files (env s) ∧ rollback s1 = (Ok tt, s)).
Proof.
  intros Hin. pose proof Hin as (Hc & _). split_and!.
  - intros table rows why r s1 Hrun.
    apply (insert_pending _ _ _ _ _ _ _ Hc) in Hrun.
    split; [by rewrite (pending_files _ _ _ Hrun)|by eapply rollback_pending].
  - intros table row where_ subs why r s1 Hrun.
    apply (update_pending _ _ _ _ _ _ _ _ _ Hc) in Hrun.
    split; [by rewrite (pending_files _ _ _ Hrun)|by eapply rollback_pending].
  - intros sql subs why r s1 Hq Hrun.
    apply (execute_pending _ _ _ _ _ _ _ Hc Hq) in Hrun.
    split; [by rewrite (pending_files _ _ _ Hrun)|by eapply rollback_pending].
Qed.

Lemma insert_unfold table td row0 rest why should_commit s :
  resolve_table table s = (Ok td, s) →
  insert table (row0 :: rest) why should_commit s
  = try_except
      (connection_executemany (Insert_into (name td) (insertable_fields td row0))
         (values_row td (w_now (env s)) <$> row0 :: rest) ;;
       when should_commit connection_commit)
      (on_operational_error
         (λ _, failed_to_execute why (Insert_into (name td) (insertable_fields td row0)))) s.
Proof. intros Ht. unfold insert. by rewrite (bind_ok _ _ _ _ _ Ht). Qed.

Lemma insert_unresolved table e row0 rest why should_commit s :
  resolve_table table s = (Raise e, s) →
  insert table (row0 :: rest) why should_commit s = (Raise e, s).
Proof. intros Ht. unfold insert. by rewrite (bind_raise _ _ _ _ _ Ht). Qed.

Lemma update_unresolved table e row where_ subs why should_commit s :
  resolve_table table s = (Raise e, s) →
  update table row where_ subs why should_commit s = (Raise e, s).
Proof. intros Ht. unfold update. by rewrite (bind_raise _ _ _ _ _ Ht). Qed.

Lemma resolve_table_cases table s :
  (∃ td, resolve_table table s = (Ok td, s)) ∨ (∃ e, resolve_table table s = (Raise e, s)).
Proof.
  pose proof (resolve_table_state table s) as Hres.
  destruct (resolve_table table s) as [[td|e] s0]; simpl in Hres; subst s0; eauto.
Qed.

(** X11.  On a connected store with no transaction open, [insert] and
    [update] without commit followed by [commit] do what they do with
    commit: the same outcome and the same state. *)
Theorem commit_later_is_commit_within s c :
  connection (self s) = Some c →
  c_in_transaction c = false →
  (∀ table rows why,
     (insert table rows why false ;; commit) s = insert table rows why true s)
  ∧ (∀ table row where_ subs why,
       (n ← update table row where_ subs why false; commit ;; ret n) s
       = update table row where_ subs why true s).
Proof.
  intros Hc Htx. split.
  - intros table rows why. destruct rows as [|row0 rest].
    { unfold insert, bind, ret. rewrite (commit_eq _ _ Hc). by rewrite Htx. }
    destruct (resolve_table_cases table s) as [[td Ht]|[e Ht]].
    2:{ unfold bind. by rewrite !(insert_unresolved _ _ _ _ _ _ _ Ht). }
    unfold bind at 1. rewrite !(insert_unfold _ _ _ _ _ _ _ Ht).
    unfold try_except, bind.
    destruct (connection_executemany _ _ s) as [[[]|e] s2] eqn:Hrun.
    + apply (connection_executemany_ok (Insert_into _ _) _ _ _ _ _ Hc eq_refl) in Hrun
        as [db ->].
      cbn [when ret]. rewrite commit_pending.
      by rewrite (connection_commit_eq _ (with_work c db true)).
    + destruct (on_operational_error_state (A := unit)
                  (λ _, failed_to_execute why
                          (Insert_into (name td) (insertable_fields td row0))) e s2)
        as [e' ->].
      done.
  - intros table row where_ subs why.
    destruct (resolve_table_cases table s) as [[td Ht]|[e Ht]].
    2:{ unfold bind at 1. by rewrite !(update_unresolved _ _ _ _ _ _ _ _ Ht). }
    unfold bind at 1. rewrite !(update_unfold _ _ _ _ _ _ _ _ Ht). cbv zeta.
    case_bool_decide; [done|].
    unfold try_except, bind, connection_execute.
    match goal with
    | |- context [run_statement ?a ?q ?p s] =>
        destruct (run_statement a q p s) as [[rep|e] s2] eqn:Hrun
    end.
    + apply (run_statement_ok_pending _ (Update_set _ _ _) _ _ _ _ _ _ Hc eq_refl
               (or_introl eq_refl)) in Hrun as [db ->].
      cbn [when ret]. rewrite commit_pending.
      by rewrite (connection_commit_eq _ (with_work c db true)).
    + match goal with
      | |- context [on_operational_error ?w e s2] =>
          destruct (on_operational_error_state (A := Z) w e s2) as [e' ->]
      end.
      done.
Qed.

Lemma in_step_commit_db c db s : in_step (commit_db c db s) (with_work c db false).
Proof.
  split_and!; [apply commit_db_connection|done|].
  rewrite commit_db_unfold. simpl. by rewrite lookup_insert_eq.
Qed.

Lemma in_step_settled s c :
  in_step s c → rollback s = (Ok tt, s) ∧ commit s = (Ok tt, s).
Proof.
  intros (Hc & Htx & _). rewrite (rollback_eq _ _ Hc), (commit_eq _ _ Hc).
  by rewrite Htx.
Qed.

(** X12.  When [insert] or [update] with commit returns, nothing is
    pending: the file holds the database as the connection sees it, and
    neither [rollback] nor [commit] changes anything any more. *)
Theorem committed_is_final s c :
  connection (self s) = Some c →
  (∀ table row rows why s',
     insert table (row :: rows) why true s = (Ok tt, s') →
     ∃ c', in_step s' c' ∧ rollback s' = (Ok tt, s') ∧ commit s' = (Ok tt, s'))
  ∧ (∀ table row where_ subs why n s',
       update table row where_ subs why true s = (Ok n, s') →
       ∃ c', in_step s' c' ∧ rollback s' = (Ok tt, s') ∧ commit s' = (Ok tt, s')).
Proof.
  intros Hc. split.
  - intros table row0 rest why s'.
    destruct (resolve_table_cases table s) as [[td Ht]|[e Ht]];
      [|by rewrite (insert_unresolved _ _ _ _ _ _ _ Ht)].
    rewrite (insert_unfold _ _ _ _ _ _ _ Ht). unfold try_except, bind.
    destruct (connection_executemany _ _ s) as [[[]|e] s2] eqn:Hrun.
    + apply (connection_executemany_ok (Insert_into _ _) _ _ _ _ _ Hc eq_refl) in Hrun
        as [db ->].
      cbn [when]. rewrite (connection_commit_eq _ (with_work c db true)) by done.
      intros [= <-]. rewrite commit_db_with_work.
      exists (with_work c db false).
      split; [apply in_step_commit_db|]. apply (in_step_settled _ _ (in_step_commit_db _ _ _)).
    + destruct (on_operational_error_state (A := unit)
                  (λ _, failed_to_execute why
                          (Insert_into (name td) (insertable_fields td row0))) e s2)
        as [e' ->].
      done.
  - intros table row where_ subs why n s'.
    destruct (resolve_table_cases table s) as [[td Ht]|[e Ht]];
      [|by rewrite (update_unresolved _ _ _ _ _ _ _ _ Ht)].
    rewrite (update_unfold _ _ _ _ _ _ _ _ Ht). cbv zeta.
    case_bool_decide; [done|].
    unfold try_except, bind, connection_execute.
    match goal with
    | |- context [run_statement ?a ?q ?p s] =>
        destruct (run_statement a q p s) as [[rep|e] s2] eqn:Hrun
    end.
    + apply (run_statement_ok_pending _ (Update_set _ _ _) _ _ _ _ _ _ Hc eq_refl
               (or_introl eq_refl)) in Hrun as [db ->].
      cbn [when]. rewrite (connection_commit_eq _ (with_work c db true)) by done.
      intros [= _ <-]. rewrite commit_db_with_work.
      exists (with_work c db false).
      split; [apply in_step_commit_db|]. apply (in_step_settled _ _ (in_step_commit_db _ _ _)).
    + match goal with
      | |- context [on_operational_error ?w e s2] =>
          destruct (on_operational_error_state (A := Z) w e s2) as [e' ->]
      end.
      done.
Qed.

Lemma rollback_undoes_uncommitted_witness :
  ∃ s1,
    insert (By_name "revision") [{["number" := VInt 1]}] None false example_open = (Ok tt, s1)
    ∧ s1 ≠ example_open
    ∧ rollback s1 = (Ok tt, example_open).
Proof.
  destruct (insert (By_name "revision") [{["number" := VInt 1]}] None false example_open)
    as [r s1] eqn:Hrun.
  destruct (proj1 (rollback_undoes_uncommitted example_open
                     (with_work (opened_connection "/data/main.sqlite" ∅)
                        {["revision" := revision_table []]} false)
                     ltac:(by split_and!; vm_compute))
              (By_name "revision") [{["number" := VInt 1]}] None r s1 Hrun)
    as [_ Hback].
  exists s1. vm_compute in Hrun. injection Hrun as <- <-.
  split; [reflexivity|]. split; [by vm_compute|exact Hback].
Defined.

Lemma commit_later_is_commit_within_witness :
  (insert (By_name "revision") [{["number" := VInt 1]}] None false ;; commit) example_open
  = insert (By_name "revision") [{["number" := VInt 1]}] None true example_open.
Proof.
  apply (proj1 (commit_later_is_commit_within example_open
                  (with_work (opened_connection "/data/main.sqlite" ∅)
                     {["revision" := revision_table []]} false) eq_refl eq_refl)).
Defined.

Lemma committed_is_final_witness :
  ∃ s', insert (By_name "revision") [{["number" := VInt 1]}] None true example_open
        = (Ok tt, s')
        ∧ rollback s' = (Ok tt, s').
Proof.
  destruct (insert (By_name "revision") [{["number" := VInt 1]}] None true example_open)
    as [r s'] eqn:Hrun.
  assert (r = Ok tt) as -> by (vm_compute in Hrun; by injection Hrun as <- _).
  destruct (proj1 (committed_is_final example_open
                     (with_work (opened_connection "/data/main.sqlite" ∅)
                        {["revision" := revision_table []]} false) eq_refl)
              (By_name "revision") {["number" := VInt 1]} [] None s' Hrun)
    as (c' & _ & Hback & _).
  exists s'. split; [reflexivity|exact Hback].
Defined.

(** ** connect: the revision it reads *)

Lemma first_missing_one c cols :
  first_missing [c] cols = if has_key c cols then None else Some c.
Proof.
  unfold first_missing. rewrite filter_cons, filter_nil.
  destruct (has_key c cols); [by rewrite decide_False|by rewrite decide_True].
Qed.

Section read_revision.
Context `{!Explain}.

Lemma read_revision s c :
  connection (self s) = Some c →
  try_except
    (records ← query (Select_from ["number"] Tablenames.REVISION) []
                 (Some "get database revision");
     match records with
     | [] => ret (VInt 0)
     | record :: _ =>
         match dict_get "number" record with
         | Some v => ret v
         | None => raise (KeyError "number")
         end
     end)
    (λ _, ret (VInt 0)) s
  = (Ok (stored_revision (c_work c)), cursor_closed (c_cursor_seq c) (cursor_opened c s)).
Proof.
  intros Hc. unfold try_except, bind.
  rewrite (query_run _ _ _ _ _ Hc). unfold Tablenames.REVISION.
  pose (c1 := Connection (c_path c) (c_work c) (c_in_transaction c)
                (c_row_factory c) (c_functions c)
                (c_cursors c ++ [c_cursor_seq c]) (S (c_cursor_seq c))).
  assert (connection (self (cursor_opened c s)) = Some c1) as Hc1 by done.
  destruct (engine_run (c_work c) _ _) as [reply|e] eqn:He.
  - rewrite (run_statement_select _ _ _ _ _ c1 reply Hc1 He).
    revert He. unfold engine_run, stored_revision.
    destruct (c_work c !! "revision") as [tb|]; [|done].
    rewrite first_missing_one.
    destruct (has_key "number" (column_names tb)) eqn:Hk; [|done].
    simpl. intros [= <-]. simpl. by destruct (t_rows tb) as [|row rows].
  - rewrite (run_statement_raise _ _ _ _ c1 e Hc1 He).
    assert (stored_revision (c_work c) = VInt 0) as ->.
    { revert He. unfold engine_run, stored_revision.
      destruct (c_work c !! "revision") as [tb|]; [|done].
      rewrite first_missing_one.
      by destruct (has_key "number" (column_names tb)) eqn:Hk. }
    by destruct e.
Qed.

(** On a store at the latest revision or past it, nothing follows the
    reading of the revision. *)
Lemma connect_existing_settled s c n :
  connection (self s) = Some c →
  stored_revision (c_work c) = VInt n →
  LATEST_REVISION (self s) ≤ n →
  connect_existing s = (Ok tt, cursor_closed (c_cursor_seq c) (cursor_opened c s)).
Proof.
  intros Hc Hn Hl. unfold connect_existing.
  rewrite (bind_ok _ _ _ _ _ (read_revision _ _ Hc)). rewrite Hn.
  unfold bind at 1, gets at 1.
  change (LATEST_REVISION (self (cursor_closed _ _))) with (LATEST_REVISION (self s)).
  by rewrite bool_decide_eq_false_2 by lia.
Qed.


End read_revision.


Section connect_again.
Context `{!Explain}.

Lemma connect_settled s f n :
  w_files (env s) !! filename (self s) = Some f →
  stored_revision (f_data f) = VInt n →
  LATEST_REVISION (self s) ≤ n →
  connect s = (Ok tt, opened_settled (f_data f) s).
Proof.
  intros Hf Hn Hl. rewrite (connect_existing_file _ _ Hf).
  by rewrite (connect_existing_settled _ (opened_connection (filename (self s)) (f_data f)) n).
Qed.

Lemma in_step_opened_settled s f :
  w_files (env s) !! filename (self s) = Some f →
  in_step (opened_settled (f_data f) s)
    (Connection (filename (self s)) (f_data f) false true [("regexp", 2%nat)] [] 1).
Proof. intros Hf. split_and!; [done|done|]. simpl. by rewrite Hf. Qed.

(** X13.  [connect] on a file whose stored revision is the latest one, or
    a later one, changes no file and no directory and writes no record of
    migration: it opens the connection on the database of the file, reads
    the revision through a cursor that it closes, and leaves nothing
    pending. *)
Theorem connect_settled_store s f n :
  w_files (env s) !! filename (self s) = Some f →
  stored_revision (f_data f) = VInt n →
  LATEST_REVISION (self s) ≤ n →
  ∃ s' c,
    connect s = (Ok tt, s')
    ∧ w_files (env s') = w_files (env s)
    ∧ w_dirs (env s') = w_dirs (env s)
    ∧ w_trace (env s')
      = w_trace (env s) ++ [Ev_connect (filename (self s)); Ev_cursor 0; Ev_cursor_close 0]
    ∧ in_step s' c
    ∧ c_path c = filename (self s)
    ∧ c_work c = f_data f
    ∧ c_cursors c = [].
Proof.
  intros Hf Hn Hl. eexists _, _. split; [by eapply connect_settled|].
  split_and!; [done|done| |by apply in_step_opened_settled|done|done|done].
  simpl. by rewrite <- !app_assoc.
Qed.



End connect_again.

Lemma connect_settled_store_witness :
  ∃ s', connect (H := explain_plainly) example_current = (Ok tt, s')
        ∧ w_files (env s') = w_files (env example_current).
Proof.
  destruct (@connect_settled_store explain_plainly example_current
              (File {["revision" :=
                        revision_table [[VStr "2024-04-01 09:00:00.000000"; VInt 1]]]} 438)
              1)
    as (s' & c & Hs' & Hfiles & _).
  - reflexivity.
  - reflexivity.
  - by vm_compute.
  - exists s'. split; [exact Hs'|exact Hfiles].
Defined.



(** ** Names of snapshots *)

Lemma app_string_cons a s t : String a s +:+ t = String a (s +:+ t).
Proof. done. Qed.

Lemma app_string_nil_l s : "" +:+ s = s.
Proof. done. Qed.

Lemma app_string_nil_r s : s +:+ "" = s.
Proof. induction s as [|a s IH]; [done|]. by rewrite app_string_cons, IH. Qed.

Lemma app_string_assoc s1 s2 s3 : (s1 +:+ s2) +:+ s3 = s1 +:+ s2 +:+ s3.
Proof. induction s1 as [|a s1 IH]; [done|]. by rewrite !app_string_cons, IH. Qed.

Lemma has_char_app c s1 s2 :
  Path.has_char c (s1 +:+ s2) = Path.has_char c s1 || Path.has_char c s2.
Proof.
  induction s1 as [|a s1 IH]; [done|]. rewrite app_string_cons. simpl.
  rewrite IH. by rewrite orb_assoc.
Qed.

Lemma split_last_None c s : Path.split_last c s = None ↔ Path.has_char c s = false.
Proof.
  induction s as [|a s IH]; simpl; [done|].
  destruct (Path.split_last c s) as [[b t]|].
  - split; [done|]. intros [_ Hs]%orb_false_iff. by apply IH in Hs.
  - destruct (Ascii.eqb a c); simpl; [done|]. by rewrite <- IH.
Qed.

Lemma split_last_Some c s b t :
  Path.split_last c s = Some (b, t) →
  s = b +:+ String c t ∧ Path.has_char c t = false.
Proof.
  revert b t. induction s as [|a s IH]; intros b t; simpl; [done|].
  destruct (Path.split_last c s) as [[b' t']|] eqn:Hs.
  - intros [= <- <-]. destruct (IH b' t' eq_refl) as [-> Ht]. done.
  - destruct (Ascii.eqb a c) eqn:Ha; [|done]. intros [= <- <-].
    apply Ascii.eqb_eq in Ha as ->. split; [done|]. by apply split_last_None.
Qed.

Lemma split_last_app c b t :
  Path.has_char c t = false → Path.split_last c (b +:+ String c t) = Some (b, t).
Proof.
  intros Ht. induction b as [|a b IH]; simpl.
  - apply split_last_None in Ht. rewrite Ht. by rewrite Ascii.eqb_refl.
  - by rewrite IH.
Qed.

Lemma strip_prefix_Some pre s rest :
  Path.strip_prefix pre s = Some rest ↔ s = pre +:+ rest.
Proof.
  revert s. induction pre as [|a pre IH]; intros s; simpl.
  - split; [by intros [= ->]|by intros ->].
  - destruct s as [|b s]; [done|].
    destruct (Ascii.eqb a b) eqn:Hab.
    + apply Ascii.eqb_eq in Hab as ->. rewrite IH. split; [by intros ->|by intros [= ->]].
    + apply Ascii.eqb_neq in Hab. split; [done|]. by intros [= ? _].
Qed.

Lemma length_rev_app s1 s2 :
  String.length (String.rev_app s1 s2) = (String.length s1 + String.length s2)%nat.
Proof.
  revert s2. induction s1 as [|a s1 IH]; intros s2; simpl; [done|].
  rewrite IH. simpl. lia.
Qed.

Lemma length_rev s : String.length (String.rev s) = String.length s.
Proof. unfold String.rev. rewrite length_rev_app. simpl. lia. Qed.

Lemma rev_app_app s1 s2 : String.rev_app s1 s2 = String.rev s1 +:+ s2.
Proof.
  unfold String.rev. revert s2. induction s1 as [|a s1 IH]; intros s2; simpl; [done|].
  rewrite (IH (String a s2)), (IH (String a "")). by rewrite app_string_assoc.
Qed.

Lemma rev_app_string s1 s2 : String.rev (s1 +:+ s2) = String.rev s2 +:+ String.rev s1.
Proof.
  induction s1 as [|a s1 IH]; simpl.
  - by rewrite app_string_nil_r.
  - unfold String.rev at 1 3. simpl. rewrite !rev_app_app, IH.
    by rewrite app_string_assoc.
Qed.

Lemma rev_involutive s : String.rev (String.rev s) = s.
Proof.
  induction s as [|a s IH]; [done|].
  unfold String.rev at 2. simpl. rewrite rev_app_app, rev_app_string, IH. done.
Qed.

Lemma strip_suffix_Some suf s x :
  Path.strip_suffix suf s = Some x ↔ s = x +:+ suf.
Proof.
  unfold Path.strip_suffix. split.
  - destruct (Path.strip_prefix _ _) as [y|] eqn:Hy; [|done]. simpl. intros [= <-].
    apply strip_prefix_Some in Hy.
    rewrite <- (rev_involutive s), Hy, rev_app_string. by rewrite rev_involutive.
  - intros ->. rewrite rev_app_string.
    rewrite (proj2 (strip_prefix_Some _ _ (String.rev x)) eq_refl). simpl.
    by rewrite rev_involutive.
Qed.

Lemma star_match_spec pre suf p :
  Path.star_match pre suf p = true ↔
  ∃ x, p = pre +:+ x +:+ suf ∧ Path.has_char "/" (x +:+ suf) = false.
Proof.
  unfold Path.star_match. split.
  - destruct (Path.strip_prefix pre p) as [rest|] eqn:Hrest; [|done].
    destruct (Path.strip_suffix suf rest) as [x|] eqn:Hx; [|done].
    apply strip_prefix_Some in Hrest. apply strip_suffix_Some in Hx. subst.
    intros Hs%negb_true_iff. eauto.
  - intros (x & -> & Hs).
    rewrite (proj2 (strip_prefix_Some _ _ (x +:+ suf)) eq_refl).
    rewrite (proj2 (strip_suffix_Some _ _ x) eq_refl). by rewrite Hs.
Qed.

Lemma basename_no_slash p : Path.has_char "/" (Path.basename p) = false.
Proof.
  unfold Path.basename, Path.split.
  destruct (Path.split_last "/" p) as [[b t]|] eqn:Hs; simpl.
  - by apply split_last_Some in Hs as [_ ?].
  - by apply split_last_None.
Qed.

Lemma basename_app b u :
  Path.has_char "/" u = false → Path.basename (b +:+ "/" +:+ u) = u.
Proof.
  intros Hu. unfold Path.basename, Path.split.
  change (b +:+ "/" +:+ u) with (b +:+ String "/" u).
  by rewrite (split_last_app _ _ _ Hu).
Qed.

Lemma splitext_app p : (Path.splitext p).1 +:+ (Path.splitext p).2 = p.
Proof.
  unfold Path.splitext.
  destruct (Path.split_last "/" p) as [[d after_sep]|] eqn:Hd;
    destruct (Path.split_last "." p) as [[b t]|] eqn:Hb; simpl;
    try apply app_string_nil_r.
  - apply split_last_Some in Hb as [-> _].
    destruct (Path.split_last "." after_sep) as [[b' t']|]; simpl;
      [|apply app_string_nil_r].
    destruct (Path.all_char "." b'); simpl; [apply app_string_nil_r|done].
  - apply split_last_Some in Hb as [-> _].
    destruct (Path.all_char "." b); simpl; [apply app_string_nil_r|done].
Qed.

Lemma app_string_length_inj s t1 t2 : s +:+ t1 = s +:+ t2 → t1 = t2.
Proof. apply (inj (String.app s)). Qed.

(** The live file does not have the shape of a snapshot name of its own
    store. *)
Lemma live_file_no_snapshot o :
  Path.star_match (snapshot_prefix o) (snapshot_suffix o) (filename o) = false.
Proof.
  apply not_true_is_false. intros (x & Hfn & Hx)%star_match_spec.
  unfold snapshot_prefix, snapshot_suffix in *.
  set (t := Path.basename (filename o)) in *.
  set (base := (Path.splitext t).1) in *. set (suffix := (Path.splitext t).2) in *.
  assert (base +:+ suffix = t) as Ht by apply splitext_app.
  assert (Path.has_char "/" base = false) as Hbase.
  { pose proof (basename_no_slash (filename o)) as Hno. fold t in Hno.
    rewrite <- Ht, has_char_app in Hno. by apply orb_false_iff in Hno as [? _]. }
  assert (t = (base +:+ ".") +:+ x +:+ suffix) as Ht'.
  { unfold t at 1. rewrite Hfn. rewrite !app_string_assoc.
    apply basename_app. rewrite <- app_string_assoc, has_char_app, has_char_app, Hbase, Hx.
    done. }
  rewrite <- Ht in Ht' at 1. rewrite app_string_assoc in Ht'.
  apply app_string_length_inj in Ht'.
  apply (f_equal String.length) in Ht'. rewrite !length_app_string in Ht'.
  simpl in Ht'. lia.
Qed.

Lemma live_file_not_in_listing s : filename (self s) ∉ listing s.
Proof. intros [_ Hm]%listing_elem. by rewrite live_file_no_snapshot in Hm. Qed.

(** X16.  The live file of a store is never in the snapshot listing of
    that store, whatever the file name and the backup directory: the
    pruning of [backup] does not remove it, and [restore] does not copy it
    onto itself. *)
Theorem live_file_never_listed s :
  (filename (self s) ∉ listing s)
  ∧ (w_files (env (backup_prune s).2) !! filename (self s)
     = w_files (env s) !! filename (self s))
  ∧ (∀ nth src, py_index (listing s) nth = Some src → src ≠ filename (self s)).
Proof.
  pose proof (live_file_not_in_listing s) as Hnot.
  split_and!; [done| |].
  - destruct (decide (last_restore (self s) ≤ Z.of_nat (length (listing s)))) as [Hk|Hk].
    + rewrite (backup_prune_eq _ Hk). simpl. rewrite pruned_files.
      rewrite bool_decide_eq_false_2; [done|].
      intros Hin. apply Hnot. eapply subseteq_take, Hin.
    + rewrite backup_prune_beyond_eq by lia. simpl. rewrite pruned_files.
      by rewrite bool_decide_eq_false_2.
  - intros nth src Hsrc ->. apply Hnot. by eapply py_index_elem.
Qed.


Lemma live_file_never_listed_witness :
  ("/data/main.sqlite" ∉ listing (example_state 0 false))
  ∧ ∀ src, py_index (listing (example_state 0 false)) (-1) = Some src →
           src ≠ "/data/main.sqlite".
Proof.
  destruct (live_file_never_listed (example_state 0 false))
    as (Hnot & _ & Hsrc).
  split; [exact Hnot|]. intros src. apply Hsrc.
Defined.

(** ** The listing as a function of the files *)

Global Instance newest_first_antisymm : AntiSymm (=) newest_first.
Proof. intros a b Hab Hba. unfold newest_first in *. by apply (anti_symm String.le). Qed.

Lemma listing_ext s1 s2 :
  (∀ f, f ∈ listing s1 ↔ f ∈ listing s2) → listing s1 = listing s2.
Proof.
  intros Hel. apply (StronglySorted_unique newest_first); [apply listing_sorted..|].
  apply NoDup_Permutation; [apply listing_NoDup..|done].
Qed.


(** ** The name of the new snapshot *)





Section target.
Context (s : state) (Hstamp : Path.has_char "/" (w_stamp (env s)) = false).





End target.

(** ** backup and restore when the copy goes well *)


Lemma disconnected_self s :
  filename (self (disconnected s)) = filename (self s)
  ∧ backup_directory (self (disconnected s)) = backup_directory (self s)
  ∧ LATEST_REVISION (self (disconnected s)) = LATEST_REVISION (self s)
  ∧ last_restore (self (disconnected s)) = last_restore (self s)
  ∧ tables (self (disconnected s)) = tables (self s)
  ∧ connection (self (disconnected s)) = None.
Proof. unfold disconnected. by destruct (connection (self s)) eqn:Hc. Qed.

Section copy_ok.
Context `{!Explain}.



End copy_ok.

(** ** The states [backup] and [restore] leave *)

Lemma opened_settled_env db s :
  w_files (env (opened_settled db s)) = w_files (env s)
  ∧ w_dirs (env (opened_settled db s)) = w_dirs (env s)
  ∧ w_copy_fault (env (opened_settled db s)) = w_copy_fault (env s)
  ∧ w_stamp (env (opened_settled db s)) = w_stamp (env s).
Proof. done. Qed.








(** The listing looks at the snapshots only. *)
Lemma listing_live_changed s1 s2 : live_changed s1 s2 → listing s2 = listing s1.
Proof.
  intros (Hfn & Hbd & _ & Hfiles & _).
  assert (snapshot_prefix (self s2) = snapshot_prefix (self s1)) as Hpre
    by (unfold snapshot_prefix; by rewrite Hfn, Hbd).
  assert (snapshot_suffix (self s2) = snapshot_suffix (self s1)) as Hsuf
    by (unfold snapshot_suffix; by rewrite Hfn).
  apply listing_ext. intros f. rewrite !listing_elem, Hpre, Hsuf.
  destruct (decide (f = filename (self s1))) as [->|Hne].
  - rewrite live_file_no_snapshot. split; by intros [_ ?].
  - by rewrite Hfiles.
Qed.






(** ** backup and restore, composed *)

Section snapshots.
Context `{!Explain}.








End snapshots.








(** ** The data operations write to the store's file only *)

Lemma stays_refl s : stays s s.
Proof. intros Hown. by split_and!. Qed.

Lemma stays_trans s1 s2 s3 : stays s1 s2 → stays s2 s3 → stays s1 s3.
Proof.
  intros H12 H23 Hown.
  destruct (H12 Hown) as (Hown2 & Hfn & Hbd & Hl & Hlr & Hlk & Ht & Hf & Hd & Hu & Hc & Hst).
  destruct (H23 Hown2)
    as (Hown3 & Hfn' & Hbd' & Hl' & Hlr' & Hlk' & Ht' & Hf' & Hd' & Hu' & Hc' & Hst').
  split_and!; try done; try congruence.
  intros p Hp. rewrite Hf' by congruence. by apply Hf.
Qed.

Lemma stays_record_event e s : stays s (record_event e s).
Proof. intros Hown. by split_and!. Qed.

Lemma stays_set_connection c c' s :
  connection (self s) = Some c → c_path c' = c_path c →
  stays s (set_connection (Some c') s).
Proof.
  intros Hc Hp Hown. split_and!; try done.
  intros c0 [= <-]. rewrite Hp. by apply Hown.
Qed.

Lemma stays_flush c s :
  connection (self s) = Some c → stays s (flush c s).
Proof.
  intros Hc Hown. split_and!; try done.
  intros p Hp. unfold flush. simpl. rewrite lookup_insert_ne; [done|].
  rewrite (Hown _ Hc). done.
Qed.

Section quiet_rules.

Lemma quiet_ret {A} (a : A) : quiet (ret a).
Proof. intros s r s' [= _ <-]. apply stays_refl. Qed.

Lemma quiet_raise {A} e : quiet (@raise A e).
Proof. intros s r s' [= _ <-]. apply stays_refl. Qed.

Lemma quiet_gets {A} (f : state → A) : quiet (gets f).
Proof. intros s r s' [= _ <-]. apply stays_refl. Qed.

Lemma quiet_emit e : quiet (emit e).
Proof. intros s r s' [= _ <-]. apply stays_record_event. Qed.

Lemma quiet_bind {A B} (m : M A) (f : A → M B) :
  quiet m → (∀ a, quiet (f a)) → quiet (bind m f).
Proof.
  intros Hm Hf s r s'. unfold bind.
  destruct (m s) as [[a|e] s1] eqn:Hms.
  - intros Hfs. eapply stays_trans; [by eapply Hm|by eapply Hf].
  - intros [= _ <-]. by eapply Hm.
Qed.

Lemma quiet_try_except {A} (body : M A) handler :
  quiet body → (∀ e, quiet (handler e)) → quiet (try_except body handler).
Proof.
  intros Hb Hh s r s'. unfold try_except.
  destruct (body s) as [[a|e] s1] eqn:Hbs.
  - intros [= _ <-]. by eapply Hb.
  - intros Hhs. eapply stays_trans; [by eapply Hb|by eapply Hh].
Qed.

Lemma quiet_try_finally {A} (body : M A) final :
  quiet body → quiet final → quiet (try_finally body final).
Proof.
  intros Hb Hf s r s'. unfold try_finally.
  destruct (body s) as [rb s1] eqn:Hbs.
  destruct (final s1) as [[[]|e] s2] eqn:Hfs; intros [= _ <-];
    (eapply stays_trans; [by eapply Hb|by eapply Hf]).
Qed.

Lemma quiet_for_each {A} (l : list A) body :
  (∀ x, quiet (body x)) → quiet (for_each l body).
Proof.
  intros Hb. induction l as [|x l IH]; simpl; [apply quiet_ret|].
  apply quiet_bind; [apply Hb|by intros _].
Qed.

Lemma quiet_when b m : quiet m → quiet (when b m).
Proof. intros Hm. destruct b; [done|apply quiet_ret]. Qed.

Lemma quiet_on_operational_error {A} wrap e : quiet (@on_operational_error A wrap e).
Proof. destruct e; apply quiet_raise. Qed.

Lemma quiet_getitem {A} (l : list A) i : quiet (getitem l i).
Proof. unfold getitem. destruct (py_index l i); [apply quiet_ret|apply quiet_raise]. Qed.

End quiet_rules.

Ltac quiet_step :=
  lazymatch goal with
  | |- quiet (bind _ _) => apply quiet_bind; [|intros]
  | |- quiet (try_except _ _) => apply quiet_try_except; [|intros]
  | |- quiet (try_finally _ _) => apply quiet_try_finally
  | |- quiet (for_each _ _) => apply quiet_for_each; intros
  | |- quiet (when _ _) => apply quiet_when
  | |- quiet (ret _) => apply quiet_ret
  | |- quiet (raise _) => apply quiet_raise
  | |- quiet (gets _) => apply quiet_gets
  | |- quiet (emit _) => apply quiet_emit
  | |- quiet (on_operational_error _ _) => apply quiet_on_operational_error
  | |- quiet (getitem _ _) => apply quiet_getitem
  | |- quiet _ => solve [eauto with quiet]
  end.
Ltac quiet_go := repeat quiet_step.

Create HintDb quiet discriminated.

Lemma quiet_the_connection attr : quiet (the_connection attr).
Proof. unfold the_connection. quiet_go. destruct a; quiet_go. Qed.
#[export] Hint Resolve quiet_the_connection : quiet.

Lemma quiet_run_statement attr q params : quiet (run_statement attr q params).
Proof.
  intros s r s'. unfold run_statement, the_connection, bind, gets, ret, raise, modify.
  destruct (connection (self s)) as [c|] eqn:Hc; [|intros [= _ <-]; apply stays_refl].
  destruct (engine_run (c_work c) q params) as [rep|e];
    [|intros [= _ <-]; apply stays_refl].
  set (c' := Connection (c_path c) (r_db rep) (c_in_transaction c || is_dml q)
               (c_row_factory c) (c_functions c) (c_cursors c) (c_cursor_seq c)).
  assert (stays s (set_connection (Some c') s)) as Hset
    by (by apply (stays_set_connection c)).
  assert (stays s (flush c' (set_connection (Some c') s))) as Hflush.
  { eapply stays_trans; [exact Hset|]. by apply stays_flush. }
  destruct q; intros [= _ <-]; try apply stays_refl; cbv zeta;
    match goal with
    | |- stays _ (if ?b then _ else _) => by destruct b
    end.
Qed.
#[export] Hint Resolve quiet_run_statement : quiet.

Lemma quiet_connection_execute q params : quiet (connection_execute q params).
Proof. apply quiet_run_statement. Qed.

Lemma quiet_cursor_execute q params : quiet (cursor_execute q params).
Proof. apply quiet_run_statement. Qed.

Lemma quiet_connection_executemany q rows : quiet (connection_executemany q rows).
Proof. unfold connection_executemany. quiet_go. destruct (is_dml q); quiet_go. Qed.

Lemma quiet_connection_commit : quiet connection_commit.
Proof.
  intros s r s'. unfold connection_commit, the_connection, bind, gets, ret, raise, modify.
  destruct (connection (self s)) as [c|] eqn:Hc; intros [= _ <-]; [|apply stays_refl].
  set (c' := Connection (c_path c) (c_work c) false (c_row_factory c) (c_functions c)
               (c_cursors c) (c_cursor_seq c)).
  apply (stays_trans _ (set_connection (Some c') s));
    [by apply (stays_set_connection c)|by apply stays_flush].
Qed.

Lemma quiet_connection_rollback : quiet connection_rollback.
Proof.
  intros s r s'. unfold connection_rollback, the_connection, bind, gets, ret, raise, modify.
  destruct (connection (self s)) as [c|] eqn:Hc; intros [= _ <-]; [|apply stays_refl].
  by apply (stays_set_connection c).
Qed.

Lemma quiet_connection_in_transaction : quiet connection_in_transaction.
Proof. unfold connection_in_transaction. quiet_go. Qed.

Lemma quiet_connection_cursor : quiet connection_cursor.
Proof.
  intros s r s'. unfold connection_cursor, the_connection, bind, gets, ret, raise, modify,
    emit.
  destruct (connection (self s)) as [c|] eqn:Hc; intros [= _ <-]; [|apply stays_refl].
  eapply stays_trans; [|apply stays_record_event]; by apply (stays_set_connection c).
Qed.

Lemma quiet_cursor_close cursor : quiet (cursor_close cursor).
Proof.
  intros s r s'. rewrite cursor_close_eq. intros [= _ <-]. unfold cursor_closed.
  destruct (connection (self s)) as [c|] eqn:Hc.
  - eapply stays_trans; [|apply stays_record_event]; by apply (stays_set_connection c).
  - apply stays_record_event.
Qed.

Lemma quiet_resolve_table table : quiet (resolve_table table).
Proof.
  destruct table; simpl; quiet_go. unfold require. destruct (dict_get _ _); quiet_go.
Qed.

#[export] Hint Resolve quiet_connection_execute quiet_cursor_execute
  quiet_connection_executemany quiet_connection_commit quiet_connection_rollback
  quiet_connection_in_transaction quiet_connection_cursor quiet_cursor_close
  quiet_resolve_table : quiet.

Lemma quiet_make_records cols rows : quiet (make_records cols rows).
Proof.
  assert (∀ cols index row record, quiet (fill_record cols index row record)) as Hfill.
  { clear. induction cols as [|col cols IH]; intros; simpl; quiet_go. }
  induction rows as [|row rows IH]; simpl; quiet_go.
Qed.
#[export] Hint Resolve quiet_make_records : quiet.

Section quiet_methods.
Context `{!Explain}.

Lemma quiet_create_table table should_commit : quiet (create_table table should_commit).
Proof. unfold create_table. quiet_go. Qed.

Lemma quiet_create_schemas should_commit : quiet (create_schemas should_commit).
Proof. unfold create_schemas. quiet_go. apply quiet_create_table. Qed.

Lemma quiet_insert table rows why should_commit : quiet (insert table rows why should_commit).
Proof. unfold insert, datetime_now. destruct rows; quiet_go. Qed.

Lemma quiet_update table row where_ subs why should_commit :
  quiet (update table row where_ subs why should_commit).
Proof. unfold update. quiet_go. case_bool_decide; quiet_go. Qed.

Lemma quiet_execute sql subs why should_commit : quiet (execute sql subs why should_commit).
Proof. unfold execute. quiet_go. destruct subs as [| |[|]]; quiet_go. Qed.

Lemma quiet_query sql subs why : quiet (query sql subs why).
Proof.
  unfold query, explained. quiet_go.
  destruct (r_description a0); quiet_go.
Qed.

Lemma quiet_commit : quiet commit.
Proof. unfold commit. quiet_go. Qed.

Lemma quiet_rollback : quiet rollback.
Proof. unfold rollback. quiet_go. Qed.

Lemma stays_live_changed s s' : on_own_file s → stays s s' → live_changed s s'.
Proof.
  intros Hown Hst.
  destruct (Hst Hown) as (_ & Hfn & Hbd & Hl & _ & _ & _ & Hf & Hd & _ & Hc & _).
  by split_and!.
Qed.

(** X21.  The data operations write to the store's file only.  On a store
    whose connection, if any, is on its own file, [insert], [update],
    [execute], [query], [create_table], [create_schemas], [commit] and
    [rollback], however they end, change no other file and no directory;
    the file name, the backup directory, the last-restore index, the lock
    and the table registry are as before, and so is the snapshot
    listing. *)
Theorem data_operations_stay s s' :
  on_own_file s →
  (∃ table rows why should_commit r, insert table rows why should_commit s = (r, s'))
  ∨ (∃ table row where_ subs why should_commit r,
       update table row where_ subs why should_commit s = (r, s'))
  ∨ (∃ sql subs why should_commit r, execute sql subs why should_commit s = (r, s'))
  ∨ (∃ sql subs why r, query sql subs why s = (r, s'))
  ∨ (∃ table should_commit r, create_table table should_commit s = (r, s'))
  ∨ (∃ should_commit r, create_schemas should_commit s = (r, s'))
  ∨ (∃ r, commit s = (r, s'))
  ∨ (∃ r, rollback s = (r, s')) →
  (∀ p, p ≠ filename (self s) → w_files (env s') !! p = w_files (env s) !! p)
  ∧ w_dirs (env s') = w_dirs (env s)
  ∧ filename (self s') = filename (self s)
  ∧ backup_directory (self s') = backup_directory (self s)
  ∧ last_restore (self s') = last_restore (self s)
  ∧ backup_restore_lock (self s') = backup_restore_lock (self s)
  ∧ tables (self s') = tables (self s)
  ∧ listing s' = listing s
  ∧ on_own_file s'.
Proof.
  intros Hown Hrun.
  assert (stays s s') as Hst.
  { destruct Hrun as [(table & rows & why & sc & r & Hr)
                     |[(table & row & where_ & subs & why & sc & r & Hr)
                     |[(sql & subs & why & sc & r & Hr)
                     |[(sql & subs & why & r & Hr)
                     |[(table & sc & r & Hr)
                     |[(sc & r & Hr)
                     |[(r & Hr)|(r & Hr)]]]]]]].
    - by eapply quiet_insert.
    - by eapply quiet_update.
    - by eapply quiet_execute.
    - by eapply quiet_query.
    - by eapply quiet_create_table.
    - by eapply quiet_create_schemas.
    - by eapply quiet_commit.
    - by eapply quiet_rollback. }
  pose proof (listing_live_changed _ _ (stays_live_changed _ _ Hown Hst)) as Hlist.
  destruct (Hst Hown) as (Hown' & Hfn & Hbd & _ & Hlr & Hlk & Ht & Hf & Hd & _).
  by split_and!.
Qed.

End quiet_methods.

Lemma data_operations_stay_witness :
  ∃ s',
    insert (By_name "revision") [{["number" := VInt 1]}] None true example_open = (Ok tt, s')
    ∧ w_files (env s') !! "/data/main.t1.sqlite"
      = w_files (env example_open) !! "/data/main.t1.sqlite"
    ∧ listing s' = listing example_open.
Proof.
  destruct (insert (By_name "revision") [{["number" := VInt 1]}] None true example_open)
    as [r s'] eqn:Hrun.
  assert (r = Ok tt) as -> by (vm_compute in Hrun; by injection Hrun as <- _).
  destruct (@data_operations_stay explain_plainly example_open s') as (Hf & _ & _ & _ & _ & _ & _ & Hlist & _).
  - intros c [= <-]. reflexivity.
  - left. by exists (By_name "revision"), [{["number" := VInt 1]}], None, true, (Ok tt).
  - exists s'. split; [reflexivity|]. split; [|exact Hlist].
    apply Hf. by vm_compute.
Defined.

(** ** Tables made anew *)





(** ** The directory of a file *)

Lemma made_dirs_cons mode dirs a l :
  made_dirs mode dirs (a :: l)
  = match made_dirs mode dirs l !! a with
    | Some _ => made_dirs mode dirs l
    | None => <[a := mode]> (made_dirs mode dirs l)
    end.
Proof. done. Qed.

Lemma made_dirs_keeps mode dirs l x m :
  dirs !! x = Some m → made_dirs mode dirs l !! x = Some m.
Proof.
  intros Hx. induction l as [|a l IH]; [done|]. rewrite made_dirs_cons.
  destruct (made_dirs mode dirs l !! a) eqn:Ha; [done|].
  rewrite lookup_insert_ne; [done|]. intros ->. by rewrite IH in Ha.
Qed.

Lemma made_dirs_made mode dirs l x m :
  dirs !! x = None → made_dirs mode dirs l !! x = Some m → x ∈ l ∧ m = mode.
Proof.
  intros Hx. induction l as [|a l IH]; [by unfold made_dirs; simpl; rewrite Hx|].
  rewrite made_dirs_cons.
  destruct (made_dirs mode dirs l !! a) eqn:Ha.
  - intros Hm. destruct (IH Hm) as [? ?]. split; [by right|done].
  - destruct (decide (x = a)) as [->|Hne].
    + rewrite lookup_insert_eq. intros [= <-]. split; [by left|done].
    + rewrite lookup_insert_ne by done. intros Hm. destruct (IH Hm) as [? ?].
      split; [by right|done].
Qed.

(** X24.  [__create_directory] of a file name with a directory part, no
    regular file standing where the directory or one of its ancestors is
    to be: when the directory is there nothing changes; when it is missing
    it is made,
    with the ancestors it lacks, each with all the permission bits
    (0o777) whatever the mask of the process; the directories that were
    there keep their bits, no file changes, and the mask of the process is
    put back. *)
Theorem create_directory_public p s :
  Path.dirname p ≠ "" →
  w_files (env s) !! Path.dirname p = None →
  (∀ a, a ∈ Path.ancestors (Path.dirname p) → w_files (env s) !! a = None) →
  ∃ s',
    create_directory p s = (Ok tt, s')
    ∧ is_Some (w_dirs (env s') !! Path.dirname p)
    ∧ (is_Some (w_dirs (env s) !! Path.dirname p) → w_dirs (env s') = w_dirs (env s))
    ∧ (∀ d m, w_dirs (env s) !! d = Some m → w_dirs (env s') !! d = Some m)
    ∧ (∀ d m, w_dirs (env s) !! d = None → w_dirs (env s') !! d = Some m →
              m = 511 ∧ d ∈ Path.dirname p :: Path.ancestors (Path.dirname p))
    ∧ w_umask (env s') = w_umask (env s)
    ∧ w_files (env s') = w_files (env s)
    ∧ self s' = self s.
Proof.
  intros Hd Hf _. rewrite (create_directory_eq _ _ Hd Hf).
  eexists. split; [done|]. unfold with_directory. simpl.
  destruct (w_dirs (env s) !! Path.dirname p) as [m0|] eqn:Hdir.
  - rewrite bool_decide_eq_false_2 by done.
    split_and!;
      first [done|by eexists|intros d m Hnone Hsome; by rewrite Hnone in Hsome].
  - rewrite bool_decide_eq_true_2 by done.
    split_and!;
      first [done
            |by intros [? ?]
            |exists 511; apply made_dirs_new; [by left|done]
            |intros d m Hm; by apply made_dirs_keeps
            |intros d m Hnone Hsome;
             by destruct (made_dirs_made _ _ _ _ _ Hnone Hsome) as [? ?]].
Qed.

Lemma create_directory_public_witness :
  ∃ s',
    create_directory "/data/store/main.sqlite" example_new = (Ok tt, s')
    ∧ w_dirs (env s') !! "/data/store" = Some 511
    ∧ w_dirs (env s') !! "/data" = Some 493
    ∧ w_umask (env s') = 18.
Proof.
  destruct (create_directory_public "/data/store/main.sqlite" example_new)
    as (s' & Hs' & [m Hm] & _ & Hkeep & Hmade & Humask & _).
  - by vm_compute.
  - reflexivity.
  - intros a Ha. reflexivity.
  - exists s'. split; [exact Hs'|]. split_and!.
    + destruct (Hmade "/data/store" m eq_refl Hm) as [-> _]. exact Hm.
    + apply Hkeep. reflexivity.
    + exact Humask.
Defined.

(** ** disconnect *)

Section disconnect.
Context `{!Explain}.

(** X25.  [disconnect] closes the connection and forgets it, and does
    nothing when there is none.  What was not committed is lost: after an
    [insert] without commit, [disconnect] leaves the files as they were
    before the insert, and the next [connect] on a file that needs no
    migration has the content of the file in view. *)
Theorem disconnect_drops_pending s c f :
  in_step s c →
  c_path c = filename (self s) →
  w_files (env s) !! filename (self s) = Some f →
  settled (LATEST_REVISION (self s)) f →
  ∀ table rows why r s1,
    insert table rows why false s = (r, s1) →
    ∃ s2 c2,
      disconnect s1 = (Ok tt, disconnected s1)
      ∧ connection (self (disconnected s1)) = None
      ∧ disconnect (disconnected s1) = (Ok tt, disconnected s1)
      ∧ w_files (env (disconnected s1)) = w_files (env s)
      ∧ connect (disconnected s1) = (Ok tt, s2)
      ∧ in_step s2 c2
      ∧ c_work c2 = c_work c
      ∧ w_files (env s2) = w_files (env s).
Proof.
  intros (Hc & Htx & Hfile) Hp Hf (n & Hn & Hl) table rows why r s1 Hrun.
  apply (insert_pending _ _ _ _ _ _ _ Hc) in Hrun.
  pose proof (pending_files _ _ _ Hrun) as Henv.
  assert (filename (self s1) = filename (self s)
          ∧ LATEST_REVISION (self s1) = LATEST_REVISION (self s)) as [Hfn1 Hl1].
  { by destruct Hrun as [->|[db ->]]. }
  destruct (disconnected_self s1) as (Hfn & _ & Hld & _ & _ & Hnone).
  destruct (disconnected_env s1) as (Hfiles & _).
  assert (f_data f = c_work c) as Hdata.
  { rewrite Hp, Hf in Hfile. simpl in Hfile. by injection Hfile. }
  assert (w_files (env (disconnected s1)) !! filename (self (disconnected s1)) = Some f)
    as Hf1 by (by rewrite Hfiles, Henv, Hfn, Hfn1).
  eexists _, _. split_and!.
  - apply disconnect_eq.
  - done.
  - rewrite disconnect_eq. f_equal. unfold disconnected at 1. by rewrite Hnone.
  - by rewrite Hfiles, Henv.
  - apply (connect_settled _ f n); [done|done|]. by rewrite Hld, Hl1.
  - by apply (in_step_opened_settled _ f).
  - done.
  - simpl. by rewrite Hfiles, Henv.
Qed.

End disconnect.

Lemma disconnect_drops_pending_witness :
  ∃ s1 s2 c2,
    insert (By_name "revision") [{["number" := VInt 2]}] None false
      (opened_settled (f_data (example_file "live")) (example_archive 0)) = (Ok tt, s1)
    ∧ connect (H := explain_plainly) (disconnected s1) = (Ok tt, s2)
    ∧ in_step s2 c2
    ∧ c_work c2 = f_data (example_file "live").
Proof.
  destruct (insert (By_name "revision") [{["number" := VInt 2]}] None false
              (opened_settled (f_data (example_file "live")) (example_archive 0)))
    as [r s1] eqn:Hrun.
  assert (r = Ok tt) as -> by (vm_compute in Hrun; by injection Hrun as <- _).
  destruct (@disconnect_drops_pending explain_plainly
              (opened_settled (f_data (example_file "live")) (example_archive 0))
              (Connection "/data/main.sqlite" (f_data (example_file "live")) false true
                 [("regexp", 2%nat)] [] 1)
              (example_file "live"))
    with (table := By_name "revision") (rows := [{["number" := VInt 2]}] : list (gmap string value))
         (why := @None string) (r := @Ok unit tt) (s1 := s1)
    as (s2 & c2 & _ & _ & _ & _ & Hs2 & Hin & Hw & _).
  - by split_and!.
  - reflexivity.
  - reflexivity.
  - exists 1. split; [reflexivity|by vm_compute].
  - exact Hrun.
  - exists s1, s2, c2. split; [reflexivity|]. split; [exact Hs2|]. split; [exact Hin|exact Hw].
Defined.

(** ** query and the statements that return no rows *)

Lemma engine_run_no_description db q params rep :
  (∀ cs t, q ≠ Select_from cs t) →
  engine_run db q params = Ok rep →
  r_description rep = None.
Proof.
  intros Hq. unfold engine_run. destruct q; try (by destruct (Hq columns table_name));
    repeat case_match; by intros [= <-].
Qed.

Lemma engine_run_select_db db cs t params rep :
  engine_run db (Select_from cs t) params = Ok rep → r_db rep = db.
Proof. unfold engine_run. repeat case_match; by intros [= <-]. Qed.

Section query_statements.
Context `{!Explain}.

(** X26.  [query] of a SELECT changes nothing but the count of cursors:
    the files, the view of the connection and its transaction are as
    before, however the query ends.  [query] of a statement that returns
    no rows (an INSERT, an UPDATE, a CREATE) runs the statement and then
    fails on the missing description with a [TypeError]; what the
    statement did stays in the view of the connection. *)
Theorem query_reads_only sql subs why s c :
  connection (self s) = Some c →
  (∀ cs t, sql = Select_from cs t →
           (query sql subs why s).2 = cursor_closed (c_cursor_seq c) (cursor_opened c s)
           ∧ w_files (env (query sql subs why s).2) = w_files (env s)
           ∧ ∃ c', connection (self (query sql subs why s).2) = Some c'
                   ∧ c_work c' = c_work c
                   ∧ c_in_transaction c' = c_in_transaction c)
  ∧ (∀ rep, (∀ cs t, sql ≠ Select_from cs t) →
            engine_run (c_work c) sql subs = Ok rep →
            (query sql subs why s).1 = Raise (TypeError "'NoneType' object is not iterable")
            ∧ ∃ c', connection (self (query sql subs why s).2) = Some c'
                    ∧ c_work c' = r_db rep
                    ∧ c_cursors c' = filter (λ i, i ≠ c_cursor_seq c) (c_cursors c)).
Proof.
  intros Hc. rewrite (query_run _ _ _ _ _ Hc). cbn [fst snd].
  pose (c1 := Connection (c_path c) (c_work c) (c_in_transaction c)
                (c_row_factory c) (c_functions c)
                (c_cursors c ++ [c_cursor_seq c]) (S (c_cursor_seq c))).
  assert (connection (self (cursor_opened c s)) = Some c1) as Hc1 by done.
  split.
  - intros cs t ->.
    assert ((run_statement "execute" (Select_from cs t) subs (cursor_opened c s)).2
            = cursor_opened c s) as ->.
    { destruct (engine_run (c_work c) (Select_from cs t) subs) as [rep|e] eqn:He.
      - by rewrite (run_statement_select _ _ _ _ _ c1 rep Hc1 He).
      - by rewrite (run_statement_raise _ _ _ _ c1 e Hc1 He). }
    split; [done|]. split; [done|]. by eexists.
  - intros rep Hq He. rewrite He. cbn [query_outcome].
    rewrite (engine_run_no_description _ _ _ _ Hq He). split; [done|].
    assert (∃ tx : bool, (run_statement "execute" sql subs (cursor_opened c s)).2
                  = (λ s0 : state, if tx then s0
                           else flush (with_work c1 (r_db rep) tx) s0)
                      (set_connection (Some (with_work c1 (r_db rep) tx))
                         (cursor_opened c s))) as [tx ->].
    { exists (c_in_transaction c || is_dml sql).
      unfold run_statement. rewrite (bind_ok _ _ _ _ _ (the_connection_eq _ _ _ Hc1)).
      change (c_work c1) with (c_work c). rewrite He.
      destruct sql; try (by destruct (Hq columns table_name)); done. }
    unfold cursor_closed. destruct tx; simpl.
    + eexists. split; [done|]. split; [done|]. simpl.
      rewrite filter_app, filter_cons_False, filter_nil, app_nil_r by (by intros ?). done.
    + eexists. split; [done|]. split; [done|]. simpl.
      rewrite filter_app, filter_cons_False, filter_nil, app_nil_r by (by intros ?). done.
Qed.

End query_statements.

Lemma query_reads_only_witness :
  (query (H := explain_plainly) (Insert_into "revision" ["number"]) [VInt 7] None
     example_open).1
  = Raise (TypeError "'NoneType' object is not iterable").
Proof.
  apply (proj2 (@query_reads_only explain_plainly (Insert_into "revision" ["number"])
                  [VInt 7] None example_open
                  (with_work (opened_connection "/data/main.sqlite" ∅)
                     {["revision" := revision_table []]} false) eq_refl)
           (Reply {["revision" := revision_table [[VNone; VInt 7]]]} None [] 1)).
  - intros cs t. discriminate.
  - by vm_compute.
Defined.
